(** * HealthyYou: the place-details fetcher, the opening-hours and star
    helpers of the Neighborhood Discovery widget, and the BMI calculator.

    Shallow embedding of [src/assets/js/google-maps.js]:
    - [Num]      JavaScript numbers as IEEE-754 binary64 values
                 ([spec_float] with [prec = 53], [emax = 1024]) and the
                 built-ins the code calls on them;
    - [Str]      the string built-ins the code calls;
    - [Helpers]  [formatPlaceType], [initArray], [addStarIcons],
                 [parseDaysHours];
    - [Widget]   [fetchPlaceDetails] and its [processResult] closure as a
                 state machine over the place cache;
    - [Bmi]      [calculateBMI] over the form fields it reads and writes;
    - [Hours]    the loop of [parseDaysHours] as a pass over the days;
    - [Calls]    what is counted and kept over the runs of the fetcher;
    - [Panel]    [selectPlaceById] and the listeners that call it;
    - [SignUp]   the click listener of the sign-up link;
    and of [src/assets/js/hospital.js]:
    - [Geo]      [showErr]. *)

From Stdlib Require Import ZArith List String Ascii Bool Lia.
From Stdlib Require Import SpecFloat DecimalString.
From stdpp Require Import gmap strings list fin_maps.

Local Open Scope Z_scope.

(** ** JavaScript numbers *)

Module Num.

Definition prec : Z := 53.
Definition emax : Z := 1024.

(** A JavaScript Number. *)
Abbreviation number := spec_float.

Definition add : number -> number -> number := SFadd prec emax.
Definition sub : number -> number -> number := SFsub prec emax.
Definition mul : number -> number -> number := SFmul prec emax.
Definition div : number -> number -> number := SFdiv prec emax.

(** [x < y], [x <= y], [x === y] on numbers; all false on NaN. *)
Definition ltb : number -> number -> bool := SFltb.
Definition leb : number -> number -> bool := SFleb.
Definition eqb : number -> number -> bool := SFeqb.

Definition NaN : number := S754_nan.
Definition Infinity : number := S754_infinity false.

Definition isNaN (x : number) : bool :=
  match x with S754_nan => true | _ => false end.

(** ToBoolean on a number: [0], [-0] and [NaN] are falsy. *)
Definition truthy (x : number) : bool :=
  match x with
  | S754_zero _ | S754_nan => false
  | _ => true
  end.

(** The number nearest to an integer (exact below [2^53]). *)
Definition of_Z (z : Z) : number := binary_normalize prec emax z 0 false.

(** The number nearest to [m * 10^e10], ties to even: the value of a
    decimal literal of the source and of a numeric string. *)
Definition of_decimal (neg : bool) (m : N) (e10 : Z) : number :=
  match m with
  | N0 => S754_zero neg
  | Npos p =>
      if 0 <=? e10
      then binary_normalize prec emax
             (cond_Zopp neg (Zpos p * 10 ^ e10)) 0 false
      else SFdiv prec emax (S754_finite neg p 0)
             (S754_finite false (Z.to_pos (10 ^ (- e10))) 0)
  end.

Definition valid (x : number) : bool := valid_binary prec emax x.

(** Exact integer parts of a finite value [(-1)^s * m * 2^e]. *)
Definition floorZ (s : bool) (m : positive) (e : Z) : Z :=
  if 0 <=? e then cond_Zopp s (Zpos m * 2 ^ e)
  else cond_Zopp s (Zpos m) / 2 ^ (- e).

(** [floor (x + 1/2)], computed exactly. *)
Definition roundZ (s : bool) (m : positive) (e : Z) : Z :=
  if 0 <=? e then cond_Zopp s (Zpos m * 2 ^ e)
  else (2 * cond_Zopp s (Zpos m) + 2 ^ (- e)) / 2 ^ (1 - e).

(** [Math.floor]. *)
Definition Math_floor (x : number) : number :=
  match x with
  | S754_finite s m e =>
      if 0 <=? e then x
      else let n := floorZ s m e in
           if n =? 0 then S754_zero false else of_Z n
  | _ => x
  end.

(** [Math.round]: the nearest integer, ties towards [+Infinity]; a result
    of zero keeps the sign of the argument. *)
Definition Math_round (x : number) : number :=
  match x with
  | S754_finite s m e =>
      if 0 <=? e then x
      else let n := roundZ s m e in
           if n =? 0 then S754_zero s else of_Z n
  | _ => x
  end.

(** [Math.pow(2, k)] for a counter [k]. *)
Definition Math_pow2 (k : nat) : number := of_Z (2 ^ Z.of_nat k).

(** Decimal digits of a natural number, ["0"] for zero. *)
Definition digits_of (n : Z) : string :=
  NilZero.string_of_uint (N.to_uint (Z.to_N n)).

Fixpoint zeros (k : nat) : string :=
  match k with O => EmptyString | S k' => String "0" (zeros k') end.

(** Steps 9-10 of [Number.prototype.toFixed]: the digits of [n] with a
    point before the last [f] of them. *)
Definition fixed_digits (n : Z) (f : nat) : string :=
  let m := digits_of n in
  match f with
  | O => m
  | _ =>
      let k := String.length m in
      let m := if (k <=? f)%nat then zeros (f + 1 - k) +:+ m else m in
      let k := String.length m in
      substring 0 (k - f) m +:+ "." +:+ substring (k - f) f m
  end.

(** [Number::toString] of a finite [x >= 10^21], an integer [X]: the
    shortest digit string [s] (of [k] digits) and exponent [n] with
    [s * 10^(n-k)] rounding to [x]; the closest one when several do. *)
Definition rounds_to (x : number) (v : Z) : bool :=
  match x, of_Z v with
  | S754_finite s m e, S754_finite s' m' e' =>
      Bool.eqb s s' && Pos.eqb m m' && (e =? e')
  | _, _ => false
  end.

Fixpoint shortest_from (fuel : nat) (k : Z) (x : number) (X n : Z) : Z * Z :=
  let p := 10 ^ (n - k) in
  let lo := X / p in
  let hi := lo + 1 in
  let oklo := rounds_to x (lo * p) in
  let okhi := rounds_to x (hi * p) in
  let pick (s : Z) := if s =? 10 ^ k then (1, n + 1) else (s, n) in
  match oklo, okhi with
  | true, false => pick lo
  | false, true => pick hi
  | true, true =>
      let dlo := X - lo * p in
      let dhi := hi * p - X in
      if dlo <? dhi then pick lo
      else if dhi <? dlo then pick hi
      else if Z.even lo then pick lo else pick hi
  | false, false =>
      match fuel with
      | O => (X, n)
      | S fuel' => shortest_from fuel' (k + 1) x X n
      end
  end.

Definition toString_large (x : number) (X : Z) : string :=
  let n := Z.of_nat (String.length (digits_of X)) in
  let '(s, n) := shortest_from (Z.to_nat n) 1 x X n in
  let ds := digits_of s in
  match ds with
  | String d EmptyString => String d "e+" +:+ digits_of (n - 1)
  | String d rest => String d ("." +:+ rest) +:+ "e+" +:+ digits_of (n - 1)
  | EmptyString => EmptyString
  end.

(** [Number.prototype.toFixed(f)]. *)
Definition toFixed (x : number) (f : nat) : string :=
  match x with
  | S754_nan => "NaN"
  | S754_infinity s => if s then "-Infinity" else "Infinity"
  | S754_zero _ => fixed_digits 0 f
  | S754_finite s m e =>
      let sign := if s then "-" else ""%string in
      if (0 <=? e) && (10 ^ 21 <=? Zpos m * 2 ^ e)
      then sign +:+ toString_large (S754_finite false m e) (Zpos m * 2 ^ e)
      else
        let n :=
          if 0 <=? e then Zpos m * 2 ^ e * 10 ^ Z.of_nat f
          else (2 * Zpos m * 10 ^ Z.of_nat f + 2 ^ (- e)) / 2 ^ (1 - e) in
        sign +:+ fixed_digits n f
  end.

(** *** [parseFloat] *)

(** WhiteSpace and LineTerminator code units below 256. *)
Definition is_space (c : ascii) : bool :=
  let n := nat_of_ascii c in
  ((9 <=? n) && (n <=? 13) || (n =? 32) || (n =? 160))%nat.

Definition is_digit (c : ascii) : bool :=
  let n := nat_of_ascii c in ((48 <=? n) && (n <=? 57))%nat.

Definition digit_val (c : ascii) : N := N.of_nat (nat_of_ascii c - 48).

Fixpoint skip_space (s : string) : string :=
  match s with
  | String c s' => if is_space c then skip_space s' else s
  | EmptyString => s
  end.

(** Reads a maximal run of digits: accumulated value, count, rest. *)
Fixpoint scan_digits (s : string) (acc : N) (cnt : nat) : N * nat * string :=
  match s with
  | String c s' =>
      if is_digit c then scan_digits s' (10 * acc + digit_val c)%N (S cnt)
      else (acc, cnt, s)
  | EmptyString => (acc, cnt, s)
  end.

(** ExponentPart, when a complete one starts the string; else [0]. *)
Definition scan_exponent (s : string) : Z :=
  match s with
  | String c s' =>
      if (Ascii.eqb c "e" || Ascii.eqb c "E")%bool then
        let '(neg, s'') :=
          match s' with
          | String "+" t => (false, t)
          | String "-" t => (true, t)
          | _ => (false, s')
          end in
        let '(v, cnt, _) := scan_digits s'' 0%N O in
        match cnt with
        | O => 0
        | _ => cond_Zopp neg (Z.of_N v)
        end
      else 0
  | EmptyString => 0
  end.

(** StrUnsignedDecimalLiteral: the longest prefix that is one. *)
Definition parse_unsigned (neg : bool) (s : string) : number :=
  if String.prefix "Infinity" s then S754_infinity neg
  else
    let '(iv, icnt, rest) := scan_digits s 0%N O in
    match rest with
    | String "." rest' =>
        let '(v, fcnt, rest'') := scan_digits rest' iv O in
        match icnt, fcnt with
        | O, O => NaN
        | _, _ => of_decimal neg v (scan_exponent rest'' - Z.of_nat fcnt)
        end
    | _ =>
        match icnt with
        | O => NaN
        | _ => of_decimal neg iv (scan_exponent rest)
        end
    end.

Definition parseFloat (s : string) : number :=
  match skip_space s with
  | String "+" t => parse_unsigned false t
  | String "-" t => parse_unsigned true t
  | t => parse_unsigned false t
  end.

(** *** Values, for the proofs

    The value of a non-negative finite number [m * 2^e], scaled by
    [2^ofs] so that it is an integer for every exponent in use. *)
Definition ofs : Z := 2200.
Definition scaled (m e : Z) : Z := m * 2 ^ (e + ofs).

(** The number made from a mantissa [q] rounded at exponent [F]. *)
Definition round_result (q F : Z) : spec_float :=
  if q =? 2 ^ 53 then
    if F + 1 <=? 971 then S754_finite false (2 ^ 52) (F + 1) else S754_infinity false
  else
    match q with
    | Zpos m => if F <=? 971 then S754_finite false m F else S754_infinity false
    | _ => S754_zero false
    end.

End Num.

(** ** Strings

    A JavaScript string is modelled by a [string] whose characters are its
    UTF-16 code units; only code units below 256 are representable. *)

Module Str.

(** The class [\w] of a regular expression without the [u] and [i] flags. *)
Definition is_word (c : ascii) : bool :=
  let n := nat_of_ascii c in
  ((48 <=? n) && (n <=? 57) || (65 <=? n) && (n <=? 90)
   || (97 <=? n) && (n <=? 122) || (n =? 95))%nat.

(** The class [\s]. *)
Definition is_space : ascii -> bool := Num.is_space.

(** [String.prototype.toUpperCase] on a single code unit; [181] and [255]
    map above 255 and are left as they are. *)
Definition toUpperCase_char (c : ascii) : string :=
  let n := nat_of_ascii c in
  if ((97 <=? n) && (n <=? 122))%nat then String (ascii_of_nat (n - 32)) ""
  else if (n =? 223)%nat then "SS"
  else if ((224 <=? n) && (n <=? 254) && negb (n =? 247))%nat
       then String (ascii_of_nat (n - 32)) ""
  else String c "".

(** [s.charAt(0).toUpperCase() + s.slice(1)]. *)
Definition capitalize (s : string) : string :=
  match s with
  | EmptyString => EmptyString
  | String c s' => toUpperCase_char c +:+ s'
  end.

(** [s.replace(/_/g, ' ')]. *)
Fixpoint underscores_to_spaces (s : string) : string :=
  match s with
  | EmptyString => EmptyString
  | String c s' =>
      String (if Ascii.eqb c "_" then " "%char else c) (underscores_to_spaces s')
  end.

(** [s.substr(0, n)]. *)
Definition substr0 (n : nat) (s : string) : string := substring 0 n s.

(** [s.indexOf(c) !== -1]. *)
Fixpoint contains (c : ascii) (s : string) : bool :=
  match s with
  | EmptyString => false
  | String c' s' => Ascii.eqb c c' || contains c s'
  end.

Definition starts_with_space (s : string) : bool :=
  match s with
  | String c _ => is_space c
  | EmptyString => false
  end.

(** [s.split(/\:\s+/)]: the pieces between the matches of a colon followed
    by as many white-space characters as follow it (at least one).
    [skipping] holds while the white space of a match is consumed. *)
Fixpoint split_colon_space (skipping : bool) (piece s : string) : list string :=
  match s with
  | EmptyString => [piece]
  | String c s' =>
      if skipping && is_space c then split_colon_space true piece s'
      else if Ascii.eqb c ":" && starts_with_space s'
      then piece :: split_colon_space true "" s'
      else split_colon_space false (piece +:+ String c "") s'
  end.

Definition split (s : string) : list string := split_colon_space false "" s.

(** The match of [/\w+$/] in [s]: the text before it and the matched text,
    the maximal run of word characters that ends the string (empty when
    there is no match). *)
Fixpoint split_trailing_word (s : string) : string * string :=
  match s with
  | EmptyString => (EmptyString, EmptyString)
  | String c s' =>
      let '(pre, w) := split_trailing_word s' in
      match pre with
      | EmptyString => if is_word c then (EmptyString, String c w)
                       else (String c EmptyString, w)
      | _ => (String c pre, w)
      end
  end.

(** GetSubstitution for a pattern without capture groups: [$$], [$&],
    [$`] and [$'] are expanded, any other [$] is literal. *)
Fixpoint substitute (template matched before after : string) : string :=
  match template with
  | String "$" (String "$" t) => String "$" (substitute t matched before after)
  | String "$" (String "&" t) => matched +:+ substitute t matched before after
  | String "$" (String "`" t) => before +:+ substitute t matched before after
  | String "$" (String "'" t) => after +:+ substitute t matched before after
  | String c t => String c (substitute t matched before after)
  | EmptyString => EmptyString
  end.

(** [s.replace(/\w+$/, replacement)]. *)
Definition replace_trailing_word (s replacement : string) : string :=
  let '(pre, w) := split_trailing_word s in
  match w with
  | EmptyString => s
  | _ => pre +:+ substitute replacement w pre EmptyString
  end.

End Str.

(** ** Helper functions of the widget *)

Module Helpers.

Import Num.

(** Format a Place Type string by capitalizing and replacing underscores
    with spaces. *)
Definition formatPlaceType (str : string) : string :=
  let capitalized := Str.capitalize str in
  Str.underscores_to_spaces capitalized.

Definition zero : number := S754_zero false.
Definition one : number := of_Z 1.
Definition two : number := of_Z 2.
Definition five : number := of_Z 5.

(** Smallest integer not below a finite value. *)
Definition ceilZ (s : bool) (m : positive) (e : Z) : Z := - floorZ (negb s) m e.

(** The largest length of an array; [push] throws beyond it. *)
Definition max_array_length : Z := 2 ^ 32 - 1.

(** How many times the loop of [initArray] can push. *)
Definition push_budget (arraySize : number) : nat :=
  match arraySize with
  | S754_finite false m e => Z.to_nat (Z.min (ceilZ false m e) max_array_length)
  | S754_infinity false => Z.to_nat max_array_length
  | _ => O
  end.

(** [while (array.length < arraySize) array.push(0)]; [None] when [push]
    throws on a full array. *)
Fixpoint initArray_loop (budget : nat) (array : list number) (arraySize : number)
  : option (list number) :=
  if ltb (of_Z (Z.of_nat (length array))) arraySize then
    match budget with
    | O => None
    | S budget' => initArray_loop budget' (array ++ [zero]) arraySize
    end
  else Some array.

(** Initializes an array of zeros with the given size. *)
Definition initArray (arraySize : number) : option (list number) :=
  initArray_loop (push_budget arraySize) [] arraySize.

(** An object that may carry a rating and the star arrays. *)
Record rated := mkRated {
  rating : option number;
  fullStarIcons : option (list number);
  halfStarIcons : option (list number);
  emptyStarIcons : option (list number);
}.

(** Assigns star icons to an object given its rating (out of 5); [None]
    when [initArray] throws. *)
Definition addStarIcons (obj : rated) : option rated :=
  match rating obj with
  | None => Some obj
  | Some r =>
      if negb (truthy r) then Some obj
      else
        let starsOutOfTen := Math_round (mul two r) in
        let fullStars := Math_floor (div starsOutOfTen two) in
        let halfStars :=
          if negb (eqb fullStars (div starsOutOfTen two)) then one else zero in
        let emptyStars := sub (sub five fullStars) halfStars in
        match initArray fullStars with
        | None => None
        | Some full =>
            match initArray halfStars with
            | None => None
            | Some half =>
                match initArray emptyStars with
                | None => None
                | Some empty =>
                    Some (mkRated (rating obj) (Some full) (Some half) (Some empty))
                end
            end
        end
  end.

(** One element of the opening hours shown; [hours] is [None] when the
    text has no colon-and-space separator ([e[1]] is [undefined]). *)
Record day_hours := mkDayHours { days : string; hours : option string }.

Definition hours_eqb (a b : option string) : bool :=
  match a, b with
  | None, None => true
  | Some x, Some y => String.eqb x y
  | _, _ => false
  end.

Definition day_entry (text : string) : day_hours :=
  let e := Str.split text in
  mkDayHours (Str.substr0 3 (List.hd EmptyString e)) (List.nth_error e 1).

(** The [for] loop of [parseDaysHours], [i] being its index. An iteration
    either removes an element or advances [i], so [length daysHours - i]
    iterations end it. *)
Fixpoint collapse (fuel i : nat) (daysHours : list day_hours) : list day_hours :=
  match fuel with
  | O => daysHours
  | S fuel' =>
      if (i <? length daysHours)%nat then
        match daysHours !! (i - 1)%nat, daysHours !! i with
        | Some prev, Some cur =>
            if hours_eqb (hours prev) (hours cur) then
              let days' :=
                if Str.contains "-" (days prev)
                then Str.replace_trailing_word (days prev) (days cur)
                else days prev +:+ " - " +:+ days cur in
              collapse fuel' i
                (delete i (<[(i - 1)%nat := mkDayHours days' (hours prev)]> daysHours))
            else collapse fuel' (S i) daysHours
        | _, _ => daysHours
        end
      else daysHours
  end.

(** [PlaceOpeningHours]; [weekday_text] may be absent. *)
Record PlaceOpeningHours := { weekday_text : option (list string) }.

(** Constructs an array of opening hours by day from a PlaceOpeningHours
    object, where adjacent days of week with the same hours are collapsed
    into one element. [None]: [weekday_text] is undefined and [map] throws. *)
Definition parseDaysHours (openingHours : PlaceOpeningHours)
  : option (list day_hours) :=
  match weekday_text openingHours with
  | None => None
  | Some texts =>
      let daysHours := map day_entry texts in
      Some (collapse (length daysHours) 1 daysHours)
  end.

(** *** Sample data *)

(** The code unit of a Latin-1 letter. *)
Definition e_acute : string := String "233" EmptyString.
Definition a_acute : string := String "225" EmptyString.

(** The opening hours of a place open around the clock, as the service
    words them for a Spanish-speaking visitor. *)
Definition spanish_week : list string :=
  [ "lunes: Abierto 24 horas"; "martes: Abierto 24 horas";
    "mi" +:+ e_acute +:+ "rcoles: Abierto 24 horas";
    "jueves: Abierto 24 horas"; "viernes: Abierto 24 horas";
    "s" +:+ a_acute +:+ "bado: Abierto 24 horas"; "domingo: Abierto 24 horas" ]%string.

Definition english_week : list string :=
  [ "Monday: 9:00 AM - 5:00 PM"; "Tuesday: 9:00 AM - 5:00 PM";
    "Wednesday: 9:00 AM - 5:00 PM"; "Thursday: 9:00 AM - 5:00 PM";
    "Friday: 9:00 AM - 5:00 PM"; "Saturday: Closed"; "Sunday: Closed" ]%string.

End Helpers.

(** ** The place-details fetcher of the widget *)

Module Widget.

Import Num Helpers.

(** Maximum number of place photos to show on the details panel. *)
Definition ND_NUM_PLACE_PHOTOS_MAX : nat := 6.

(** Mapping of Place Types to Material Icons used to render custom map
    markers. Place types come from the service's table of types, none of
    which names a property that objects inherit. *)
Definition ND_MARKER_ICONS_BY_TYPE : gmap string string :=
  <["_default" := "circle"]>
    (<["hospital" := "local_hospital"]>
       (<["pharmacy" := "local_pharmacy"]> ∅)).

(** *** What the places service returns *)

Record LatLng := { lat : number; lng : number }.

Record PlacePhoto := {
  getUrl : Z -> Z -> string;   (* maxWidth, maxHeight *)
  html_attributions : list string;
}.

Record PlaceResult := {
  r_name : option string;
  r_geometry : option LatLng;   (* geometry.location *)
  r_formatted_address : option string;
  r_photos : option (list PlacePhoto);
  r_types : option (list string);
  r_url : option string;
  r_website : option string;
  r_formatted_phone_number : option string;
  r_opening_hours : option PlaceOpeningHours;
  r_rating : option number;
  r_user_ratings_total : option number;
  r_price_level : option number;
  r_reviews : option (list rated);
}.

Inductive PlacesServiceStatus :=
  | OK | ZERO_RESULTS | INVALID_REQUEST | OVER_QUERY_LIMIT
  | REQUEST_DENIED | UNKNOWN_ERROR | NOT_FOUND.

Definition status_eqb (a b : PlacesServiceStatus) : bool :=
  match a, b with
  | OK, OK | ZERO_RESULTS, ZERO_RESULTS | INVALID_REQUEST, INVALID_REQUEST
  | OVER_QUERY_LIMIT, OVER_QUERY_LIMIT | REQUEST_DENIED, REQUEST_DENIED
  | UNKNOWN_ERROR, UNKNOWN_ERROR | NOT_FOUND, NOT_FOUND => true
  | _, _ => false
  end.

(** *** Place objects *)

Record photo := { urlSmall : string; urlLarge : string; attrs : list string }.

(** A Place object of the cache. [stars] holds its [rating] and the three
    star arrays, the properties [addStarIcons] reads and writes. *)
Record place := mkPlace {
  placeId : string;
  fetchedFields : gset string;
  name : option string;
  coords : option LatLng;
  address : option string;
  photos : option (list photo);
  type : option string;
  icon : option string;
  url : option string;
  website : option string;
  websiteDomain : option string;
  phoneNumber : option string;
  openingHours : option (list day_hours);
  stars : rated;
  numReviews : option number;
  priceLevel : option number;
  dollarSigns : option (list number);
  reviews : option (list rated);
}.

Definition set_fetchedFields (v : gset string) (p : place) : place :=
  mkPlace (placeId p) v (name p) (coords p) (address p) (photos p) (type p)
    (icon p) (url p) (website p) (websiteDomain p) (phoneNumber p)
    (openingHours p) (stars p) (numReviews p) (priceLevel p) (dollarSigns p)
    (reviews p).

Definition set_name (v : option string) (p : place) : place :=
  mkPlace (placeId p) (fetchedFields p) v (coords p) (address p) (photos p)
    (type p) (icon p) (url p) (website p) (websiteDomain p) (phoneNumber p)
    (openingHours p) (stars p) (numReviews p) (priceLevel p) (dollarSigns p)
    (reviews p).

Definition set_coords (v : option LatLng) (p : place) : place :=
  mkPlace (placeId p) (fetchedFields p) (name p) v (address p) (photos p)
    (type p) (icon p) (url p) (website p) (websiteDomain p) (phoneNumber p)
    (openingHours p) (stars p) (numReviews p) (priceLevel p) (dollarSigns p)
    (reviews p).

Definition set_address (v : option string) (p : place) : place :=
  mkPlace (placeId p) (fetchedFields p) (name p) (coords p) v (photos p)
    (type p) (icon p) (url p) (website p) (websiteDomain p) (phoneNumber p)
    (openingHours p) (stars p) (numReviews p) (priceLevel p) (dollarSigns p)
    (reviews p).

Definition set_photos (v : option (list photo)) (p : place) : place :=
  mkPlace (placeId p) (fetchedFields p) (name p) (coords p) (address p) v
    (type p) (icon p) (url p) (website p) (websiteDomain p) (phoneNumber p)
    (openingHours p) (stars p) (numReviews p) (priceLevel p) (dollarSigns p)
    (reviews p).

Definition set_type (v : option string) (p : place) : place :=
  mkPlace (placeId p) (fetchedFields p) (name p) (coords p) (address p)
    (photos p) v (icon p) (url p) (website p) (websiteDomain p)
    (phoneNumber p) (openingHours p) (stars p) (numReviews p) (priceLevel p)
    (dollarSigns p) (reviews p).

Definition set_icon (v : option string) (p : place) : place :=
  mkPlace (placeId p) (fetchedFields p) (name p) (coords p) (address p)
    (photos p) (type p) v (url p) (website p) (websiteDomain p)
    (phoneNumber p) (openingHours p) (stars p) (numReviews p) (priceLevel p)
    (dollarSigns p) (reviews p).

Definition set_url (v : option string) (p : place) : place :=
  mkPlace (placeId p) (fetchedFields p) (name p) (coords p) (address p)
    (photos p) (type p) (icon p) v (website p) (websiteDomain p)
    (phoneNumber p) (openingHours p) (stars p) (numReviews p) (priceLevel p)
    (dollarSigns p) (reviews p).

Definition set_website (v : option string) (p : place) : place :=
  mkPlace (placeId p) (fetchedFields p) (name p) (coords p) (address p)
    (photos p) (type p) (icon p) (url p) v (websiteDomain p) (phoneNumber p)
    (openingHours p) (stars p) (numReviews p) (priceLevel p) (dollarSigns p)
    (reviews p).

Definition set_websiteDomain (v : option string) (p : place) : place :=
  mkPlace (placeId p) (fetchedFields p) (name p) (coords p) (address p)
    (photos p) (type p) (icon p) (url p) (website p) v (phoneNumber p)
    (openingHours p) (stars p) (numReviews p) (priceLevel p) (dollarSigns p)
    (reviews p).

Definition set_phoneNumber (v : option string) (p : place) : place :=
  mkPlace (placeId p) (fetchedFields p) (name p) (coords p) (address p)
    (photos p) (type p) (icon p) (url p) (website p) (websiteDomain p) v
    (openingHours p) (stars p) (numReviews p) (priceLevel p) (dollarSigns p)
    (reviews p).

Definition set_openingHours (v : option (list day_hours)) (p : place) : place :=
  mkPlace (placeId p) (fetchedFields p) (name p) (coords p) (address p)
    (photos p) (type p) (icon p) (url p) (website p) (websiteDomain p)
    (phoneNumber p) v (stars p) (numReviews p) (priceLevel p)
    (dollarSigns p) (reviews p).

Definition set_stars (v : rated) (p : place) : place :=
  mkPlace (placeId p) (fetchedFields p) (name p) (coords p) (address p)
    (photos p) (type p) (icon p) (url p) (website p) (websiteDomain p)
    (phoneNumber p) (openingHours p) v (numReviews p) (priceLevel p)
    (dollarSigns p) (reviews p).

Definition set_numReviews (v : option number) (p : place) : place :=
  mkPlace (placeId p) (fetchedFields p) (name p) (coords p) (address p)
    (photos p) (type p) (icon p) (url p) (website p) (websiteDomain p)
    (phoneNumber p) (openingHours p) (stars p) v (priceLevel p)
    (dollarSigns p) (reviews p).

Definition set_priceLevel (v : option number) (p : place) : place :=
  mkPlace (placeId p) (fetchedFields p) (name p) (coords p) (address p)
    (photos p) (type p) (icon p) (url p) (website p) (websiteDomain p)
    (phoneNumber p) (openingHours p) (stars p) (numReviews p) v
    (dollarSigns p) (reviews p).

Definition set_dollarSigns (v : option (list number)) (p : place) : place :=
  mkPlace (placeId p) (fetchedFields p) (name p) (coords p) (address p)
    (photos p) (type p) (icon p) (url p) (website p) (websiteDomain p)
    (phoneNumber p) (openingHours p) (stars p) (numReviews p) (priceLevel p)
    v (reviews p).

Definition set_reviews (v : option (list rated)) (p : place) : place :=
  mkPlace (placeId p) (fetchedFields p) (name p) (coords p) (address p)
    (photos p) (type p) (icon p) (url p) (website p) (websiteDomain p)
    (phoneNumber p) (openingHours p) (stars p) (numReviews p) (priceLevel p)
    (dollarSigns p) v.

(** [{placeId: placeId, fetchedFields: new Set(['place_id'])}] *)
Definition new_place (placeId : string) : place :=
  mkPlace placeId {["place_id"]} None None None None None None None None None
    None None (mkRated None None None None) None None None None.

(** A string that is present and not empty. *)
Definition truthy_string (o : option string) : bool :=
  match o with
  | Some (String _ _) => true
  | _ => false
  end.

Definition truthy_number (o : option number) : bool :=
  match o with
  | Some x => truthy x
  | None => false
  end.

(** *** Merging a result into a place *)

(** The place after a run of assignments, or after the assignments made
    before an exception was thrown. *)
Inductive outcome := Done (p : place) | Throw (p : place).

Definition and_then (o : outcome) (f : place -> outcome) : outcome :=
  match o with
  | Done p => f p
  | Throw p => Throw p
  end.

Notation "o >>> f" := (and_then o f) (at level 50, left associativity).

Definition merge_photo (ph : PlacePhoto) : photo :=
  {| urlSmall := getUrl ph 200 200;
     urlLarge := getUrl ph 1200 1200;
     attrs := html_attributions ph |}.

(** [addStarIcons(review)] for each review in turn; [false] when one of the
    calls throws, the reviews before it being already changed. Only the
    rating of a review is read, so the review objects of a result kept in
    the autocomplete cache give the same stars when merged again. *)
Fixpoint addStarIcons_each (reviews : list rated) : list rated * bool :=
  match reviews with
  | [] => ([], true)
  | review :: rest =>
      match addStarIcons review with
      | None => (review :: rest, false)
      | Some review' =>
          let '(rest', ok) := addStarIcons_each rest in (review' :: rest', ok)
      end
  end.

Section Merge.

(** [new URL(s).hostname]; [None] when the constructor throws. *)
Variable url_hostname : string -> option string.

Definition merge_basic (result : PlaceResult) (p : place) : outcome :=
  let p := if truthy_string (r_name result) then set_name (r_name result) p else p in
  let p := match r_geometry result with
           | Some location => set_coords (Some location) p
           | None => p
           end in
  let p := if truthy_string (r_formatted_address result)
           then set_address (r_formatted_address result) p else p in
  let p := match r_photos result with
           | Some phs =>
               set_photos (Some (take ND_NUM_PLACE_PHOTOS_MAX (map merge_photo phs))) p
           | None => p
           end in
  Done p.

Definition merge_types (result : PlaceResult) (p : place) : outcome :=
  match r_types result with
  | None => Done p
  | Some [] => Throw p   (* formatPlaceType(undefined) *)
  | Some (first :: _ as types) =>
      let p := set_type (Some (formatPlaceType first)) p in
      let p := set_icon (ND_MARKER_ICONS_BY_TYPE !! "_default"%string) p in
      match List.find (fun t => bool_decide (is_Some (ND_MARKER_ICONS_BY_TYPE !! t))) types with
      | Some t =>
          Done (set_icon (ND_MARKER_ICONS_BY_TYPE !! t) (set_type (Some (formatPlaceType t)) p))
      | None => Done p
      end
  end.

Definition merge_url (result : PlaceResult) (p : place) : outcome :=
  Done (if truthy_string (r_url result) then set_url (r_url result) p else p).

Definition merge_contact (result : PlaceResult) (p : place) : outcome :=
  let website_done :=
    match r_website result with
    | Some (String _ _ as w) =>
        let p := set_website (Some w) p in
        match url_hostname w with
        | Some domain => Done (set_websiteDomain (Some domain) p)
        | None => Throw p
        end
    | _ => Done p
    end in
  website_done >>> (fun p =>
    let p := if truthy_string (r_formatted_phone_number result)
             then set_phoneNumber (r_formatted_phone_number result) p else p in
    match r_opening_hours result with
    | Some oh =>
        match parseDaysHours oh with
        | Some dh => Done (set_openingHours (Some dh) p)
        | None => Throw p
        end
    | None => Done p
    end).

Definition merge_rating (result : PlaceResult) (p : place) : outcome :=
  if truthy_number (r_rating result) then
    let p := set_stars (mkRated (r_rating result) (fullStarIcons (stars p))
                          (halfStarIcons (stars p)) (emptyStarIcons (stars p))) p in
    match addStarIcons (stars p) with
    | Some s => Done (set_stars s p)
    | None => Throw p
    end
  else Done p.

Definition merge_reviews (result : PlaceResult) (p : place) : outcome :=
  let p := if truthy_number (r_user_ratings_total result)
           then set_numReviews (r_user_ratings_total result) p else p in
  let price_done :=
    match r_price_level result with
    | Some level =>
        if truthy level then
          let p := set_priceLevel (Some level) p in
          match initArray level with
          | Some a => Done (set_dollarSigns (Some a) p)
          | None => Throw p
          end
        else Done p
    | None => Done p
    end in
  price_done >>> (fun p =>
    match r_reviews result with
    | Some rs =>
        let '(rs', ok) := addStarIcons_each rs in
        if ok then Done (set_reviews (Some rs') p) else Throw (set_reviews (Some rs') p)
    | None => Done p
    end).

(** The assignments of [processResult] for a result with status [OK]. *)
Definition merge (result : PlaceResult) (p : place) : outcome :=
  merge_basic result p >>> merge_types result >>> merge_url result
    >>> merge_contact result >>> merge_rating result >>> merge_reviews result.

(** *** Calls, closures and the state of the widget *)

(** [{placeId: placeId, fields: missingFields}] *)
Record request := mkRequest { rq_placeId : string; rq_fields : list string }.

(** What one call of [fetchPlaceDetails] that reaches the service leaves
    behind for its [processResult]: the place it looked up (an entry of the
    cache is never replaced, so its key stands for the object), the request,
    the retry counter and the callback. *)
Record closure := mkClosure {
  cl_place : string;
  cl_request : request;
  retryCount : nat;
  callback : nat;
}.

Definition missingFields (cl : closure) : list string := rq_fields (cl_request cl).

(** The cache, the autocomplete results (absent until the search input is
    initialized), the closures, and the calls made so far: to
    [detailsService.getDetails] (with the closure passed), those not yet
    answered, to [setTimeout] (closure and delay), the timers not yet fired,
    to the callbacks (with the place as it was), and the exceptions that
    left [processResult]. *)
Record state := mkState {
  placeIdsToDetails : gmap string place;
  placeIdsToAutocompleteResults : option (gmap string PlaceResult);
  closures : list closure;
  getDetails_calls : list (request * nat);
  awaiting : gset nat;
  setTimeout_calls : list (nat * number);
  armed : gset nat;
  callback_calls : list (nat * place);
  uncaught : nat;
}.

Definition with_placeIdsToDetails (v : gmap string place) (st : state) : state :=
  mkState v (placeIdsToAutocompleteResults st) (closures st)
    (getDetails_calls st) (awaiting st) (setTimeout_calls st) (armed st)
    (callback_calls st) (uncaught st).

Definition with_closures (v : list closure) (st : state) : state :=
  mkState (placeIdsToDetails st) (placeIdsToAutocompleteResults st) v
    (getDetails_calls st) (awaiting st) (setTimeout_calls st) (armed st)
    (callback_calls st) (uncaught st).

Definition with_getDetails_calls (v : list (request * nat)) (st : state) : state :=
  mkState (placeIdsToDetails st) (placeIdsToAutocompleteResults st)
    (closures st) v (awaiting st) (setTimeout_calls st) (armed st)
    (callback_calls st) (uncaught st).

Definition with_awaiting (v : gset nat) (st : state) : state :=
  mkState (placeIdsToDetails st) (placeIdsToAutocompleteResults st)
    (closures st) (getDetails_calls st) v (setTimeout_calls st) (armed st)
    (callback_calls st) (uncaught st).

Definition with_setTimeout_calls (v : list (nat * number)) (st : state) : state :=
  mkState (placeIdsToDetails st) (placeIdsToAutocompleteResults st)
    (closures st) (getDetails_calls st) (awaiting st) v (armed st)
    (callback_calls st) (uncaught st).

Definition with_armed (v : gset nat) (st : state) : state :=
  mkState (placeIdsToDetails st) (placeIdsToAutocompleteResults st)
    (closures st) (getDetails_calls st) (awaiting st) (setTimeout_calls st)
    v (callback_calls st) (uncaught st).

Definition with_callback_calls (v : list (nat * place)) (st : state) : state :=
  mkState (placeIdsToDetails st) (placeIdsToAutocompleteResults st)
    (closures st) (getDetails_calls st) (awaiting st) (setTimeout_calls st)
    (armed st) v (uncaught st).

Definition with_uncaught (v : nat) (st : state) : state :=
  mkState (placeIdsToDetails st) (placeIdsToAutocompleteResults st)
    (closures st) (getDetails_calls st) (awaiting st) (setTimeout_calls st)
    (armed st) (callback_calls st) v.

(** [initializePlaceDetails]: the configured places enter the cache. *)
Definition initializePlaceDetails (places : list place) : state :=
  mkState
    (foldl (fun m p => <[placeId p := set_fetchedFields {["place_id"]} p]> m) ∅ places)
    None [] [] ∅ [] ∅ [] O.

(** [detailsService.getDetails(request, processResult)] for closure [c]. *)
Definition getDetails (c : nat) (st : state) : state :=
  match closures st !! c with
  | Some cl =>
      with_awaiting ({[length (getDetails_calls st)]} ∪ awaiting st)
        (with_getDetails_calls (getDetails_calls st ++ [(cl_request cl, c)]) st)
  | None => st
  end.

(** [(Math.pow(2, retryCount) + Math.random()) * 500] *)
Definition retry_delay (retryCount : nat) (random : number) : number :=
  mul (add (Math_pow2 retryCount) random) (of_Z 500).

Definition add_fields (fields : list string) (fetched : gset string) : gset string :=
  foldl (fun s field => {[field]} ∪ s) fetched fields.

(** The [processResult] of closure [c]; [random] is what [Math.random()]
    returns if it is called. *)
Definition processResult (c : nat) (result : PlaceResult)
    (status : PlacesServiceStatus) (random : number) (st : state) : state :=
  match closures st !! c with
  | None => st
  | Some cl =>
      if negb (status_eqb status OK) then
        if status_eqb status OVER_QUERY_LIMIT && (retryCount cl <? 5)%nat then
          let delay := retry_delay (retryCount cl) random in
          let st := with_armed ({[length (setTimeout_calls st)]} ∪ armed st)
                      (with_setTimeout_calls (setTimeout_calls st ++ [(c, delay)]) st) in
          with_closures
            (<[c := mkClosure (cl_place cl) (cl_request cl) (S (retryCount cl)) (callback cl)]>
               (closures st)) st
        else st
      else
        match placeIdsToDetails st !! cl_place cl with
        | None => st
        | Some p =>
            match merge result p with
            | Throw p' =>
                with_uncaught (S (uncaught st))
                  (with_placeIdsToDetails (<[cl_place cl := p']> (placeIdsToDetails st)) st)
            | Done p' =>
                let p'' := set_fetchedFields
                             (add_fields (missingFields cl) (fetchedFields p')) p' in
                with_callback_calls (callback_calls st ++ [(callback cl, p'')])
                  (with_placeIdsToDetails (<[cl_place cl := p'']> (placeIdsToDetails st)) st)
            end
        end
  end.

(** [widget.fetchPlaceDetails(placeId, fields, callback)]; [fields] is
    [None] for [undefined]. *)
Definition fetchPlaceDetails (placeId : string) (fields : option (list string))
    (callback : nat) (st : state) : state :=
  match placeId, fields with
  | EmptyString, _ | _, None => st
  | _, Some fields =>
      let '(place, st) :=
        match placeIdsToDetails st !! placeId with
        | Some place => (place, st)
        | None =>
            let place := new_place placeId in
            (place, with_placeIdsToDetails (<[placeId := place]> (placeIdsToDetails st)) st)
        end in
      let missingFields :=
        List.filter (fun field => negb (bool_decide (field ∈ fetchedFields place))) fields in
      if (length missingFields =? 0)%nat then
        with_callback_calls (callback_calls st ++ [(callback, place)]) st
      else
        let request := mkRequest placeId missingFields in
        let c := length (closures st) in
        let st := with_closures (closures st ++ [mkClosure placeId request O callback]) st in
        match
          match placeIdsToAutocompleteResults st with
          | Some results => results !! placeId
          | None => None
          end
        with
        | Some autoCompleteResult => processResult c autoCompleteResult OK zero st
        | None => getDetails c st
        end
  end.

(** *** Events *)

(** What happens to the widget: a call of [fetchPlaceDetails]; the service
    answering its [i]-th [getDetails] call (the result is read only when the
    status is [OK]); the [j]-th timer firing. *)
Inductive event :=
  | Call (placeId : string) (fields : option (list string)) (callback : nat)
  | Reply (i : nat) (result : PlaceResult) (status : PlacesServiceStatus)
          (random : number)
  | TimerFires (j : nat).

Definition step (st : state) (ev : event) : state :=
  match ev with
  | Call placeId fields callback => fetchPlaceDetails placeId fields callback st
  | Reply i result status random =>
      if bool_decide (i ∈ awaiting st) then
        match getDetails_calls st !! i with
        | Some (_, c) =>
            processResult c result status random
              (with_awaiting (awaiting st ∖ {[i]}) st)
        | None => st
        end
      else st
  | TimerFires j =>
      if bool_decide (j ∈ armed st) then
        match setTimeout_calls st !! j with
        | Some (c, _) => getDetails c (with_armed (armed st ∖ {[j]}) st)
        | None => st
        end
      else st
  end.

Definition run (st : state) (evs : list event) : state := foldl step st evs.

End Merge.

(** *** Vocabulary of the statements *)

Local Close Scope Z_scope.

(** The fetched-fields set of a place: that of its cache entry, or the set
    a new entry starts with. *)
Definition fetched_of (st : state) (placeId : string) : gset string :=
  match placeIdsToDetails st !! placeId with
  | Some p => fetchedFields p
  | None => {["place_id"]}
  end.

(** The requested fields that are not fetched. *)
Definition missing_of (st : state) (placeId : string) (fields : list string)
  : list string :=
  List.filter (fun field => negb (bool_decide (field ∈ fetched_of st placeId))) fields.

Definition autocomplete_result (st : state) (placeId : string) : option PlaceResult :=
  match placeIdsToAutocompleteResults st with
  | Some results => results !! placeId
  | None => None
  end.

Definition outcome_place (o : outcome) : place :=
  match o with Done p | Throw p => p end.

(** No assignment of a step of [merge] touches the set of fetched fields. *)
Definition keeps (f : place -> outcome) : Prop :=
  forall p, fetchedFields (outcome_place (f p)) = fetchedFields p.

(** Every place of [st] is still cached in [st'], with at least the
    fields it had fetched. *)
Definition fetched_grows (st st' : state) : Prop :=
  forall id p, placeIdsToDetails st !! id = Some p ->
    exists p', placeIdsToDetails st' !! id = Some p'
               /\ fetchedFields p ⊆ fetchedFields p'.

(** Only calls made await an answer, only timers set are armed. *)
Definition wf (st : state) : Prop :=
  (forall i, i ∈ awaiting st -> (i < length (getDetails_calls st))%nat)
  /\ (forall j, j ∈ armed st -> (j < length (setTimeout_calls st))%nat).



(** "A field, once fetched, is never requested again", over the states the
    widget can reach. *)
Definition never_requested_again : Prop :=
  forall url_hostname places evs ev new,
    let st := run url_hostname (initializePlaceDetails places) evs in
    getDetails_calls (step url_hostname st ev) = getDetails_calls st ++ new ->
    forall r c field, In (r, c) new -> In field (rq_fields r) ->
      field ∉ fetched_of st (rq_placeId r).

(** *** Sample data *)

Definition no_hostname : string -> option string := fun _ => None.

(** A result that carries a name only. *)
Definition named (n : string) : PlaceResult :=
  {| r_name := Some n; r_geometry := None; r_formatted_address := None;
     r_photos := None; r_types := None; r_url := None; r_website := None;
     r_formatted_phone_number := None; r_opening_hours := None; r_rating := None;
     r_user_ratings_total := None; r_price_level := None; r_reviews := None |}.

(** Two calls for the name of one place before either is answered; the
    first succeeds, the second is rate limited. *)
Definition overlapping_calls : list event :=
  [ Call "clinic" (Some ["name"%string]) 0;
    Call "clinic" (Some ["name"%string]) 1;
    Reply 0 (named "Clinic") OK zero;
    Reply 1 (named "Clinic") OVER_QUERY_LIMIT zero ].

(** The name of a place has been fetched. *)
Definition name_fetched : state :=
  run no_hostname (initializePlaceDetails [])
    [ Call "clinic" (Some ["name"%string]) 0; Reply 0 (named "Clinic") OK zero ].

End Widget.

(** ** The BMI calculator *)

Module Bmi.

Import Num.

(** The values of the form fields, the content of the two result elements
    and the alerts shown so far. *)
Record page := mkPage {
  age : string;
  gender : string;
  height : string;
  weight : string;
  result : string;            (* innerHTML of #result *)
  result_category : string;   (* innerHTML of #result-category *)
  alerts : list string;
}.

Definition c18_5 : number := of_decimal false 185 (-1).
Definition c24_9 : number := of_decimal false 249 (-1).
Definition c25 : number := of_Z 25.
Definition c29_9 : number := of_decimal false 299 (-1).

(** The chain of comparisons, the same for both genders. *)
Definition classify (bmi : number) : string :=
  if ltb bmi c18_5 then "Underweight"
  else if leb c18_5 bmi && ltb bmi c24_9 then "Normal weight"
  else if leb c25 bmi && ltb bmi c29_9 then "Overweight"
  else "Obese".

(** [var category]: assigned only for the two genders. *)
Definition category_of (gender : string) (bmi : number) : option string :=
  if String.eqb gender "male" then Some (classify bmi)
  else if String.eqb gender "female" then Some (classify bmi)
  else None.

Definition bmi_of (height weight : number) : number :=
  let heightInMeters := div height (of_Z 100) in
  div weight (mul heightInMeters heightInMeters).

(** ["BMI Category: " + category] *)
Definition category_text (category : option string) : string :=
  "BMI Category: " +:+ match category with
                       | Some c => c
                       | None => "undefined"
                       end.

(** [calculateBMI(event)]; the parsed age is not used. *)
Definition calculateBMI (pg : page) : page :=
  let height_n := parseFloat (height pg) in
  let weight_n := parseFloat (weight pg) in
  if isNaN height_n || isNaN weight_n
     || leb height_n (S754_zero false) || leb weight_n (S754_zero false)
  then
    mkPage (age pg) (gender pg) (height pg) (weight pg) (result pg)
      (result_category pg) (alerts pg ++ ["Please enter valid height and weight."%string])
  else
    let bmi := bmi_of height_n weight_n in
    mkPage (age pg) (gender pg) (height pg) (weight pg)
      ("Your BMI is: " +:+ toFixed bmi 2)
      (category_text (category_of (gender pg) bmi))
      (alerts pg).

End Bmi.

(** ** The opening hours, run by run *)

Module Hours.

Import Helpers.

(** The label of a run when one more day joins it, as the loop of
    [parseDaysHours] writes it. *)
Definition extend_label (prev cur : string) : string :=
  if Str.contains "-" prev then Str.replace_trailing_word prev cur
  else prev +:+ " - " +:+ cur.

(** The loop as a pass from left to right: [cur] is the element the next
    one is compared with. *)
Fixpoint merge_runs (cur : day_hours) (rest : list day_hours) : list day_hours :=
  match rest with
  | [] => [cur]
  | next :: rest' =>
      if hours_eqb (hours cur) (hours next)
      then merge_runs (mkDayHours (extend_label (days cur) (days next)) (hours cur)) rest'
      else cur :: merge_runs next rest'
  end.

(** A list of hours without the elements that repeat the one before. *)
Fixpoint drop_repeats (h : option string) (rest : list (option string))
  : list (option string) :=
  match rest with
  | [] => [h]
  | h' :: rest' =>
      if hours_eqb h h' then drop_repeats h rest' else h :: drop_repeats h' rest'
  end.

(** A day label that is not empty and made of word characters only. *)
Definition plain (s : string) : bool :=
  negb (String.eqb s EmptyString) && forallb Str.is_word (list_ascii_of_string s).

Definition plain_last (last : option string) : Prop :=
  match last with
  | Some l => plain l = true
  | None => True
  end.

(** The label of the days from [first] to [last]. *)
Definition range (first : string) (last : option string) : string :=
  match last with
  | Some l => first +:+ " - " +:+ l
  | None => first
  end.

(** The runs of equal hours, each labelled by its first and last day. *)
Fixpoint group_runs (first : string) (last : option string) (h : option string)
    (rest : list day_hours) : list day_hours :=
  match rest with
  | [] => [mkDayHours (range first last) h]
  | next :: rest' =>
      if hours_eqb h (hours next)
      then group_runs first (Some (days next)) h rest'
      else mkDayHours (range first last) h
           :: group_runs (days next) None (hours next) rest'
  end.

Definition grouped (daysHours : list day_hours) : list day_hours :=
  match daysHours with
  | [] => []
  | d :: rest => group_runs (days d) None (hours d) rest
  end.

End Hours.

(** ** The runs of the fetcher *)

Module Calls.

Import Num Helpers Widget.

Local Close Scope Z_scope.

Definition is_call (ev : event) : bool :=
  match ev with
  | Call _ _ _ => true
  | _ => false
  end.

(** How many calls of [fetchPlaceDetails] a run makes. *)
Definition calls_made (evs : list event) : nat := length (List.filter is_call evs).

(** What the calls made so far have led to: callbacks called, requests
    not yet answered, timers not yet fired, exceptions. *)
Definition accounted (st : state) : nat :=
  length (callback_calls st) + size (awaiting st) + size (armed st) + uncaught st.

(** The requests sent to the service for closure [c]. *)
Definition requests_of (c : nat) (st : state) : nat :=
  length (List.filter (fun call : request * nat => snd call =? c) (getDetails_calls st)).

(** The timers set for closure [c]. *)
Definition timers_of (c : nat) (st : state) : nat :=
  length (List.filter (fun timer : nat * number => fst timer =? c) (setTimeout_calls st)).

(** Whether the [j]-th timer is armed and set for closure [c]. *)
Definition armed_for (c : nat) (st : state) (j : nat) : bool :=
  bool_decide (j ∈ armed st)
  && match setTimeout_calls st !! j with
     | Some timer => fst timer =? c
     | None => false
     end.

(** The timers set for closure [c] that have not fired. *)
Definition armed_of (c : nat) (st : state) : nat :=
  length (List.filter (armed_for c st) (seq 0 (length (setTimeout_calls st)))).

(** The retries of closure [c] are counted by its [retryCount], which
    stays at most 5, and each request for it but the first follows a timer
    that fired. *)
Definition retries_counted (st : state) : Prop :=
  forall c,
    timers_of c st = match closures st !! c with Some cl => retryCount cl | None => 0 end
    /\ match closures st !! c with Some cl => retryCount cl <= 5 | None => True end
    /\ requests_of c st + armed_of c st
       <= (if c <? length (closures st) then 1 else 0) + timers_of c st.

(** How many entries of a log are marked, by their index being in [X], and
    are about closure [c], as [about] tells. *)
Definition marked {A} (X : gset nat) (log : list A) (about : A -> bool) : nat :=
  length
    (List.filter
       (fun j => bool_decide (j ∈ X)
                 && match log !! j with Some a => about a | None => false end)
       (seq 0 (length log))).

(** The requests for closure [c] that await their answer. *)
Definition awaited_of (c : nat) (st : state) : nat :=
  marked (awaiting st) (getDetails_calls st) (fun call => snd call =? c).

(** What closure [c] has in flight: requests awaiting an answer and timers
    armed. *)
Definition in_flight (c : nat) (st : state) : nat := awaited_of c st + armed_of c st.

(** A call has one request or timer in flight at most, and none before it
    is made. *)
Definition one_in_flight (st : state) : Prop :=
  forall c, in_flight c st <= (if c <? length (closures st) then 1 else 0).

(** *** What a callback is owed *)

(** Whether closure [c] was made with callback [h]. *)
Definition calls_back (h c : nat) (st : state) : bool :=
  match closures st !! c with
  | Some cl => callback cl =? h
  | None => false
  end.

(** How often callback [h] has been called. *)
Definition called (h : nat) (st : state) : nat :=
  length (List.filter (fun call : nat * place => fst call =? h) (callback_calls st)).

(** The requests awaiting an answer, and the timers armed, of the closures
    made with callback [h]. *)
Definition awaited_by (h : nat) (st : state) : nat :=
  marked (awaiting st) (getDetails_calls st) (fun call => calls_back h (snd call) st).

Definition armed_by (h : nat) (st : state) : nat :=
  marked (armed st) (setTimeout_calls st) (fun timer => calls_back h (fst timer) st).

(** What callback [h] has been called for, or may still be. *)
Definition owed (h : nat) (st : state) : nat :=
  called h st + awaited_by h st + armed_by h st.

Definition passes (h : nat) (ev : event) : bool :=
  match ev with
  | Call _ _ cb => cb =? h
  | _ => false
  end.

(** How often a run passes callback [h] to [fetchPlaceDetails]. *)
Definition passed (h : nat) (evs : list event) : nat :=
  length (List.filter (passes h) evs).

(** The requests and the timers name closures that were made. *)
Definition closures_known (st : state) : Prop :=
  (forall i call, getDetails_calls st !! i = Some call ->
     snd call < length (closures st))
  /\ (forall j timer, setTimeout_calls st !! j = Some timer ->
        fst timer < length (closures st)).

(** The cache and the closures fit together: a place is kept under its own
    identifier, the request of a closure names the place of the closure,
    which is cached, and a service call carries the request of its
    closure. *)
Definition coherent (st : state) : Prop :=
  (forall id p, placeIdsToDetails st !! id = Some p -> placeId p = id)
  /\ (forall c cl, closures st !! c = Some cl ->
        rq_placeId (cl_request cl) = cl_place cl
        /\ is_Some (placeIdsToDetails st !! cl_place cl))
  /\ (forall i rq c, getDetails_calls st !! i = Some (rq, c) ->
        exists cl, closures st !! c = Some cl /\ cl_request cl = rq).

(** No assignment of a step of [merge] touches the identifier, and none
    after the first touches the name. *)
Definition keeps_placeId (f : place -> outcome) : Prop :=
  forall p, placeId (outcome_place (f p)) = placeId p.

Definition keeps_name (f : place -> outcome) : Prop :=
  forall p, name (outcome_place (f p)) = name p.

(** What event [ev], met in state [st], asked for, as seen by the callback
    [cb] that is handed place [p]: the place of the call with the fields of
    the call fetched, or the place of the request answered with the fields
    of the request fetched. *)
Definition asked_for (st : state) (ev : event) (cb : nat) (p : place) : Prop :=
  match ev with
  | Call id (Some fields) cb' =>
      cb = cb' /\ placeId p = id /\ forall f, In f fields -> f ∈ fetchedFields p
  | Reply i _ status _ =>
      status = OK
      /\ exists rq c cl,
           getDetails_calls st !! i = Some (rq, c) /\ closures st !! c = Some cl
           /\ cb = callback cl /\ placeId p = rq_placeId rq
           /\ forall f, In f (rq_fields rq) -> f ∈ fetchedFields p
  | _ => False
  end.

(** A result that makes [processResult] throw, whatever the place: its list
    of types is empty ([formatPlaceType(undefined)]), its website is not a
    URL, or its opening hours come without the weekday text. *)
Definition malformed (url_hostname : string -> option string) (result : PlaceResult)
  : Prop :=
  r_types result = Some []
  \/ (exists w, r_website result = Some w /\ w <> EmptyString /\ url_hostname w = None)
  \/ (exists oh, r_opening_hours result = Some oh /\ weekday_text oh = None).

(** A result with a name and an empty list of types. *)
Definition untyped (n : string) : PlaceResult :=
  {| r_name := Some n; r_geometry := None; r_formatted_address := None;
     r_photos := None; r_types := Some []; r_url := None; r_website := None;
     r_formatted_phone_number := None; r_opening_hours := None; r_rating := None;
     r_user_ratings_total := None; r_price_level := None; r_reviews := None |}.

End Calls.

(** ** The selection of a place *)

Module Panel.

Import Num Helpers Widget.

Local Close Scope Z_scope.

(** The fields [selectPlaceById] asks for. *)
Definition details_fields : list string :=
  [ "name"; "types"; "geometry.location"; "formatted_address"; "photo"; "url";
    "website"; "formatted_phone_number"; "opening_hours";
    "rating"; "user_ratings_total"; "price_level"; "review" ]%string.

(** The fields [showNextPlaces] asks for. *)
Definition list_fields : list string :=
  [ "name"; "types"; "geometry.location";
    "photo";
    "rating"; "user_ratings_total"; "price_level" ]%string.

(** What the selection of a place reads and writes: the fetcher, the
    variable [selectedPlaceId] ([None] for [undefined]), the [processResult]
    callbacks made so far, each with its [panToMarker] (a callback is passed
    to the fetcher by its number), and the text of the search input. *)
Record panel := mkPanel {
  fetcher : state;
  selectedPlaceId : option string;
  processResults : list bool;
  searchInput : string;
}.

Definition with_fetcher (v : state) (pn : panel) : panel :=
  mkPanel v (selectedPlaceId pn) (processResults pn) (searchInput pn).

Definition with_placeIdsToAutocompleteResults (v : option (gmap string PlaceResult))
    (st : state) : state :=
  mkState (placeIdsToDetails st) v (closures st) (getDetails_calls st) (awaiting st)
    (setTimeout_calls st) (armed st) (callback_calls st) (uncaught st).

Section Selection.

Variable url_hostname : string -> option string.

(** [widget.selectPlaceById(placeId, panToMarker)]; [placeId] is [None] for
    [undefined], with which [fetchPlaceDetails] returns at once. *)
Definition selectPlaceById (placeId : option string) (panToMarker : bool)
    (pn : panel) : panel :=
  if bool_decide (selectedPlaceId pn = placeId) then pn
  else
    let processResult := length (processResults pn) in
    let pn := mkPanel (fetcher pn) placeId (processResults pn ++ [panToMarker])
                (searchInput pn) in
    match placeId with
    | Some id =>
        with_fetcher
          (fetchPlaceDetails url_hostname id (Some details_fields) processResult
             (fetcher pn)) pn
    | None => pn
    end.

(** [initializeSearchInput], as far as the selection goes. *)
Definition initializeSearchInput (pn : panel) : panel :=
  with_fetcher (with_placeIdsToAutocompleteResults (Some ∅) (fetcher pn)) pn.

(** The listener of [place_changed], for the place [getPlace()] returns
    and its [place_id]. An entry under [undefined] is never looked up, since
    [fetchPlaceDetails] returns before for such an identifier, and is not
    kept here. The search input is cleared unless [selectPlaceById] threw. *)
Definition place_changed (place_id : option string) (place : PlaceResult)
    (pn : panel) : panel :=
  match placeIdsToAutocompleteResults (fetcher pn) with
  | None => pn
  | Some results =>
      let results :=
        match place_id with
        | Some id => <[id := place]> results
        | None => results
        end in
      let pn := with_fetcher
                  (with_placeIdsToAutocompleteResults (Some results) (fetcher pn)) pn in
      let pn' := selectPlaceById place_id true pn in
      if uncaught (fetcher pn') =? uncaught (fetcher pn)
      then mkPanel (fetcher pn') (selectedPlaceId pn') (processResults pn') EmptyString
      else pn'
  end.




End Selection.


(** The panel of a widget without places whose search input holds a
    query, and the fetcher once the list has shown a place. *)
Definition searching : panel :=
  initializeSearchInput (mkPanel (initializePlaceDetails []) None [] "clinic").

Definition listed : state :=
  run no_hostname (initializePlaceDetails [])
    [ Call "clinic" (Some list_fields) 0; Reply 0 (named "Clinic") OK Helpers.zero ].

End Panel.

(** ** The geolocation page *)

Module Geo.

Import Num.

(** A [GeolocationPositionError] as [showErr] reads it: its code and the
    four constants the function compares it with, each [None] when the
    object has no such property. *)
Record PositionError := {
  code : option number;
  PERMISSION_DENIED : option number;
  POSITION_UNAVAILABLE : option number;
  TIMEOUT : option number;
  UNKNOWN_ERROR : option number;
}.

(** [===] on values that are numbers or [undefined]. *)
Definition strict_eq (a b : option number) : bool :=
  match a, b with
  | Some x, Some y => eqb x y
  | None, None => true
  | _, _ => false
  end.

(** [showErr(error)]: the alerts after the call. *)
Definition showErr (error : PositionError) (alerts : list string) : list string :=
  if strict_eq (code error) (PERMISSION_DENIED error)
  then alerts ++ ["User denied the request for Geolocation API."%string]
  else if strict_eq (code error) (POSITION_UNAVAILABLE error)
  then alerts ++ ["USer location information is unavailable."%string]
  else if strict_eq (code error) (TIMEOUT error)
  then alerts ++ ["The request to get user location timed out."%string]
  else if strict_eq (code error) (UNKNOWN_ERROR error)
  then alerts ++ ["An unknown error occurred."%string]
  else alerts.

(** The error object of the Geolocation interface: three constants, and
    none named [UNKNOWN_ERROR]. *)
Definition standard (error : PositionError) : Prop :=
  PERMISSION_DENIED error = Some (of_Z 1)
  /\ POSITION_UNAVAILABLE error = Some (of_Z 2)
  /\ TIMEOUT error = Some (of_Z 3)
  /\ UNKNOWN_ERROR error = None.

(** The request timed out. *)
Definition timed_out : PositionError :=
  {| code := Some (of_Z 3); PERMISSION_DENIED := Some (of_Z 1);
     POSITION_UNAVAILABLE := Some (of_Z 2); TIMEOUT := Some (of_Z 3);
     UNKNOWN_ERROR := None |}.

End Geo.

(** ** The sign-up link *)

Module SignUp.

(** The text content of the elements of the document, by [id]. *)
Abbreviation document := (gmap string string).

(** The document after a run of assignments, or after the assignments made
    before [getElementById] returned [null] and the assignment threw. *)
Inductive outcome := Done (doc : document) | Throw (doc : document).


Definition and_then (o : outcome) (f : document -> outcome) : outcome :=
  match o with
  | Done doc => f doc
  | Throw doc => Throw doc
  end.


(** The texts of the link, in the order they are written. *)
Definition texts : list (string * string) :=
  [ ("id1", "Sign-up"); ("id2", "Sign-up"); ("id3", "Sign-up with Google");
    ("id4", "Register for a NEW Experience");
    ("id5", "Join us for exciting offers.") ]%string.




End SignUp.

(** * Facts about numbers *)

Section NumberFacts.

Import Num Helpers.

(** ** The order *)

Lemma SFcompare_swap x y :
  SFcompare y x = option_map CompOpp (SFcompare x y).
Proof.
  destruct x as [[]|[]| |[] mx ex], y as [[]|[]| |[] my ey]; simpl;
    try reflexivity;
    rewrite (Z.compare_antisym ey ex);
    destruct (ey ?= ex) eqn:E; simpl; try reflexivity;
    rewrite (Pos.compare_cont_antisym mx my Eq); simpl;
    try rewrite CompOpp_involutive; reflexivity.
Qed.

Lemma leb_not_ltb x y : leb x y = true -> ltb y x = false.
Proof.
  unfold leb, ltb, SFleb, SFltb. rewrite (SFcompare_swap x y).
  destruct (SFcompare x y) as [[]|]; simpl; congruence.
Qed.

Lemma ltb_not_leb x y : ltb x y = true -> leb y x = false.
Proof.
  unfold leb, ltb, SFleb, SFltb. rewrite (SFcompare_swap x y).
  destruct (SFcompare x y) as [[]|]; simpl; congruence.
Qed.

Lemma leb_pos_finite m1 e1 m2 e2 :
  leb (S754_finite false m1 e1) (S754_finite false m2 e2) = true
  <-> e1 < e2 \/ (e1 = e2 /\ Zpos m1 <= Zpos m2).
Proof.
  unfold leb, SFleb, SFcompare. rewrite Pos.compare_cont_spec. unfold Pos.switch_Eq.
  destruct (Z.compare_spec e1 e2); destruct (Pos.compare_spec m1 m2);
    split; intros; try reflexivity; try discriminate; try lia.
Qed.

Lemma ltb_pos_finite m1 e1 m2 e2 :
  ltb (S754_finite false m1 e1) (S754_finite false m2 e2) = true
  <-> e1 < e2 \/ (e1 = e2 /\ Zpos m1 < Zpos m2).
Proof.
  unfold ltb, SFltb, SFcompare. rewrite Pos.compare_cont_spec. unfold Pos.switch_Eq.
  destruct (Z.compare_spec e1 e2); destruct (Pos.compare_spec m1 m2);
    split; intros; try reflexivity; try discriminate; try lia.
Qed.

(** ** Rounding

    [binary_round_aux] shifts the mantissa to the exponent of the binade,
    rounds the bits shifted out to nearest-even, and shifts once more when
    the rounding carries. *)

Lemma digits2_pos_bounds p :
  2 ^ (Zpos (digits2_pos p) - 1) <= Zpos p < 2 ^ Zpos (digits2_pos p).
Proof.
  induction p as [p IH|p IH|]; cbn [digits2_pos]; [| |simpl; lia].
  all: rewrite Pos2Z.inj_succ; set (d := Zpos (digits2_pos p)) in *;
    assert (2 ^ d = 2 * 2 ^ (d - 1)) as Hd
      by (rewrite <- Z.pow_succ_r by lia; f_equal; lia);
    replace (Z.succ d - 1) with d by lia;
    rewrite Z.pow_succ_r by lia; rewrite Hd in *; lia.
Qed.

(** The number of binary digits is determined by the binade. *)
Lemma digits2_pos_unique p k :
  2 ^ (k - 1) <= Zpos p < 2 ^ k -> Zpos (digits2_pos p) = k.
Proof.
  intros [Hlo Hhi]. pose proof (digits2_pos_bounds p) as [Dlo Dhi].
  set (d := Zpos (digits2_pos p)) in *.
  assert (0 < k) as Hk.
  { destruct (Z.lt_trichotomy k 0) as [Hk|[->|Hk]]; [|simpl in Hhi; lia|done].
    rewrite (Z.pow_neg_r 2 k) in Hhi by done. lia. }
  destruct (Z.lt_trichotomy d k) as [Hlt|[Heq|Hgt]]; [|done|].
  - assert (2 ^ d <= 2 ^ (k - 1)) by (apply Z.pow_le_mono_r; lia). lia.
  - assert (2 ^ k <= 2 ^ (d - 1)) by (apply Z.pow_le_mono_r; lia). lia.
Qed.

Lemma shr_1_spec rec :
  0 <= shr_m rec ->
  shr_m (shr_1 rec) = shr_m rec / 2 /\ shr_r (shr_1 rec) = Z.odd (shr_m rec).
Proof.
  destruct rec as [m r s]. cbn [shr_m]. intros Hm.
  destruct m as [|[p|p|]|p]; try lia; cbn [shr_1 shr_m shr_r].
  - split; reflexivity.
  - split; [|reflexivity]. rewrite Pos2Z.inj_xI. apply (Z.div_unique _ _ _ 1); lia.
  - split; [|reflexivity]. rewrite Pos2Z.inj_xO. apply (Z.div_unique _ _ _ 0); lia.
  - split; reflexivity.
Qed.

Lemma shr_iter_spec p : forall rec,
  0 <= shr_m rec ->
  shr_m (SpecFloat.iter_pos shr_1 p rec) = shr_m rec / 2 ^ Zpos p
  /\ shr_r (SpecFloat.iter_pos shr_1 p rec) = Z.testbit (shr_m rec) (Zpos p - 1).
Proof.
  induction p as [p IH|p IH|]; intros rec Hm; cbn [SpecFloat.iter_pos].
  - destruct (shr_1_spec rec Hm) as [S1 _].
    assert (0 <= shr_m (shr_1 rec)) as H1 by (rewrite S1; apply Z.div_pos; lia).
    destruct (IH _ H1) as [E1 _].
    assert (0 <= shr_m (SpecFloat.iter_pos shr_1 p (shr_1 rec))) as H2
      by (rewrite E1; apply Z.div_pos; lia).
    destruct (IH _ H2) as [E3 E4]. rewrite E3, E4, E1, S1. split.
    + rewrite !Z.div_div by lia. f_equal.
      replace (Z.pos p~1) with (1 + Zpos p + Zpos p) by lia.
      rewrite !Z.pow_add_r by lia. change (2 ^ 1) with 2. ring.
    + replace (shr_m rec / 2 / 2 ^ Z.pos p) with (shr_m rec / 2 ^ (1 + Zpos p)).
      * rewrite Z.div_pow2_bits by lia. f_equal. lia.
      * rewrite Z.pow_add_r by lia. change (2 ^ 1) with 2. rewrite Z.div_div by lia. reflexivity.
  - destruct (IH _ Hm) as [E1 _].
    assert (0 <= shr_m (SpecFloat.iter_pos shr_1 p rec)) as H2
      by (rewrite E1; apply Z.div_pos; lia).
    destruct (IH _ H2) as [E3 E4]. rewrite E3, E4, E1. split.
    + rewrite Z.div_div by lia. f_equal.
      replace (Z.pos p~0) with (Zpos p + Zpos p) by lia.
      rewrite Z.pow_add_r by lia. reflexivity.
    + rewrite Z.div_pow2_bits by lia. f_equal. lia.
  - destruct (shr_1_spec rec Hm) as [E1 E2]. rewrite E1, E2. split.
    + reflexivity.
    + symmetry. apply Z.bit0_odd.
Qed.

Lemma round_after_shift p M :
  0 <= M ->
  let rec := SpecFloat.iter_pos shr_1 p (Build_shr_record M false false) in
  let q := round_nearest_even (shr_m rec) (loc_of_shr_record rec) in
  q = M / 2 ^ Zpos p \/ (q = M / 2 ^ Zpos p + 1 /\ M mod 2 ^ Zpos p <> 0).
Proof.
  intros HM rec q. subst q.
  destruct (shr_iter_spec p (Build_shr_record M false false) HM) as [E1 E2].
  fold rec in E1, E2. cbn [shr_m] in E1, E2.
  destruct rec as [m r s]. cbn [shr_m shr_r] in *. subst m.
  destruct r; [|left; destruct s; reflexivity].
  assert (M mod 2 ^ Z.pos p <> 0) as Hne.
  { intros H0. apply Z.mod_divide in H0; [|lia]. destruct H0 as [k ->].
    rewrite Z.mul_pow2_bits_low in E2 by lia. discriminate. }
  unfold loc_of_shr_record, round_nearest_even.
  destruct s; [right; done|]. destruct (Z.even _); [left|right]; done.
Qed.

Lemma fexp_eq e : fexp prec emax e = Z.max (e - 53) (-1074).
Proof. reflexivity. Qed.

Lemma Zdigits2_unique q k :
  0 < q -> 2 ^ (k - 1) <= q < 2 ^ k -> Zdigits2 q = k.
Proof.
  intros Hq H. destruct q as [|q|q]; try lia. cbn [Zdigits2].
  by apply digits2_pos_unique.
Qed.

Lemma round_aux_spec M E :
  let F := fexp prec emax (Zpos (digits2_pos M) + E) in
  E <= F ->
  exists q,
    (q = Zpos M / 2 ^ (F - E)
     \/ (q = Zpos M / 2 ^ (F - E) + 1 /\ Zpos M mod 2 ^ (F - E) <> 0))
    /\ binary_round_aux prec emax false (Zpos M) E loc_Exact = round_result q F.
Proof.
  intros F HEF. pose proof (digits2_pos_bounds M) as [Dlo Dhi].
  set (d := Zpos (digits2_pos M)) in *.
  assert (0 < d) as Hd by (subst d; lia).
  unfold binary_round_aux, shr_fexp. cbn [Zdigits2 shr_record_of_loc]. fold d. fold F.
  assert (F = Z.max (d + E - 53) (-1074)) as HFdef by reflexivity.
  assert (fexp prec emax (d + E) = F) as HFexp by reflexivity. clearbody F.
  unfold shr at 1.
  destruct (F - E) as [|n|n] eqn:HFE; [| |lia].
  - (* no shift *)
    exists (Zpos M). split; [left; rewrite Z.div_1_r; done|].
    cbn [shr_m loc_of_shr_record round_nearest_even Zdigits2 shr_record_of_loc].
    fold d. rewrite HFexp, HFE. cbn [shr shr_m].
    assert (F = E) as HF by lia.
    assert (d <= 53) as Hd53 by lia.
    assert (Zpos M < 2 ^ 53) as HM53.
    { assert (2 ^ d <= 2 ^ 53) by (apply Z.pow_le_mono_r; lia). lia. }
    unfold round_result. destruct (Z.eqb_spec (Zpos M) (2 ^ 53)) as [Heq|_]; [lia|].
    rewrite HF. reflexivity.
  - (* shift by n *)
    pose proof (round_after_shift n (Zpos M) ltac:(lia)) as Hq. cbv zeta in Hq.
    set (rec := SpecFloat.iter_pos shr_1 n _) in *.
    set (q := round_nearest_even (shr_m rec) (loc_of_shr_record rec)) in *.
    exists q. split; [exact Hq|].
    assert (E + Zpos n = F) as HF by lia. rewrite HF.
    assert (0 <= Zpos M / 2 ^ Zpos n) as Hfl by (apply Z.div_pos; lia).
    assert (0 < 2 ^ Zpos n) as Hpn by lia.
    pose proof (Z.div_mod (Zpos M) (2 ^ Zpos n) ltac:(lia)) as Hdm.
    pose proof (Z.mod_pos_bound (Zpos M) (2 ^ Zpos n) ltac:(lia)) as Hmb.
    set (fl := Zpos M / 2 ^ Zpos n) in *. set (md := Zpos M mod 2 ^ Zpos n) in *.
    assert (0 <= q) as Hq0 by (clearbody fl md q; lia).
    destruct (Z.le_gt_cases (-1074) (d + E - 53)) as [Hnorm|Hsub].
    + (* normal *)
      assert (F = d + E - 53) as HFn by lia.
      assert (Zpos n = d - 53) as Hn by lia.
      assert (2 ^ d = 2 ^ 53 * 2 ^ Zpos n) as Hpd
        by (rewrite <- Z.pow_add_r by lia; f_equal; lia).
      assert (2 ^ (d - 1) = 2 ^ 52 * 2 ^ Zpos n) as Hpd1
        by (rewrite <- Z.pow_add_r by lia; f_equal; lia).
      clearbody fl md q. set (pn := 2 ^ Zpos n) in *. clearbody pn.
      assert (2 ^ 52 <= fl < 2 ^ 53) as Hfb by nia.
      destruct (Z.eqb_spec q (2 ^ 53)) as [Heq|Hne].
      * unfold round_result. rewrite Heq. rewrite Z.eqb_refl.
        replace (fexp prec emax (Zdigits2 (2 ^ 53) + F) - F) with 1
          by (rewrite fexp_eq; change (Zdigits2 (2 ^ 53)) with 54; lia).
        cbn [shr_record_of_loc shr]. reflexivity.
      * assert (Zdigits2 q = 53) as Hdq by (apply Zdigits2_unique; lia).
        rewrite Hdq. replace (fexp prec emax (53 + F) - F) with 0 by (rewrite fexp_eq; lia).
        cbn [shr_record_of_loc shr shr_m].
        unfold round_result. destruct (Z.eqb_spec q (2 ^ 53)); [done|].
        destruct q; try lia; reflexivity.
    + (* subnormal *)
      assert (F = -1074) as HFs by lia.
      assert (d - 53 < Zpos n) as Hn by lia.
      assert (fl < 2 ^ 52) as Hfb.
      { assert (2 ^ d <= 2 ^ (Zpos n + 52)) as Hle by (apply Z.pow_le_mono_r; lia).
        rewrite Z.pow_add_r in Hle by lia.
        clearbody fl md q. set (pn := 2 ^ Zpos n) in *. clearbody pn. nia. }
      clearbody fl md q.
      assert (q <= 2 ^ 52) as Hq52 by lia.
      assert (fexp prec emax (Zdigits2 q + F) - F = 0) as Hsh.
      { rewrite fexp_eq. destruct (Z.eq_dec q 0) as [->|Hq1]; [simpl; lia|].
        assert (Zdigits2 q <= 53); [|lia].
        destruct q as [|q'|q']; try lia. cbn [Zdigits2].
        pose proof (digits2_pos_bounds q') as [Qlo _].
        destruct (Z.le_gt_cases (Zpos (digits2_pos q')) 53) as [|Hgt]; [done|].
        assert (2 ^ 53 <= 2 ^ (Zpos (digits2_pos q') - 1)) by (apply Z.pow_le_mono_r; lia).
        lia. }
      rewrite Hsh. cbn [shr_record_of_loc shr shr_m].
      unfold round_result. destruct (Z.eqb_spec q (2 ^ 53)); [lia|].
      destruct q; try lia; reflexivity.
Qed.

Lemma ofs_pos : 2148 <= ofs.
Proof. unfold ofs. lia. Qed.

Global Opaque ofs.

Lemma bounded_facts m e :
  bounded prec emax m e = true ->
  -1074 <= e <= 971 /\ Zpos m < 2 ^ 53 /\ (-1074 < e -> 2 ^ 52 <= Zpos m).
Proof.
  unfold bounded, canonical_mantissa. rewrite fexp_eq.
  intros [H1 H2]%andb_true_iff. apply Z.eqb_eq in H1. apply Z.leb_le in H2.
  change (emax - prec) with 971 in H2.
  pose proof (digits2_pos_bounds m) as [Dlo Dhi].
  set (d := Zpos (digits2_pos m)) in *. clearbody d.
  split; [lia|]. split.
  - assert (2 ^ d <= 2 ^ 53) by (apply Z.pow_le_mono_r; lia). lia.
  - intros He. assert (d = 53) as -> by lia. exact Dlo.
Qed.

Lemma bounded_intro m e :
  -1074 <= e <= 971 -> Zpos m < 2 ^ 53 -> (-1074 < e -> 2 ^ 52 <= Zpos m) ->
  bounded prec emax m e = true.
Proof.
  intros He Hm Hn. unfold bounded, canonical_mantissa. rewrite fexp_eq.
  apply andb_true_iff. split; [|apply Z.leb_le; change (emax - prec) with 971; lia].
  apply Z.eqb_eq.
  pose proof (digits2_pos_bounds m) as [Dlo Dhi].
  set (d := Zpos (digits2_pos m)) in *.
  assert (0 < d) by (subst d; lia). clearbody d.
  assert (d <= 53).
  { destruct (Z.le_gt_cases d 53); [done|].
    assert (2 ^ 53 <= 2 ^ (d - 1)) by (apply Z.pow_le_mono_r; lia). lia. }
  destruct (Z.eq_dec e (-1074)) as [->|]; [lia|].
  assert (53 <= d); [|lia].
  destruct (Z.le_gt_cases 53 d); [done|].
  assert (2 ^ d <= 2 ^ 52) by (apply Z.pow_le_mono_r; lia). lia.
Qed.

Lemma pow2_split a b : 0 <= a -> 0 <= b -> 2 ^ (a + b) = 2 ^ a * 2 ^ b.
Proof. intros. apply Z.pow_add_r; done. Qed.

Lemma pow2_ge_2 k : 1 <= k -> 2 <= 2 ^ k.
Proof.
  intros. change 2 with (2 ^ 1) at 1. apply Z.pow_le_mono_r; lia.
Qed.

Lemma pow2_pos k : 0 <= k -> 0 < 2 ^ k.
Proof. intros. apply Z.pow_pos_nonneg; lia. Qed.

(** The mantissa kept by the first shift of a rounding. *)
Lemma shifted_mantissa M E :
  let d := Zpos (digits2_pos M) in
  let F := Z.max (d + E - 53) (-1074) in
  E <= F ->
  Zpos M / 2 ^ (F - E) < 2 ^ 53
  /\ (-1074 < F -> 2 ^ 52 <= Zpos M / 2 ^ (F - E)).
Proof.
  intros d F HEF. pose proof (digits2_pos_bounds M) as [Dlo Dhi]. fold d in Dlo, Dhi.
  assert (0 < d) by (subst d; lia). clearbody d.
  assert (0 < 2 ^ (F - E)) as Hpn by (apply pow2_pos; lia).
  pose proof (Z.div_mod (Zpos M) (2 ^ (F - E)) ltac:(lia)) as Hdm.
  pose proof (Z.mod_pos_bound (Zpos M) (2 ^ (F - E)) ltac:(lia)) as Hmb.
  set (fl := Zpos M / 2 ^ (F - E)) in *. set (md := Zpos M mod 2 ^ (F - E)) in *.
  clearbody fl md. split.
  - assert (2 ^ d <= 2 ^ (53 + (F - E))) as Hle by (apply Z.pow_le_mono_r; lia).
    rewrite pow2_split in Hle by lia.
    set (pn := 2 ^ (F - E)) in *. clearbody pn. nia.
  - intros HF. assert (F = d + E - 53) as HFn by lia.
    assert (2 ^ (d - 1) = 2 ^ 52 * 2 ^ (F - E)) as Hpd
      by (rewrite <- pow2_split by lia; f_equal; lia).
    set (pn := 2 ^ (F - E)) in *. clearbody pn. nia.
Qed.

(** Integer facts behind the comparison of values in different binades. *)
Lemma binade_above a k w :
  2 ^ 52 <= a -> 2 <= k -> 0 < w -> 2 ^ 53 * w <= a * (k * w).
Proof.
  intros Ha Hk Hw. change (2 ^ 53) with (2 ^ 52 * 2).
  rewrite Z.mul_assoc. apply Z.mul_le_mono_nonneg_r; [lia|].
  apply Z.mul_le_mono_nonneg; lia.
Qed.

Lemma binade_below a w : a < 2 ^ 53 -> 0 < w -> a * w < 2 ^ 53 * w.
Proof. intros Ha Hw. apply Z.mul_lt_mono_pos_r; lia. Qed.

Lemma floor_above a pn fl md u :
  0 < pn -> 0 < u -> 0 <= md < pn ->
  a * (pn * u) <= (pn * fl + md) * u -> a <= fl.
Proof.
  intros Hpn Hu Hmd H. rewrite Z.mul_assoc in H.
  apply Z.mul_le_mono_pos_r in H; [|done].
  assert (a * pn < (fl + 1) * pn) as H' by lia.
  apply Z.mul_lt_mono_pos_r in H'; lia.
Qed.

Lemma ceil_below b pn fl md u :
  0 < pn -> 0 < u -> 0 <= md < pn ->
  (pn * fl + md) * u <= b * (pn * u) -> fl <= b /\ (md <> 0 -> fl < b).
Proof.
  intros Hpn Hu Hmd H. rewrite Z.mul_assoc in H.
  apply Z.mul_le_mono_pos_r in H; [|done].
  assert (fl * pn <= b * pn) as H1 by lia.
  apply Z.mul_le_mono_pos_r in H1; [|done]. split; [done|].
  intros Hne. assert (fl * pn < b * pn) as H2 by lia.
  apply Z.mul_lt_mono_pos_r in H2; lia.
Qed.

Lemma round_aux_between M E A FA B FB :
  - ofs <= E ->
  E <= fexp prec emax (Zpos (digits2_pos M) + E) ->
  bounded prec emax A FA = true ->
  bounded prec emax B FB = true ->
  scaled (Zpos A) FA <= scaled (Zpos M) E <= scaled (Zpos B) FB ->
  exists q F',
    binary_round_aux prec emax false (Zpos M) E loc_Exact = S754_finite false q F'
    /\ bounded prec emax q F' = true
    /\ scaled (Zpos A) FA <= scaled (Zpos q) F' <= scaled (Zpos B) FB.
Proof.
  intros HE HEF HA HB [Hlo Hhi].
  destruct (round_aux_spec M E HEF) as (q & Hq & ->).
  rewrite fexp_eq in *.
  pose proof (shifted_mantissa M E HEF) as [Hfl53 Hfl52].
  pose proof (digits2_pos_bounds M) as [Dlo Dhi].
  set (d := Zpos (digits2_pos M)) in *.
  assert (0 < d) as Hd by (subst d; lia). clearbody d.
  set (F := Z.max (d + E - 53) (-1074)) in *.
  assert (-1074 <= F) as HF0 by lia.
  assert (d + E - 53 <= F) as HF1 by lia.
  clearbody F.
  apply bounded_facts in HA as (HA1 & HA2 & HA3).
  apply bounded_facts in HB as (HB1 & HB2 & HB3).
  pose proof ofs_pos as Hofs.
  assert (0 < 2 ^ (F - E)) as Hpn by (apply pow2_pos; lia).
  pose proof (Z.div_mod (Zpos M) (2 ^ (F - E)) ltac:(lia)) as Hdm.
  pose proof (Z.mod_pos_bound (Zpos M) (2 ^ (F - E)) ltac:(lia)) as Hmb.
  set (fl := Zpos M / 2 ^ (F - E)) in *. set (md := Zpos M mod 2 ^ (F - E)) in *.
  clearbody fl md.
  assert (0 <= fl) as Hfl0.
  { destruct (Z.le_gt_cases 0 fl) as [|Hneg]; [done|exfalso].
    assert (2 ^ (F - E) * fl <= 2 ^ (F - E) * -1)
      by (apply Z.mul_le_mono_nonneg_l; lia). lia. }
  assert (fl <= q <= fl + 1) as Hqfl by lia.
  unfold scaled in *.
  assert (2 ^ (F + ofs) = 2 ^ (F - E) * 2 ^ (E + ofs)) as HwF
    by (rewrite <- pow2_split by lia; f_equal; lia).
  assert (0 < 2 ^ (E + ofs)) as Hu by (apply pow2_pos; lia).
  assert (0 < 2 ^ (F + ofs)) as HwFpos by (apply pow2_pos; lia).
  assert (0 < 2 ^ (FA + ofs)) as HwA by (apply pow2_pos; lia).
  assert (0 < 2 ^ (FB + ofs)) as HwB by (apply pow2_pos; lia).
  (* the value to round lies below [2^53] at exponent [F] *)
  assert (Zpos M * 2 ^ (E + ofs) < 2 ^ 53 * 2 ^ (F + ofs)) as Htop.
  { assert (2 ^ d * 2 ^ (E + ofs) <= 2 ^ 53 * 2 ^ (F + ofs)) as Hdtop.
    { rewrite <- !pow2_split by lia. apply Z.pow_le_mono_r; lia. }
    assert (Zpos M * 2 ^ (E + ofs) < 2 ^ d * 2 ^ (E + ofs))
      by (apply Z.mul_lt_mono_pos_r; lia).
    lia. }
  (* and, at a normal exponent, not below [2^52] *)
  assert (fl * 2 ^ (F + ofs) <= Zpos M * 2 ^ (E + ofs)) as Hbot.
  { rewrite HwF, Z.mul_assoc. apply Z.mul_le_mono_nonneg_r; [lia|].
    rewrite Hdm. rewrite (Z.mul_comm fl). lia. }
  (* the exponent of the lower bound is not above F *)
  assert (FA <= F) as HFA.
  { destruct (Z.le_gt_cases FA F) as [|Hgt]; [done|exfalso].
    assert (2 ^ (FA + ofs) = 2 ^ (FA - F) * 2 ^ (F + ofs)) as HwAF
      by (rewrite <- pow2_split by lia; f_equal; lia).
    pose proof (pow2_ge_2 (FA - F) ltac:(lia)) as Hk.
    pose proof (binade_above (Zpos A) _ _ (HA3 ltac:(lia)) Hk HwFpos) as Hab.
    rewrite <- HwAF in Hab. lia. }
  (* the exponent of the upper bound is not below F *)
  assert (F <= FB) as HFB.
  { destruct (Z.le_gt_cases F FB) as [|Hgt]; [done|exfalso].
    assert (2 ^ (F + ofs) = 2 ^ (F - FB) * 2 ^ (FB + ofs)) as HwFB
      by (rewrite <- pow2_split by lia; f_equal; lia).
    pose proof (pow2_ge_2 (F - FB) ltac:(lia)) as Hk.
    pose proof (binade_above fl _ _ (Hfl52 ltac:(lia)) Hk HwB) as Hab.
    rewrite <- HwFB in Hab.
    pose proof (binade_below (Zpos B) _ HB2 HwB). lia. }
  (* the rounded mantissa against the bounds *)
  assert (Zpos A * 2 ^ (FA + ofs) <= q * 2 ^ (F + ofs)) as Hqlo.
  { destruct (Z.eq_dec FA F) as [->|Hne].
    - apply Z.mul_le_mono_nonneg_r; [lia|].
      rewrite HwF, Hdm in Hlo.
      pose proof (floor_above _ _ _ _ _ Hpn Hu Hmb Hlo). lia.
    - assert (2 ^ (F + ofs) = 2 ^ (F - FA) * 2 ^ (FA + ofs)) as HwFA
        by (rewrite <- pow2_split by lia; f_equal; lia).
      pose proof (pow2_ge_2 (F - FA) ltac:(lia)) as Hk.
      specialize (Hfl52 ltac:(lia)).
      pose proof (binade_above q _ _ ltac:(lia) Hk HwA) as Hab.
      rewrite <- HwFA in Hab.
      pose proof (binade_below (Zpos A) _ HA2 HwA). lia. }
  assert (q * 2 ^ (F + ofs) <= Zpos B * 2 ^ (FB + ofs)) as Hqhi.
  { destruct (Z.eq_dec FB F) as [->|Hne].
    - apply Z.mul_le_mono_nonneg_r; [lia|].
      rewrite HwF, Hdm in Hhi.
      pose proof (ceil_below _ _ _ _ _ Hpn Hu Hmb Hhi) as [? ?]. lia.
    - assert (2 ^ (FB + ofs) = 2 ^ (FB - F) * 2 ^ (F + ofs)) as HwBF
        by (rewrite <- pow2_split by lia; f_equal; lia).
      pose proof (pow2_ge_2 (FB - F) ltac:(lia)) as Hk.
      pose proof (binade_above (Zpos B) _ _ (HB3 ltac:(lia)) Hk HwFpos) as Hab.
      rewrite <- HwBF in Hab.
      assert (q * 2 ^ (F + ofs) <= 2 ^ 53 * 2 ^ (F + ofs))
        by (apply Z.mul_le_mono_nonneg_r; lia).
      lia. }
  assert (0 < q) as Hqpos.
  { destruct (Z.lt_ge_cases 0 q) as [|Hq0]; [done|exfalso].
    assert (q = 0) as -> by lia.
    assert (0 < Zpos A * 2 ^ (FA + ofs)) by (apply Z.mul_pos_pos; lia). lia. }
  unfold round_result. destruct (Z.eqb_spec q (2 ^ 53)) as [Hq53|Hq53].
  - (* the mantissa carried into the next binade *)
    assert (F < FB) as HFlt.
    { destruct (Z.eq_dec FB F) as [->|]; [|lia]. exfalso.
      rewrite Hq53 in Hqhi. pose proof (binade_below (Zpos B) _ HB2 HwFpos). lia. }
    assert (2 ^ (F + 1 + ofs) = 2 * 2 ^ (F + ofs)) as Hw1.
    { replace (F + 1 + ofs) with (Z.succ (F + ofs)) by lia. apply Z.pow_succ_r. lia. }
    destruct (Z.leb_spec (F + 1) 971); [|lia].
    exists (2 ^ 52)%positive, (F + 1). split; [reflexivity|]. split.
    + apply bounded_intro; [lia|reflexivity|]. intros _. reflexivity.
    + change (Zpos (2 ^ 52)) with (2 ^ 52). rewrite Hw1.
      rewrite Hq53 in Hqlo, Hqhi. change (2 ^ 53) with (2 ^ 52 * 2) in Hqlo, Hqhi.
      rewrite <- Z.mul_assoc in Hqlo, Hqhi. exact (conj Hqlo Hqhi).
  - destruct q as [|q|q]; try lia.
    destruct (Z.leb_spec F 971); [|lia].
    exists q, F. split; [reflexivity|]. split; [|exact (conj Hqlo Hqhi)].
    apply bounded_intro; [lia|lia|]. intros HFn. specialize (Hfl52 HFn). lia.
Qed.


(** On canonical positive numbers the order is that of the values. *)
Lemma scaled_lt_exponent m1 e1 m2 e2 :
  bounded prec emax m1 e1 = true -> bounded prec emax m2 e2 = true ->
  e1 < e2 -> scaled (Zpos m1) e1 < scaled (Zpos m2) e2.
Proof.
  intros (H1 & H2 & H3)%bounded_facts (H4 & H5 & H6)%bounded_facts He.
  pose proof ofs_pos. unfold scaled.
  assert (2 ^ (e2 + ofs) = 2 ^ (e2 - e1) * 2 ^ (e1 + ofs)) as Hw
    by (rewrite <- pow2_split by lia; f_equal; lia).
  pose proof (pow2_ge_2 (e2 - e1) ltac:(lia)) as Hk.
  pose proof (pow2_pos (e1 + ofs) ltac:(lia)) as Hp.
  specialize (H6 ltac:(lia)).
  set (w1 := 2 ^ (e1 + ofs)) in *. set (w2 := 2 ^ (e2 + ofs)) in *.
  set (k := 2 ^ (e2 - e1)) in *. clearbody w1 w2 k. nia.
Qed.

Lemma leb_scaled m1 e1 m2 e2 :
  bounded prec emax m1 e1 = true -> bounded prec emax m2 e2 = true ->
  leb (S754_finite false m1 e1) (S754_finite false m2 e2) = true
  <-> scaled (Zpos m1) e1 <= scaled (Zpos m2) e2.
Proof.
  intros B1 B2. rewrite leb_pos_finite.
  pose proof (bounded_facts _ _ B1) as (H1 & _). pose proof ofs_pos.
  destruct (Z.lt_trichotomy e1 e2) as [Hlt|[->|Hgt]].
  - pose proof (scaled_lt_exponent _ _ _ _ B1 B2 Hlt). lia.
  - unfold scaled. pose proof (pow2_pos (e2 + ofs) ltac:(lia)).
    set (w := 2 ^ (e2 + ofs)) in *. clearbody w. split; [|intros; right; split; [done|]]; nia.
  - pose proof (scaled_lt_exponent _ _ _ _ B2 B1 Hgt). lia.
Qed.

Lemma ltb_scaled m1 e1 m2 e2 :
  bounded prec emax m1 e1 = true -> bounded prec emax m2 e2 = true ->
  ltb (S754_finite false m1 e1) (S754_finite false m2 e2) = true
  <-> scaled (Zpos m1) e1 < scaled (Zpos m2) e2.
Proof.
  intros B1 B2. rewrite ltb_pos_finite.
  pose proof (bounded_facts _ _ B1) as (H1 & _). pose proof ofs_pos.
  destruct (Z.lt_trichotomy e1 e2) as [Hlt|[->|Hgt]].
  - pose proof (scaled_lt_exponent _ _ _ _ B1 B2 Hlt). lia.
  - unfold scaled. pose proof (pow2_pos (e2 + ofs) ltac:(lia)).
    set (w := 2 ^ (e2 + ofs)) in *. clearbody w. split; [|intros; right; split; [done|]]; nia.
  - pose proof (scaled_lt_exponent _ _ _ _ B2 B1 Hgt). lia.
Qed.

Lemma scaled_shift m e j :
  0 <= j -> 0 <= e + ofs -> scaled (m * 2 ^ j) e = scaled m (e + j).
Proof.
  intros. unfold scaled. replace (e + j + ofs) with (j + (e + ofs)) by lia.
  rewrite (pow2_split j (e + ofs)) by lia. ring.
Qed.


Lemma mul_between mx ex my ey A FA B FB :
  bounded prec emax mx ex = true -> bounded prec emax my ey = true ->
  2 ^ 52 <= Zpos mx \/ 2 ^ 52 <= Zpos my ->
  bounded prec emax A FA = true -> bounded prec emax B FB = true ->
  scaled (Zpos A) FA <= scaled (Zpos mx * Zpos my) (ex + ey) <= scaled (Zpos B) FB ->
  exists q F,
    mul (S754_finite false mx ex) (S754_finite false my ey) = S754_finite false q F
    /\ bounded prec emax q F = true
    /\ scaled (Zpos A) FA <= scaled (Zpos q) F <= scaled (Zpos B) FB.
Proof.
  intros Bx By Hn BA BB Hs.
  pose proof (bounded_facts _ _ Bx) as (X1 & X2 & X3).
  pose proof (bounded_facts _ _ By) as (Y1 & Y2 & Y3).
  pose proof ofs_pos.
  unfold mul, SFmul. cbn [xorb].
  apply round_aux_between; try done; [lia|].
  rewrite fexp_eq.
  assert (53 <= Zpos (digits2_pos (mx * my))); [|lia].
  assert (2 ^ 52 <= Zpos (mx * my)) as Hp by (rewrite Pos2Z.inj_mul; nia).
  pose proof (digits2_pos_bounds (mx * my)) as [_ U].
  set (d := Zpos (digits2_pos (mx * my))) in *. clearbody d.
  destruct (Z.le_gt_cases 53 d); [done|].
  assert (2 ^ d <= 2 ^ 52) by (apply Z.pow_le_mono_r; lia). lia.
Qed.

Lemma iter_xO m d : Zpos (Pos.iter xO m d) = Zpos m * 2 ^ Zpos d.
Proof.
  induction d as [|d IH] using Pos.peano_ind.
  - simpl. lia.
  - rewrite Pos.iter_succ. rewrite Pos2Z.inj_xO, IH.
    rewrite Pos2Z.inj_succ, Z.pow_succ_r by lia. ring.
Qed.

Lemma shl_align_fst m e e' :
  e' <= e -> Zpos (fst (shl_align m e e')) = Zpos m * 2 ^ (e - e').
Proof.
  intros He. unfold shl_align.
  destruct (e' - e) as [|d|d] eqn:Hd; cbn [fst].
  - replace (e - e') with 0 by lia. lia.
  - lia.
  - rewrite iter_xO. f_equal. f_equal. lia.
Qed.


(** The value of a number that holds an integer. *)
Lemma scaled_int m e N :
  Zpos m = N * 2 ^ (- e) -> -2148 <= e <= 0 -> scaled (Zpos m) e = N * 2 ^ ofs.
Proof.
  intros -> He. pose proof ofs_pos. rewrite scaled_shift by lia.
  unfold scaled. f_equal. f_equal. lia.
Qed.









(** [Math.round(2 * r)] is one of the integers 0 to 10 when [0 < r <= 5]. *)
Lemma stars_out_of_ten r :
  valid r = true -> ltb zero r = true -> leb r five = true ->
  exists n, 0 <= n <= 10
    /\ Math_round (mul two r) = if n =? 0 then S754_zero false else of_Z n.
Proof.
  intros Hv H0 H5. destruct r as [[]|[]| |[] m e]; try discriminate.
  change (valid (S754_finite false m e)) with (bounded prec emax m e) in Hv.
  change five with (S754_finite false 5629499534213120 (-50)) in H5.
  apply leb_scaled in H5; [|done|reflexivity].
  rewrite (scaled_int 5629499534213120 (-50) 5) in H5 by (done || lia).
  change two with (S754_finite false 4503599627370496 (-51)).
  pose proof ofs_pos as Hofs. pose proof (pow2_pos ofs ltac:(lia)) as Hw.
  pose proof (bounded_facts _ _ Hv) as (He & _).
  assert (scaled (Zpos 4503599627370496 * Zpos m) (-51 + e) = 2 * scaled (Zpos m) e) as Hprod.
  { change (Zpos 4503599627370496) with (2 ^ 52).
    replace (2 ^ 52 * Zpos m) with (Zpos m * 2 ^ 52) by ring.
    rewrite scaled_shift by lia. replace (-51 + e + 52) with (e + 1) by lia.
    unfold scaled. replace (e + 1 + ofs) with (1 + (e + ofs)) by lia.
    rewrite (pow2_split 1 (e + ofs)) by lia. change (2 ^ 1) with 2. ring. }
  assert (0 < scaled (Zpos m) e) as Hpos.
  { unfold scaled. pose proof (pow2_pos (e + ofs) ltac:(lia)). nia. }
  assert (scaled (Zpos 5629499534213120) (-49) = 10 * 2 ^ ofs) as H10
    by (apply scaled_int; [reflexivity|lia]).
  destruct (mul_between 4503599627370496 (-51) m e m e 5629499534213120 (-49))
    as (q & F & Hq & Hbq & Hsq);
    [reflexivity | exact Hv | left; vm_compute; congruence | exact Hv | reflexivity
    | rewrite Hprod, H10; lia |].
  rewrite Hq. rewrite H10 in Hsq. destruct Hsq as [_ Hhi].
  pose proof (bounded_facts _ _ Hbq) as (HF & Hq53 & Hq52).
  assert (F < 0) as HFneg.
  { destruct (Z.lt_ge_cases F 0) as [|HF0]; [done|exfalso].
    specialize (Hq52 ltac:(lia)). unfold scaled in Hhi.
    rewrite (pow2_split F ofs) in Hhi by lia.
    pose proof (pow2_pos F ltac:(lia)).
    set (w := 2 ^ ofs) in *. set (pf := 2 ^ F) in *. clearbody w pf.
    assert (Zpos q <= Zpos q * pf) as Hqpf by nia.
    assert (Zpos q * pf * w <= 10 * w) as Hle by lia.
    assert (11 * w <= Zpos q * pf * w) by (apply Z.mul_le_mono_nonneg_r; lia).
    lia. }
  unfold Math_round. destruct (Z.leb_spec 0 F); [lia|].
  exists (roundZ false q F). split; [|reflexivity].
  unfold roundZ. destruct (Z.leb_spec 0 F); [lia|]. cbn [cond_Zopp].
  replace (1 - F) with (1 + - F) by lia. rewrite (pow2_split 1 (- F)) by lia.
  change (2 ^ 1) with 2.
  pose proof (pow2_pos (- F) ltac:(lia)) as Hp.
  assert (Zpos q <= 10 * 2 ^ (- F)) as Hqb.
  { unfold scaled in Hhi. replace ofs with (- F + (F + ofs)) in Hhi at 2 by lia.
    rewrite (pow2_split (- F) (F + ofs)) in Hhi by lia.
    pose proof (pow2_pos (F + ofs) ltac:(lia)).
    set (u := 2 ^ (F + ofs)) in *. set (p := 2 ^ (- F)) in *. clearbody u p. nia. }
  set (p := 2 ^ (- F)) in *. clearbody p. split.
  - apply Z.div_pos; lia.
  - assert ((2 * Zpos q + p) / (2 * p) < 11); [|lia].
    apply Z.div_lt_upper_bound; lia.
Qed.

End NumberFacts.

(** * Facts about the helper functions *)

Section HelperFacts.

Import Num Helpers.

Lemma addStarIcons_rated obj r :
  rating obj = Some r ->
  valid r = true -> ltb zero r = true -> leb r five = true ->
  exists full half empty,
    addStarIcons obj = Some (mkRated (Some r) (Some full) (Some half) (Some empty))
    /\ (length full + length half + length empty = 5)%nat
    /\ (length half <= 1)%nat.
Proof.
  intros Hr Hv H0 H5.
  destruct (stars_out_of_ten r Hv H0 H5) as (n & Hn & Hround).
  assert (truthy r = true) as Ht
    by (destruct r as [[]|[]| |[] m e]; try discriminate; reflexivity).
  unfold addStarIcons. rewrite Hr, Ht. cbn [negb]. rewrite Hround. clear Hround.
  assert (exists k, (k <= 10)%nat /\ n = Z.of_nat k) as (k & Hk & ->)
    by (exists (Z.to_nat n); lia).
  do 11 (destruct k as [|k];
         [eexists _, _, _; split; [vm_compute; reflexivity|split; vm_compute; lia]|]).
  lia.
Qed.

Lemma addStarIcons_unrated obj :
  rating obj = None \/ (exists s, rating obj = Some (S754_zero s)) ->
  addStarIcons obj = Some obj.
Proof.
  unfold addStarIcons. intros [->|[s ->]]; reflexivity.
Qed.

(** C9. For an object whose rating is a number [r] with [0 < r <= 5],
    [addStarIcons] sets the three star arrays, their lengths add up to 5
    and there is at most one half star; an object without a rating, or
    with a rating of zero, is left as it is. *)
Theorem addStarIcons_five_stars :
  (forall obj r,
     rating obj = Some r ->
     valid r = true -> ltb zero r = true -> leb r five = true ->
     exists full half empty,
       addStarIcons obj = Some (mkRated (Some r) (Some full) (Some half) (Some empty))
       /\ (length full + length half + length empty = 5)%nat
       /\ (length half <= 1)%nat)
  /\ (forall obj,
        rating obj = None \/ (exists s, rating obj = Some (S754_zero s)) ->
        addStarIcons obj = Some obj).
Proof.
  split; [exact addStarIcons_rated|exact addStarIcons_unrated].
Qed.

Lemma addStarIcons_five_stars_witness :
  exists full half empty,
    addStarIcons (mkRated (Some (of_decimal false 47 (-1))) None None None)
    = Some (mkRated (Some (of_decimal false 47 (-1))) (Some full) (Some half)
              (Some empty))
    /\ (length full + length half + length empty = 5)%nat
    /\ (length half <= 1)%nat.
Proof.
  apply (proj1 addStarIcons_five_stars
           (mkRated (Some (of_decimal false 47 (-1))) None None None)
           (of_decimal false 47 (-1)));
    vm_compute; reflexivity.
Defined.

(** A rating of 4.7 shows four full stars and a half one. *)
Example addStarIcons_4_7 :
  addStarIcons (mkRated (Some (of_decimal false 47 (-1))) None None None)
  = Some (mkRated (Some (of_decimal false 47 (-1)))
            (Some [zero; zero; zero; zero]) (Some [zero]) (Some [])).
Proof. vm_compute. reflexivity. Qed.

(** ** The loop of [parseDaysHours] *)

(** The loop ends within [length daysHours - i] iterations: more fuel
    changes nothing. *)
Lemma collapse_fuel fuel : forall fuel' i daysHours,
  (length daysHours - i <= fuel)%nat -> (length daysHours - i <= fuel')%nat ->
  collapse fuel i daysHours = collapse fuel' i daysHours.
Proof.
  induction fuel as [|fuel IH]; intros fuel' i l Hf Hf'.
  - destruct fuel' as [|fuel']; simpl; [done|].
    destruct (Nat.ltb_spec i (length l)); [lia|done].
  - destruct fuel' as [|fuel']; simpl.
    + destruct (Nat.ltb_spec i (length l)); [lia|done].
    + destruct (Nat.ltb_spec i (length l)) as [Hi|Hi]; [|done].
      destruct (l !! (i - 1)%nat) as [prev|]; [|done].
      destruct (l !! i) as [cur|]; [|done].
      destruct (hours_eqb (hours prev) (hours cur)).
      * apply IH; rewrite length_delete, length_insert;
          try (rewrite list_lookup_insert_ne by lia); try lia.
        all: try (apply lookup_lt_is_Some; rewrite length_insert; lia).
      * apply IH; lia.
Qed.

Example english_week_collapsed :
  parseDaysHours {| weekday_text := Some english_week |}
  = Some [ mkDayHours "Mon - Fri" (Some "9:00 AM - 5:00 PM"%string);
           mkDayHours "Sat - Sun" (Some "Closed"%string) ].
Proof. vm_compute. reflexivity. Qed.

(** C8. Seven days with the same hours should collapse into the one
    element "lun - dom"; the code yields "lun - mi\233": once the label ends
    in a letter outside [\w], [/\w+$/] no longer matches and the last day
    of the run is not replaced. *)
Theorem spanish_week_collapsed :
  parseDaysHours {| weekday_text := Some spanish_week |}
  = Some [ mkDayHours ("lun - mi" +:+ e_acute) (Some "Abierto 24 horas"%string) ].
Proof. vm_compute. reflexivity. Qed.

End HelperFacts.

(** * Facts about the place-details fetcher *)

Local Close Scope Z_scope.

Section WidgetFacts.

Local Set Warnings "-clear-no-such-hyp".

Import Num Helpers Widget.

Variable url_hostname : string -> option string.

Ltac state_fields :=
  cbn [placeIdsToDetails placeIdsToAutocompleteResults closures getDetails_calls
       awaiting setTimeout_calls armed callback_calls uncaught
       with_placeIdsToDetails with_closures with_getDetails_calls with_awaiting
       with_setTimeout_calls with_armed with_callback_calls with_uncaught].

Lemma filter_none {A} (f : A -> bool) (l : list A) :
  Forall (fun x => f x = false) l -> List.filter f l = [].
Proof.
  induction 1 as [|x l Hx _ IH]; simpl; [done|]. by rewrite Hx.
Qed.

Lemma filter_some {A} (f : A -> bool) (l : list A) :
  Exists (fun x => f x = true) l -> List.filter f l ≠ [].
Proof.
  induction 1 as [x l Hx|x l _ IH]; simpl.
  - by rewrite Hx.
  - by destruct (f x).
Qed.

Lemma missing_of_lookup st placeId place fields :
  placeIdsToDetails st !! placeId = Some place ->
  List.filter (fun field => negb (bool_decide (field ∈ fetchedFields place))) fields
  = missing_of st placeId fields.
Proof. intros H. unfold missing_of, fetched_of. by rewrite H. Qed.

Lemma missing_of_new st placeId fields :
  placeIdsToDetails st !! placeId = None ->
  List.filter (fun field => negb (bool_decide (field ∈ fetchedFields (new_place placeId)))) fields
  = missing_of st placeId fields.
Proof. intros H. unfold missing_of, fetched_of. by rewrite H. Qed.

Lemma missing_of_spec st placeId fields f :
  In f (missing_of st placeId fields) <-> In f fields /\ f ∉ fetched_of st placeId.
Proof.
  unfold missing_of. rewrite filter_In, negb_true_iff, bool_decide_eq_false. tauto.
Qed.

Lemma fetched_grows_refl st : fetched_grows st st.
Proof. intros id p Hp. eauto. Qed.

Lemma fetched_grows_trans st1 st2 st3 :
  fetched_grows st1 st2 -> fetched_grows st2 st3 -> fetched_grows st1 st3.
Proof.
  intros H12 H23 id p Hp. destruct (H12 id p Hp) as (p2 & Hp2 & Hs2).
  destruct (H23 id p2 Hp2) as (p3 & Hp3 & Hs3). exists p3. split; [done|set_solver].
Qed.

Lemma fetched_grows_same st st' :
  placeIdsToDetails st' = placeIdsToDetails st -> fetched_grows st st'.
Proof. intros H id p Hp. rewrite H. eauto. Qed.

Lemma fetched_grows_insert st st' id p p' :
  placeIdsToDetails st !! id = Some p ->
  fetchedFields p ⊆ fetchedFields p' ->
  placeIdsToDetails st' = <[id := p']> (placeIdsToDetails st) ->
  fetched_grows st st'.
Proof.
  intros Hp Hs H id' q Hq. rewrite H.
  destruct (decide (id = id')) as [<-|Hne].
  - rewrite lookup_insert_eq. exists p'. split; [done|].
    assert (q = p) as -> by congruence. done.
  - rewrite lookup_insert_ne by done. eauto.
Qed.

Lemma fetched_grows_fresh st st' id p' :
  placeIdsToDetails st !! id = None ->
  placeIdsToDetails st' = <[id := p']> (placeIdsToDetails st) ->
  fetched_grows st st'.
Proof.
  intros Hp H id' q Hq. rewrite H.
  destruct (decide (id = id')) as [<-|Hne]; [congruence|].
  rewrite lookup_insert_ne by done. eauto.
Qed.

(** [processResult] never calls the service. *)
Lemma processResult_getDetails_calls c result status random st :
  getDetails_calls (processResult url_hostname c result status random st)
  = getDetails_calls st.
Proof.
  unfold processResult. repeat case_match; reflexivity.
Qed.

Lemma processResult_OK_closures c result random st :
  closures (processResult url_hostname c result OK random st) = closures st.
Proof.
  unfold processResult. cbn [status_eqb negb]. repeat case_match; reflexivity.
Qed.

(** What a call that misses a field does: one closure more, and either the
    autocomplete result is processed or the service is called. *)
Lemma fetchPlaceDetails_missing st placeId fields cb :
  placeId ≠ EmptyString ->
  missing_of st placeId fields ≠ [] ->
  let request := mkRequest placeId (missing_of st placeId fields) in
  let c := length (closures st) in
  let st1 :=
    with_closures (closures st ++ [mkClosure placeId request O cb])
      (match placeIdsToDetails st !! placeId with
       | Some _ => st
       | None => with_placeIdsToDetails
                   (<[placeId := new_place placeId]> (placeIdsToDetails st)) st
       end) in
  fetchPlaceDetails url_hostname placeId (Some fields) cb st
  = match autocomplete_result st placeId with
    | Some r => processResult url_hostname c r OK zero st1
    | None => getDetails c st1
    end.
Proof.
  intros Hid Hm request c st1. subst request c st1. unfold fetchPlaceDetails.
  destruct placeId as [|a placeId]; [done|]. set (pid := String a placeId) in *.
  unfold autocomplete_result.
  destruct (placeIdsToDetails st !! pid) as [p|] eqn:Hp.
  - rewrite (missing_of_lookup _ _ _ _ Hp).
    destruct (missing_of st pid fields) as [|f l] eqn:Hl; [done|]. reflexivity.
  - rewrite (missing_of_new _ _ _ Hp).
    destruct (missing_of st pid fields) as [|f l] eqn:Hl; [done|]. reflexivity.
Qed.

Lemma call_with_missing_fields st placeId fields cb :
  placeId ≠ EmptyString ->
  Exists (fun field => field ∉ fetched_of st placeId) fields ->
  let missing := missing_of st placeId fields in
  let request := mkRequest placeId missing in
  let c := length (closures st) in
  let st' := fetchPlaceDetails url_hostname placeId (Some fields) cb st in
  (forall field, In field missing <-> In field fields /\ field ∉ fetched_of st placeId)
  /\ (exists new,
        getDetails_calls st' = getDetails_calls st ++ new
        /\ Forall (fun call => call = (request, c)) new
        /\ (autocomplete_result st placeId = None -> new = [(request, c)]))
  /\ (exists cl, closures st' !! c = Some cl /\ cl_request cl = request).
Proof.
  intros Hid Hex missing request c st'.
  split; [intros f; apply missing_of_spec|].
  assert (missing ≠ []) as Hm.
  { apply filter_some. eapply Exists_impl; [exact Hex|]. intros f Hf. simpl.
    by rewrite bool_decide_eq_false_2. }
  subst st'. rewrite (fetchPlaceDetails_missing st placeId fields cb Hid Hm).
  fold missing request c.
  set (st1 := with_closures _ _).
  assert (closures st1 = closures st ++ [mkClosure placeId request O cb]) as Hcl
    by reflexivity.
  assert (getDetails_calls st1 = getDetails_calls st) as Hgd
    by (subst st1; simpl; by destruct (placeIdsToDetails st !! placeId)).
  assert (closures st1 !! c = Some (mkClosure placeId request O cb)) as Hc.
  { rewrite Hcl. subst c. by rewrite lookup_app_r, Nat.sub_diag. }
  destruct (autocomplete_result st placeId) as [r|].
  - split.
    + exists []. rewrite processResult_getDetails_calls, app_nil_r.
      split; [exact Hgd|]. by split.
    + rewrite processResult_OK_closures. eauto.
  - unfold getDetails. rewrite Hc. cbn [cl_request]. split.
    + exists [(request, c)]. simpl. split; [f_equal; exact Hgd|].
      split; [by constructor|done].
    + simpl. eauto.
Qed.

(** A failure other than the rate limit changes nothing. *)
Lemma processResult_other_failure c result status random st :
  status ≠ OK -> status ≠ OVER_QUERY_LIMIT ->
  processResult url_hostname c result status random st = st.
Proof.
  intros H1 H2. unfold processResult.
  destruct (closures st !! c); [|done]. by destruct status.
Qed.

Lemma reply_with_other_failure st i result status random :
  status ≠ OK -> status ≠ OVER_QUERY_LIMIT ->
  let st' := step url_hostname st (Reply i result status random) in
  callback_calls st' = callback_calls st
  /\ setTimeout_calls st' = setTimeout_calls st
  /\ armed st' = armed st
  /\ getDetails_calls st' = getDetails_calls st
  /\ closures st' = closures st
  /\ placeIdsToDetails st' = placeIdsToDetails st
  /\ uncaught st' = uncaught st
  /\ awaiting st' ⊆ awaiting st
  /\ (i < length (getDetails_calls st) -> i ∉ awaiting st').
Proof.
  intros H1 H2 st'. subst st'. unfold step.
  case_bool_decide as Hi.
  - destruct (getDetails_calls st !! i) as [[rq c]|] eqn:Hlog.
    + rewrite processResult_other_failure by done. simpl.
      repeat split; try done; set_solver.
    + apply lookup_ge_None in Hlog. repeat split; try done. lia.
  - by repeat split.
Qed.

Lemma keeps_and_then o f :
  keeps f ->
  fetchedFields (outcome_place (and_then o f)) = fetchedFields (outcome_place o).
Proof. intros Hf. destruct o; simpl; [apply Hf|done]. Qed.

Ltac keeps_tac := unfold keeps; intros; repeat (simpl; case_match); reflexivity.

Lemma keeps_merge_basic result : keeps (merge_basic result).
Proof. unfold merge_basic. keeps_tac. Qed.

Lemma keeps_merge_types result : keeps (merge_types result).
Proof. unfold merge_types. keeps_tac. Qed.

Lemma keeps_merge_url result : keeps (merge_url result).
Proof. unfold merge_url. keeps_tac. Qed.

Lemma keeps_merge_contact result : keeps (merge_contact url_hostname result).
Proof.
  intros p. unfold merge_contact. rewrite keeps_and_then by keeps_tac. keeps_tac.
Qed.

Lemma keeps_merge_rating result : keeps (merge_rating result).
Proof. unfold merge_rating. keeps_tac. Qed.

Lemma keeps_merge_reviews result : keeps (merge_reviews result).
Proof.
  intros p. unfold merge_reviews. rewrite keeps_and_then by keeps_tac. keeps_tac.
Qed.

Lemma merge_fetchedFields result p :
  fetchedFields (outcome_place (merge url_hostname result p)) = fetchedFields p.
Proof.
  unfold merge.
  rewrite (keeps_and_then _ _ (keeps_merge_reviews result)).
  rewrite (keeps_and_then _ _ (keeps_merge_rating result)).
  rewrite (keeps_and_then _ _ (keeps_merge_contact result)).
  rewrite (keeps_and_then _ _ (keeps_merge_url result)).
  rewrite (keeps_and_then _ _ (keeps_merge_types result)).
  apply keeps_merge_basic.
Qed.

Lemma add_fields_subseteq fields fetched : fetched ⊆ add_fields fields fetched.
Proof.
  unfold add_fields. revert fetched.
  induction fields as [|f fields IH]; intros fetched; simpl; [done|].
  etrans; [|apply IH]. set_solver.
Qed.

Lemma processResult_grows c result status random st :
  fetched_grows st (processResult url_hostname c result status random st).
Proof.
  unfold processResult. destruct (closures st !! c) as [cl|]; [|apply fetched_grows_refl].
  destruct (negb (status_eqb status OK)).
  { case_match; [|apply fetched_grows_refl]. by apply fetched_grows_same. }
  destruct (placeIdsToDetails st !! cl_place cl) as [p|] eqn:Hp; [|apply fetched_grows_refl].
  pose proof (merge_fetchedFields result p) as Hm.
  destruct (merge url_hostname result p) as [p'|p']; simpl in Hm.
  - eapply fetched_grows_insert; [exact Hp| |reflexivity]. simpl.
    rewrite <- Hm. apply add_fields_subseteq.
  - eapply fetched_grows_insert; [exact Hp| |reflexivity]. by rewrite Hm.
Qed.

Lemma getDetails_places c st :
  placeIdsToDetails (getDetails c st) = placeIdsToDetails st.
Proof. unfold getDetails. by case_match. Qed.

Lemma fetchPlaceDetails_grows placeId fields cb st :
  fetched_grows st (fetchPlaceDetails url_hostname placeId fields cb st).
Proof.
  unfold fetchPlaceDetails.
  destruct placeId as [|a s]; [apply fetched_grows_refl|].
  destruct fields as [fields|]; [|apply fetched_grows_refl].
  set (pid := String a s).
  destruct (placeIdsToDetails st !! pid) as [p|] eqn:Hp.
  - case_match; [by apply fetched_grows_same|].
    case_match.
    + eapply fetched_grows_trans; [|apply processResult_grows]. by apply fetched_grows_same.
    + apply fetched_grows_same. by rewrite getDetails_places.
  - case_match; [by eapply fetched_grows_fresh|].
    case_match.
    + eapply fetched_grows_trans; [|apply processResult_grows]. by eapply fetched_grows_fresh.
    + eapply fetched_grows_fresh; [exact Hp|]. by rewrite getDetails_places.
Qed.

Lemma step_grows st ev : fetched_grows st (step url_hostname st ev).
Proof.
  destruct ev as [placeId fields cb|i result status random|j]; simpl.
  - apply fetchPlaceDetails_grows.
  - repeat case_match; try apply fetched_grows_refl.
    eapply fetched_grows_trans; [|apply processResult_grows]. by apply fetched_grows_same.
  - repeat case_match; try apply fetched_grows_refl.
    apply fetched_grows_same. by rewrite getDetails_places.
Qed.

Lemma run_grows evs : forall st, fetched_grows st (run url_hostname st evs).
Proof.
  induction evs as [|ev evs IH]; intros st; simpl; [apply fetched_grows_refl|].
  eapply fetched_grows_trans; [apply step_grows|apply IH].
Qed.

(** The request a call creates holds no field fetched when it is made. *)
Lemma call_requests_unfetched st placeId fields cb new :
  getDetails_calls (step url_hostname st (Call placeId fields cb))
  = getDetails_calls st ++ new ->
  forall r c field, In (r, c) new -> In field (rq_fields r) ->
    rq_placeId r = placeId /\ field ∉ fetched_of st placeId.
Proof.
  simpl. intros Hnew r c f Hin Hf.
  assert (forall a, getDetails_calls st = getDetails_calls st ++ a -> a = []) as Hnil.
  { intros a Ha. apply (app_inv_head (getDetails_calls st)). by rewrite app_nil_r. }
  destruct placeId as [|a s].
  { simpl in Hnew. apply Hnil in Hnew. by subst. }
  destruct fields as [fields|].
  2:{ simpl in Hnew. apply Hnil in Hnew. by subst. }
  set (pid := String a s) in *.
  destruct (missing_of st pid fields) as [|f0 l] eqn:Hm.
  - (* nothing is missing: only the callback is called *)
    exfalso. unfold fetchPlaceDetails in Hnew. fold pid in Hnew.
    destruct (placeIdsToDetails st !! pid) as [p|] eqn:Hp.
    + rewrite (missing_of_lookup _ _ _ _ Hp), Hm in Hnew. simpl in Hnew.
      apply Hnil in Hnew. by subst.
    + rewrite (missing_of_new _ _ _ Hp), Hm in Hnew. simpl in Hnew.
      apply Hnil in Hnew. by subst.
  - assert (pid ≠ EmptyString) as Hid by done.
    assert (missing_of st pid fields ≠ []) as Hne by (by rewrite Hm).
    assert (Exists (fun field => field ∉ fetched_of st pid) fields) as Hex.
    { apply Exists_exists. exists f0.
      assert (In f0 (missing_of st pid fields)) as H0 by (rewrite Hm; by left).
      apply missing_of_spec in H0 as [? ?]. split; [by apply list_elem_of_In|done]. }
    destruct (call_with_missing_fields st pid fields cb Hid Hex)
      as (Hspec & (new' & Hcalls & Hall & _) & _).
    rewrite Hnew in Hcalls. apply app_inv_head in Hcalls. subst new'.
    rewrite Forall_forall in Hall. apply list_elem_of_In in Hin.
    specialize (Hall _ Hin). inversion Hall; subst.
    simpl in Hf |- *. split; [done|]. by apply Hspec in Hf as [_ ?].
Qed.




Lemma wf_initial places : wf (initializePlaceDetails places).
Proof. split; intros i Hi; cbn in Hi; set_solver. Qed.

Lemma wf_same st st' :
  awaiting st' = awaiting st -> getDetails_calls st' = getDetails_calls st ->
  armed st' = armed st -> setTimeout_calls st' = setTimeout_calls st ->
  wf st -> wf st'.
Proof. unfold wf. intros -> -> -> ->. done. Qed.

Lemma wf_getDetails c st : wf st -> wf (getDetails c st).
Proof.
  intros [Ha Ht]. unfold getDetails. destruct (closures st !! c); [|done].
  split; state_fields; [|done]. intros i Hi. rewrite length_app. simpl.
  apply elem_of_union in Hi as [->%elem_of_singleton|Hi%Ha]; lia.
Qed.

Lemma wf_processResult c result status random st :
  wf st -> wf (processResult url_hostname c result status random st).
Proof.
  intros [Ha Ht]. unfold processResult. repeat case_match; try done.
  all: split; state_fields; try done.
  intros j Hj. rewrite length_app. simpl.
  apply elem_of_union in Hj as [->%elem_of_singleton|Hj%Ht]; lia.
Qed.

Lemma wf_step st ev : wf st -> wf (step url_hostname st ev).
Proof.
  intros Hwf. pose proof Hwf as [Ha Ht].
  destruct ev as [placeId fields cb|i result status random|j]; simpl.
  - unfold fetchPlaceDetails.
    destruct placeId as [|a s]; [done|]. destruct fields as [fields|]; [|done].
    destruct (placeIdsToDetails st !! String a s); cbv zeta iota beta.
    all: repeat case_match.
    all: try apply wf_processResult; try apply wf_getDetails.
    all: by apply (wf_same st).
  - repeat case_match; try done. apply wf_processResult.
    split; state_fields; [|done]. intros i' Hi'. apply Ha. set_solver.
  - repeat case_match; try done. apply wf_getDetails.
    split; state_fields; [done|]. intros j' Hj'. apply Ht. set_solver.
Qed.



(** ** The claims about [fetchPlaceDetails] *)


(** C3. When a requested field is not fetched, the request of the call
    holds exactly the requested fields that are not fetched, in their
    order: it is what the call sends to the service (nothing is sent when
    an autocomplete result for the place is at hand) and what its closure
    keeps for the retries. *)
Theorem missing_fields_requested st placeId fields cb :
  placeId ≠ EmptyString ->
  Exists (fun field => field ∉ fetched_of st placeId) fields ->
  let missing := missing_of st placeId fields in
  let request := mkRequest placeId missing in
  let c := length (closures st) in
  let st' := fetchPlaceDetails url_hostname placeId (Some fields) cb st in
  (forall field, In field missing <-> In field fields /\ field ∉ fetched_of st placeId)
  /\ (exists new,
        getDetails_calls st' = getDetails_calls st ++ new
        /\ Forall (fun call => call = (request, c)) new
        /\ (autocomplete_result st placeId = None -> new = [(request, c)]))
  /\ (exists cl, closures st' !! c = Some cl /\ cl_request cl = request).
Proof. exact (call_with_missing_fields st placeId fields cb). Qed.

(** C5. An answer with a failure status other than the rate limit is
    dropped: no callback, no timer, no further call to the service, no
    exception, no change to the cache; the request is no longer awaited. *)
Theorem other_failures_dropped st i result status random :
  status ≠ OK -> status ≠ OVER_QUERY_LIMIT ->
  let st' := step url_hostname st (Reply i result status random) in
  callback_calls st' = callback_calls st
  /\ setTimeout_calls st' = setTimeout_calls st
  /\ armed st' = armed st
  /\ getDetails_calls st' = getDetails_calls st
  /\ closures st' = closures st
  /\ placeIdsToDetails st' = placeIdsToDetails st
  /\ uncaught st' = uncaught st
  /\ awaiting st' ⊆ awaiting st
  /\ (i < length (getDetails_calls st) -> i ∉ awaiting st').
Proof. exact (reply_with_other_failure st i result status random). Qed.

(** C4, as the code has it. The fetched-fields set of a cached place only
    grows, whatever calls, answers and timers follow; and the request a
    call creates holds no field that is fetched when the call is made. *)
Theorem fetched_fields_grow :
  (forall st evs, fetched_grows st (run url_hostname st evs))
  /\ (forall st placeId fields cb new,
        getDetails_calls (step url_hostname st (Call placeId fields cb))
        = getDetails_calls st ++ new ->
        forall r c field, In (r, c) new -> In field (rq_fields r) ->
          rq_placeId r = placeId /\ field ∉ fetched_of st placeId).
Proof.
  split.
  - intros st evs. apply run_grows.
  - exact call_requests_unfetched.
Qed.


End WidgetFacts.

(** ** The claims at sample calls *)

Section WidgetSamples.

Import Num Helpers Widget.

(** A jitter of one half. *)
Definition half : number := of_decimal false 5 (-1).


Lemma missing_fields_requested_witness :
  exists new,
    getDetails_calls
      (fetchPlaceDetails no_hostname "clinic" (Some ["name"; "rating"]%string) 7
         name_fetched)
    = getDetails_calls name_fetched ++ new
    /\ Forall (fun call =>
                 call = (mkRequest "clinic"
                           (missing_of name_fetched "clinic" ["name"; "rating"]%string),
                         length (closures name_fetched))) new.
Proof.
  destruct (missing_fields_requested no_hostname name_fetched "clinic"
              ["name"; "rating"]%string 7) as (_ & (new & H1 & H2 & _) & _).
  - discriminate.
  - apply Exists_cons_tl, Exists_cons_hd. vm_compute. discriminate.
  - exists new. split; [exact H1|exact H2].
Defined.

Lemma other_failures_dropped_witness :
  callback_calls
    (step no_hostname
       (fetchPlaceDetails no_hostname "clinic" (Some ["name"%string]) 7
          (initializePlaceDetails []))
       (Reply 0 (named "") NOT_FOUND zero))
  = [].
Proof.
  apply (other_failures_dropped no_hostname
           (fetchPlaceDetails no_hostname "clinic" (Some ["name"%string]) 7
              (initializePlaceDetails []))
           0 (named "") NOT_FOUND zero); discriminate.
Defined.

Lemma fetched_fields_grow_witness :
  "rating"%string ∉ fetched_of name_fetched "clinic".
Proof.
  apply (proj2 (fetched_fields_grow no_hostname) name_fetched "clinic"
           (Some ["name"; "rating"]%string) 7
           [(mkRequest "clinic" ["rating"%string], 1)]
           ltac:(vm_compute; reflexivity)
           (mkRequest "clinic" ["rating"%string]) 1 "rating"%string);
    left; reflexivity.
Defined.

(** C4, as stated, fails: after [overlapping_calls] the name of the place
    is fetched, and the timer of the rate-limited call sends its request
    for the name once more. *)
Lemma retry_requests_fetched_field : ~ never_requested_again.
Proof.
  intros H.
  specialize (H no_hostname [] overlapping_calls (TimerFires 0)
                [(mkRequest "clinic" ["name"%string], 1)]).
  cbv zeta in H.
  assert ("name"%string ∈ fetched_of
            (run no_hostname (initializePlaceDetails []) overlapping_calls)
            "clinic") as Hin by (vm_compute; reflexivity).
  apply (H ltac:(vm_compute; reflexivity)
           (mkRequest "clinic" ["name"%string]) 1 "name"%string);
    [by left|by left|exact Hin].
Qed.


(** The five delays of that call, in milliseconds. *)
Example delays_with_half_jitter :
  map (fun k => retry_delay k half) (seq 0 5)
  = map of_Z [750; 1250; 2250; 4250; 8250]%Z.
Proof. vm_compute. reflexivity. Qed.

End WidgetSamples.

(** * Facts about the BMI calculator *)

Section BmiFacts.

Import Num Bmi.

Local Open Scope Z_scope.

Lemma c24_9_eq : c24_9 = S754_finite false 7008726920095334 (-48).
Proof. reflexivity. Qed.

Lemma c18_5_eq : c18_5 = S754_finite false 5207287069147136 (-48).
Proof. reflexivity. Qed.

(** A value at or above 24.9 is not below 18.5. *)
Lemma above_24_9_not_below_18_5 b : leb c24_9 b = true -> ltb b c18_5 = false.
Proof.
  rewrite c24_9_eq, c18_5_eq.
  destruct b as [[]|[]| |[] m e].
  1-6: intros H; first [ discriminate H | reflexivity ].
  intros H%leb_pos_finite. apply not_true_is_false. intros H'%ltb_pos_finite. lia.
Qed.

(** C6. With a height of 180 and a weight of 72.9 the BMI is 22.5: the
    result element reads "Your BMI is: 22.50" and the category element
    "BMI Category: Normal weight", for "male" and for "female". *)
Theorem bmi_180_72_9 a r c al :
    calculateBMI (mkPage a "male" "180" "72.9" r c al)
    = mkPage a "male" "180" "72.9" "Your BMI is: 22.50"
        "BMI Category: Normal weight" al
  /\ calculateBMI (mkPage a "female" "180" "72.9" r c al)
     = mkPage a "female" "180" "72.9" "Your BMI is: 22.50"
         "BMI Category: Normal weight" al
  /\ bmi_of (parseFloat "180") (parseFloat "72.9") = of_decimal false 225 (-1).
Proof. repeat split; vm_compute; reflexivity. Qed.

(** C7. When the height or the weight does not parse to a number, or is
    zero or negative, [calculateBMI] shows the alert and writes nothing:
    the two result elements keep their content. *)
Theorem invalid_input_alert pg :
  isNaN (parseFloat (height pg)) = true
  \/ isNaN (parseFloat (weight pg)) = true
  \/ leb (parseFloat (height pg)) (S754_zero false) = true
  \/ leb (parseFloat (weight pg)) (S754_zero false) = true ->
  calculateBMI pg
  = mkPage (age pg) (gender pg) (height pg) (weight pg) (result pg)
      (result_category pg)
      (alerts pg ++ ["Please enter valid height and weight."%string]).
Proof.
  intros H. unfold calculateBMI.
  destruct H as [-> | [-> | [-> | ->]]]; rewrite ?orb_true_r; reflexivity.
Qed.

Lemma invalid_input_alert_witness :
  leb (parseFloat "0") (S754_zero false) = true
  /\ calculateBMI (mkPage "30" "male" "0" "70" "" "" [])
     = mkPage "30" "male" "0" "70" "" ""
         ["Please enter valid height and weight."%string].
Proof.
  split; [reflexivity|].
  apply (invalid_input_alert (mkPage "30" "male" "0" "70" "" "" [])).
  right. right. left. reflexivity.
Defined.

(** A height that is no number at all. *)
Example invalid_input_not_numeric :
  calculateBMI (mkPage "30" "female" "tall" "70" "" "" [])
  = mkPage "30" "female" "tall" "70" "" ""
      ["Please enter valid height and weight."%string].
Proof. apply invalid_input_alert. left. reflexivity. Qed.

(** C10. For valid input and either gender, a BMI from 24.9 up to, but
    not including, 25 is in none of the first three ranges and gets the
    category "Obese". *)
Theorem gap_is_obese pg :
  isNaN (parseFloat (height pg)) = false ->
  isNaN (parseFloat (weight pg)) = false ->
  leb (parseFloat (height pg)) (S754_zero false) = false ->
  leb (parseFloat (weight pg)) (S754_zero false) = false ->
  gender pg = "male"%string \/ gender pg = "female"%string ->
  leb c24_9 (bmi_of (parseFloat (height pg)) (parseFloat (weight pg))) = true ->
  ltb (bmi_of (parseFloat (height pg)) (parseFloat (weight pg))) c25 = true ->
  result_category (calculateBMI pg) = "BMI Category: Obese"%string.
Proof.
  intros H1 H2 H3 H4 Hg Hlo Hhi. unfold calculateBMI.
  rewrite H1, H2, H3, H4. cbn [orb result_category].
  set (bmi := bmi_of _ _) in *.
  assert (category_of (gender pg) bmi = Some (classify bmi)) as ->
    by (unfold category_of; destruct Hg as [->| ->]; reflexivity).
  unfold classify.
  rewrite (above_24_9_not_below_18_5 bmi Hlo).
  rewrite (leb_not_ltb c24_9 bmi Hlo), andb_false_r.
  rewrite (ltb_not_leb bmi c25 Hhi). reflexivity.
Qed.

Lemma gap_is_obese_witness :
  result_category (calculateBMI (mkPage "30" "male" "100" "24.95" "" "" []))
  = "BMI Category: Obese"%string.
Proof.
  apply (gap_is_obese (mkPage "30" "male" "100" "24.95" "" "" []));
    try (vm_compute; reflexivity).
  left. reflexivity.
Defined.

End BmiFacts.

(** * The built-ins at sample arguments *)

Section BuiltinSamples.

Local Open Scope Z_scope.

Example of_Z_5 : Num.of_Z 5 = S754_finite false 5629499534213120 (-50).
Proof. reflexivity. Qed.

Example decimal_24_9 :
  Num.of_decimal false 249 (-1) = S754_finite false 7008726920095334 (-48).
Proof. reflexivity. Qed.

Example decimal_0_1 :
  Num.of_decimal false 1 (-1) = S754_finite false 7205759403792794 (-56).
Proof. reflexivity. Qed.

Example parseFloat_samples :
  Num.parseFloat "72.9" = S754_finite false 5129881450551706 (-46)
  /\ Num.parseFloat "  -1.5e2xyz" = Num.of_Z (-150)
  /\ Num.parseFloat "abc" = Num.NaN
  /\ Num.parseFloat "" = Num.NaN
  /\ Num.parseFloat "." = Num.NaN
  /\ Num.parseFloat "-Infinityx" = S754_infinity true
  /\ Num.parseFloat "5.e1" = Num.of_Z 50
  /\ Num.parseFloat ".5" = Num.of_decimal false 5 (-1)
  /\ Num.parseFloat "1e" = Num.of_Z 1
  /\ Num.parseFloat "0" = S754_zero false
  /\ Num.parseFloat "-0" = S754_zero true.
Proof. repeat split; reflexivity. Qed.

Example toFixed_samples :
  Num.toFixed (Num.of_decimal false 225 (-1)) 2 = "22.50"%string
  /\ Num.toFixed (Num.of_decimal false 1005 (-3)) 2 = "1.00"%string
  /\ Num.toFixed (Num.of_decimal false 1005 (-2)) 1 = "10.1"%string
  /\ Num.toFixed (Num.of_decimal true 5 (-3)) 2 = "-0.01"%string
  /\ Num.toFixed (Num.of_decimal false 4 (-3)) 2 = "0.00"%string
  /\ Num.toFixed (Num.of_decimal false 123456 (-2)) 0 = "1235"%string
  /\ Num.toFixed (Num.of_decimal false 1 21) 2 = "1e+21"%string
  /\ Num.toFixed (Num.of_decimal false 1 23) 2 = "1e+23"%string
  /\ Num.toFixed (Num.of_decimal false 12345 21) 2 = "1.2345e+25"%string
  /\ Num.toFixed (Num.of_Z (2 ^ 70)) 2 = "1.1805916207174113e+21"%string
  /\ Num.toFixed (Num.of_decimal false 99999999999999990000 0) 2
     = "99999999999999983616.00"%string.
Proof. repeat split; vm_compute; reflexivity. Qed.

Example Math_round_samples :
  Num.Math_round (Num.of_decimal false 25 (-1)) = Num.of_Z 3
  /\ Num.Math_round (Num.of_decimal true 25 (-1)) = Num.of_Z (-2)
  /\ Num.Math_round (Num.of_decimal true 5 (-1)) = S754_zero true
  /\ Num.Math_round (Num.of_decimal false 49 (-2)) = S754_zero false
  /\ Num.Math_floor (Num.of_decimal true 5 (-1)) = Num.of_Z (-1)
  /\ Num.Math_floor (Num.of_decimal false 45 (-1)) = Num.of_Z 4.
Proof. repeat split; vm_compute; reflexivity. Qed.

Example formatPlaceType_sample :
  Helpers.formatPlaceType "local_government_office" = "Local government office"%string.
Proof. reflexivity. Qed.

End BuiltinSamples.

(** * More about the helper functions *)

Section ArrayFacts.

Import Num Helpers.

Local Open Scope Z_scope.

Lemma shl_align_snd m e e' : e' <= e -> snd (shl_align m e e') = e'.
Proof.
  intros He. unfold shl_align.
  destruct (e' - e) as [|d|d] eqn:Hd; cbn [snd]; lia.
Qed.

(** An integer below [2^53] is a number, exactly. *)
Lemma of_Z_exact k :
  0 < k < 2 ^ 53 ->
  exists m e, of_Z k = S754_finite false m e /\ bounded prec emax m e = true
              /\ scaled (Zpos m) e = k * 2 ^ ofs.
Proof.
  intros [Hk0 Hk]. destruct k as [|p|p]; try lia.
  pose proof ofs_pos as Hofs.
  pose proof (digits2_pos_bounds p) as [Dlo Dhi].
  unfold of_Z, binary_normalize, binary_round.
  rewrite fexp_eq. rewrite Z.add_0_r.
  set (d := Zpos (digits2_pos p)) in *.
  assert (0 < d) as Hd0 by (subst d; lia).
  assert (d <= 53) as Hd.
  { destruct (Z.le_gt_cases d 53); [done|].
    assert (2 ^ 53 <= 2 ^ (d - 1)) by (apply Z.pow_le_mono_r; lia). lia. }
  replace (Z.max (d - 53) (-1074)) with (d - 53) by lia.
  pose proof (shl_align_fst p 0 (d - 53) ltac:(lia)) as HM.
  pose proof (shl_align_snd p 0 (d - 53) ltac:(lia)) as HE.
  destruct (shl_align p 0 (d - 53)) as [M E]. cbn [fst snd] in HM, HE. subst E.
  replace (0 - (d - 53)) with (53 - d) in HM by lia.
  clearbody d.
  assert (2 ^ 52 <= Zpos M < 2 ^ 53) as [HM52 HM53].
  { rewrite HM.
    assert (2 ^ 52 = 2 ^ (d - 1) * 2 ^ (53 - d)) as ->
      by (rewrite <- pow2_split by lia; f_equal; lia).
    assert (2 ^ 53 = 2 ^ d * 2 ^ (53 - d)) as ->
      by (rewrite <- pow2_split by lia; f_equal; lia).
    pose proof (pow2_pos (53 - d) ltac:(lia)).
    set (w := 2 ^ (53 - d)) in *. set (a := 2 ^ (d - 1)) in *. set (b := 2 ^ d) in *.
    clearbody w a b. nia. }
  assert (bounded prec emax M (d - 53) = true) as HB by (apply bounded_intro; lia).
  destruct (round_aux_between M (d - 53) M (d - 53) M (d - 53)) as (q & F & Hq & HBq & Hs);
    try done; try lia.
  { rewrite fexp_eq.
    assert (Zpos (digits2_pos M) = 53) as ->; [|lia].
    apply digits2_pos_unique. change (53 - 1) with 52. lia. }
  exists q, F. split; [exact Hq|]. split; [exact HBq|].
  assert (scaled (Zpos q) F = scaled (Zpos M) (d - 53)) as -> by lia.
  rewrite HM. rewrite scaled_shift by lia. unfold scaled. f_equal. f_equal. lia.
Qed.

(** The test of the loop of [initArray] against a positive size. *)
Lemma ltb_index j m e :
  0 <= j < 2 ^ 53 -> bounded prec emax m e = true ->
  ltb (of_Z j) (S754_finite false m e) = true <-> j < ceilZ false m e.
Proof.
  intros Hj HB. pose proof ofs_pos as Hofs.
  pose proof (bounded_facts _ _ HB) as (He & Hm53 & _).
  assert (0 < ceilZ false m e) as Hc.
  { unfold ceilZ, floorZ. cbn [negb cond_Zopp]. change (- Zpos m) with (Zneg m).
    destruct (Z.leb_spec 0 e).
    - pose proof (pow2_pos e ltac:(lia)).
      set (P := 2 ^ e) in *. clearbody P.
      assert (0 < Zpos m * P) by (apply Z.mul_pos_pos; lia). lia.
    - pose proof (pow2_pos (- e) ltac:(lia)) as Hp.
      pose proof (Z.div_mod (Zneg m) (2 ^ (- e)) ltac:(lia)) as Hdm.
      pose proof (Z.mod_pos_bound (Zneg m) (2 ^ (- e)) ltac:(lia)) as Hmb.
      set (q := Zneg m / 2 ^ (- e)) in *. set (r := Zneg m mod 2 ^ (- e)) in *.
      set (P := 2 ^ (- e)) in *. clearbody q r P.
      destruct (Z.lt_ge_cases q 0); [lia|].
      assert (0 <= P * q) by (apply Z.mul_nonneg_nonneg; lia). lia. }
  destruct (Z.eq_dec j 0) as [->|Hj0].
  { split; [intros _; exact Hc|reflexivity]. }
  destruct (of_Z_exact j ltac:(lia)) as (mj & ej & -> & HBj & Hsj).
  rewrite ltb_scaled by done. rewrite Hsj.
  unfold ceilZ, floorZ. cbn [negb cond_Zopp]. unfold scaled.
  destruct (Z.leb_spec 0 e).
  - rewrite (pow2_split e ofs) by lia.
    pose proof (pow2_pos e ltac:(lia)). pose proof (pow2_pos ofs ltac:(lia)).
    set (w := 2 ^ ofs) in *. set (P := 2 ^ e) in *. clearbody w P.
    replace (- - (Zpos m * P)) with (Zpos m * P) by lia.
    replace (Zpos m * (P * w)) with (Zpos m * P * w) by ring.
    split; intros; nia.
  - change (- Zpos m) with (Zneg m).
    assert (2 ^ ofs = 2 ^ (- e) * 2 ^ (e + ofs)) as ->
      by (rewrite <- pow2_split by lia; f_equal; lia).
    pose proof (pow2_pos (- e) ltac:(lia)) as Hp.
    pose proof (pow2_pos (e + ofs) ltac:(lia)) as Hw.
    pose proof (Z.div_mod (Zneg m) (2 ^ (- e)) ltac:(lia)) as Hdm.
    pose proof (Z.mod_pos_bound (Zneg m) (2 ^ (- e)) ltac:(lia)) as Hmb.
    set (q := Zneg m / 2 ^ (- e)) in *. set (r := Zneg m mod 2 ^ (- e)) in *.
    set (P := 2 ^ (- e)) in *. set (w := 2 ^ (e + ofs)) in *.
    assert (Zpos m = - (P * q + r)) as Hm by lia.
    clearbody q r P w. rewrite Hm.
    replace (j * (P * w)) with (j * P * w) by ring.
    split; intros Hlt.
    + assert (j * P < - (P * q + r)) as H' by nia.
      assert (P * (j + q) < 0) by lia. nia.
    + assert (P * (j + q) <= - P) by nia.
      assert (j * P < - (P * q + r)) by lia. nia.
Qed.

Lemma initArray_loop_finite m e : forall budget array,
  bounded prec emax m e = true ->
  Z.of_nat (length array) + Z.of_nat budget
    = Z.min (ceilZ false m e) max_array_length ->
  initArray_loop budget array (S754_finite false m e)
  = if ceilZ false m e <=? max_array_length
    then Some (array ++ replicate budget zero) else None.
Proof.
  intros budget array HB. revert array.
  assert (max_array_length < 2 ^ 53) as Hmax by (unfold max_array_length; lia).
  induction budget as [|budget IH]; intros array Hlen.
  - cbn [initArray_loop replicate]. rewrite app_nil_r.
    destruct (Z.leb_spec (ceilZ false m e) max_array_length).
    + destruct (ltb (of_Z _) _) eqn:E; [|done].
      apply ltb_index in E; [lia|lia|done].
    + assert (ltb (of_Z (Z.of_nat (length array))) (S754_finite false m e) = true) as ->
        by (apply ltb_index; [lia|done|lia]).
      done.
  - cbn [initArray_loop].
    assert (ltb (of_Z (Z.of_nat (length array))) (S754_finite false m e) = true) as ->
      by (apply ltb_index; [lia|done|lia]).
    rewrite IH by (rewrite length_app; simpl; lia).
    destruct (_ <=? _); [|done].
    rewrite <- app_assoc. reflexivity.
Qed.

(** A positive finite size gives as many zeros as the least integer not
    below it, unless that is more than an array holds. *)
Lemma initArray_finite m e :
  bounded prec emax m e = true ->
  initArray (S754_finite false m e)
  = if ceilZ false m e <=? max_array_length
    then Some (replicate (Z.to_nat (ceilZ false m e)) zero) else None.
Proof.
  intros HB. unfold initArray.
  assert (0 < ceilZ false m e) as Hc.
  { pose proof (ltb_index 0 m e ltac:(lia) HB) as [H _]. apply H. reflexivity. }
  assert (0 < max_array_length) as Hmax by (unfold max_array_length; lia).
  rewrite (initArray_loop_finite m e) by (done || (cbn [push_budget length]; lia)).
  cbn [push_budget app].
  destruct (Z.leb_spec (ceilZ false m e) max_array_length); [|done].
  do 2 f_equal. lia.
Qed.

Lemma ceilZ_int m e n :
  bounded prec emax m e = true -> scaled (Zpos m) e = n * 2 ^ ofs ->
  ceilZ false m e = n.
Proof.
  intros HB Hs. pose proof ofs_pos as Hofs.
  pose proof (bounded_facts _ _ HB) as (He & _).
  unfold ceilZ, floorZ. cbn [negb cond_Zopp]. change (- Zpos m) with (Zneg m). unfold scaled in Hs.
  pose proof (pow2_pos ofs ltac:(lia)) as Hw.
  destruct (Z.leb_spec 0 e).
  - rewrite (pow2_split e ofs) in Hs by lia.
    set (w := 2 ^ ofs) in *. set (P := 2 ^ e) in *. clearbody w P. nia.
  - assert (2 ^ ofs = 2 ^ (- e) * 2 ^ (e + ofs)) as Hsplit
      by (rewrite <- pow2_split by lia; f_equal; lia).
    rewrite Hsplit in Hs.
    pose proof (pow2_pos (- e) ltac:(lia)) as Hp.
    pose proof (pow2_pos (e + ofs) ltac:(lia)) as Hu.
    set (P := 2 ^ (- e)) in *. set (u := 2 ^ (e + ofs)) in *.
    assert (Zpos m = n * P) as Hm by (clearbody P u; nia).
    replace (Zneg m) with (- n * P) by lia.
    rewrite Z.div_mul by lia. lia.
Qed.

(** X1. For an integer [n] from 0 to [2^32 - 1], [initArray(n)] returns an
    array of exactly [n] zeros. *)
Theorem initArray_zeros n :
  0 <= n <= 2 ^ 32 - 1 ->
  initArray (of_Z n) = Some (replicate (Z.to_nat n) zero).
Proof.
  intros Hn. destruct (Z.eq_dec n 0) as [->|Hn0]; [reflexivity|].
  destruct (of_Z_exact n ltac:(lia)) as (m & e & -> & HB & Hs).
  rewrite initArray_finite by done.
  rewrite (ceilZ_int m e n) by done.
  destruct (Z.leb_spec n max_array_length) as [|Hgt]; [done|].
  unfold max_array_length in Hgt. lia.
Qed.

Lemma initArray_zeros_witness :
  initArray (of_Z 3) = Some [zero; zero; zero].
Proof. apply (initArray_zeros 3). lia. Defined.

(** X2. For a size that is not above zero (a negative number, either zero,
    [NaN]), [initArray] returns the empty array: the loop is not entered. *)
Theorem initArray_not_positive x :
  ltb zero x = false -> initArray x = Some [].
Proof.
  intros Hx. unfold initArray.
  destruct (push_budget x); cbn [initArray_loop length];
    change (of_Z (Z.of_nat 0)) with zero; rewrite Hx; reflexivity.
Qed.

Lemma initArray_not_positive_witness :
  initArray NaN = Some [] /\ initArray (of_Z (-2)) = Some []
  /\ initArray (S754_zero true) = Some [].
Proof.
  split; [|split].
  - apply (initArray_not_positive NaN). reflexivity.
  - apply (initArray_not_positive (of_Z (-2))). reflexivity.
  - apply (initArray_not_positive (S754_zero true)). reflexivity.
Defined.

(** X3. For a rating [r] with [0 < r <= 5], with [n] the integer
    [Math.round(2 * r)], between 0 and 10, [addStarIcons] sets [n / 2] full
    stars, a half star when [n] is odd, and the empty stars that make five. *)
Theorem addStarIcons_half_steps obj r :
  rating obj = Some r ->
  valid r = true -> ltb zero r = true -> leb r five = true ->
  exists n, 0 <= n <= 10
    /\ Math_round (mul two r) = (if n =? 0 then S754_zero false else of_Z n)
    /\ addStarIcons obj
       = Some (mkRated (Some r)
                 (Some (replicate (Z.to_nat (n / 2)) zero))
                 (Some (replicate (Z.to_nat (n mod 2)) zero))
                 (Some (replicate (Z.to_nat (5 - n / 2 - n mod 2)) zero))).
Proof.
  intros Hr Hv H0 H5.
  destruct (stars_out_of_ten r Hv H0 H5) as (n & Hn & Hround).
  exists n. split; [exact Hn|]. split; [exact Hround|].
  assert (truthy r = true) as Ht
    by (destruct r as [[]|[]| |[] m e]; try discriminate; reflexivity).
  unfold addStarIcons. rewrite Hr, Ht. cbn [negb]. rewrite Hround. clear Hround.
  assert (exists k, (k <= 10)%nat /\ n = Z.of_nat k) as (k & Hk & ->)
    by (exists (Z.to_nat n); lia).
  do 11 (destruct k as [|k]; [vm_compute; reflexivity|]).
  lia.
Qed.

Lemma addStarIcons_half_steps_witness :
  exists n, 0 <= n <= 10
    /\ Math_round (mul two (of_decimal false 47 (-1)))
       = (if n =? 0 then S754_zero false else of_Z n)
    /\ addStarIcons (mkRated (Some (of_decimal false 47 (-1))) None None None)
       = Some (mkRated (Some (of_decimal false 47 (-1)))
                 (Some (replicate (Z.to_nat (n / 2)) zero))
                 (Some (replicate (Z.to_nat (n mod 2)) zero))
                 (Some (replicate (Z.to_nat (5 - n / 2 - n mod 2)) zero))).
Proof.
  apply (addStarIcons_half_steps
           (mkRated (Some (of_decimal false 47 (-1))) None None None));
    reflexivity.
Defined.

(** X4. [addStarIcons] on an object it has returned changes nothing: the
    stars depend on the rating only, which the function does not change. *)
Theorem addStarIcons_again obj obj' :
  addStarIcons obj = Some obj' -> addStarIcons obj' = Some obj'.
Proof.
  unfold addStarIcons. cbv zeta.
  destruct (rating obj) as [r|] eqn:Hr; [|intros [= <-]; by rewrite Hr].
  destruct (negb (truthy r)) eqn:Ht; [intros [= <-]; by rewrite Hr, Ht|].
  set (starsOutOfTen := Math_round (mul two r)).
  set (fullStars := Math_floor (div starsOutOfTen two)).
  set (halfStars := if negb (eqb fullStars (div starsOutOfTen two)) then one else zero).
  set (emptyStars := sub (sub five fullStars) halfStars).
  destruct (initArray fullStars) as [full|] eqn:Hf; [|discriminate].
  destruct (initArray halfStars) as [half|] eqn:Hh; [|discriminate].
  destruct (initArray emptyStars) as [empty|] eqn:He; [|discriminate].
  intros [= <-]. cbn [rating]. rewrite Ht.
  fold starsOutOfTen. fold fullStars. fold halfStars. fold emptyStars.
  by rewrite Hf, Hh, He.
Qed.

Lemma addStarIcons_again_witness :
  addStarIcons (mkRated (Some (of_decimal false 47 (-1)))
                  (Some [zero; zero; zero; zero]) (Some [zero]) (Some []))
  = Some (mkRated (Some (of_decimal false 47 (-1)))
            (Some [zero; zero; zero; zero]) (Some [zero]) (Some [])).
Proof.
  apply (addStarIcons_again (mkRated (Some (of_decimal false 47 (-1))) None None None)).
  reflexivity.
Defined.

End ArrayFacts.


Section LabelFacts.

Import Num Helpers Hours.

Lemma underscores_to_spaces_app a b :
  Str.underscores_to_spaces (a +:+ b)
  = Str.underscores_to_spaces a +:+ Str.underscores_to_spaces b.
Proof.
  induction a as [|c a IH]; [done|].
  change (String (if Ascii.eqb c "_" then " "%char else c)
            (Str.underscores_to_spaces (a +:+ b))
          = String (if Ascii.eqb c "_" then " "%char else c)
              (Str.underscores_to_spaces a +:+ Str.underscores_to_spaces b)).
  by rewrite IH.
Qed.

Lemma underscores_to_spaces_again s :
  Str.underscores_to_spaces (Str.underscores_to_spaces s) = Str.underscores_to_spaces s.
Proof.
  induction s as [|c s IH]; [done|]. cbn [Str.underscores_to_spaces]. rewrite IH.
  destruct (Ascii.eqb_spec c "_") as [->|Hc]; [reflexivity|].
  destruct (Ascii.eqb_spec c "_"); done.
Qed.

Lemma underscores_to_spaces_none s :
  Str.contains "_" (Str.underscores_to_spaces s) = false.
Proof.
  induction s as [|c s IH]; [done|]. cbn [Str.underscores_to_spaces Str.contains].
  rewrite IH, orb_false_r.
  destruct (Ascii.eqb_spec c "_") as [->|Hc]; [reflexivity|].
  destruct (Ascii.eqb_spec "_" c); congruence.
Qed.

Lemma underscores_to_spaces_length s :
  String.length (Str.underscores_to_spaces s) = String.length s.
Proof. induction s as [|c s IH]; [done|]. simpl. by rewrite IH. Qed.

(** The first letter, once capitalized, stays as it is. *)
Lemma capitalized_head c r :
  let t := Str.underscores_to_spaces (Str.toUpperCase_char c) in
  Str.underscores_to_spaces (Str.capitalize (t +:+ r)) = t +:+ Str.underscores_to_spaces r.
Proof.
  destruct c as [[] [] [] [] [] [] [] []]; reflexivity.
Qed.

(** X5. [formatPlaceType] leaves no underscore in its result, and applied
    to its result it changes nothing. *)
Theorem formatPlaceType_again str :
  formatPlaceType (formatPlaceType str) = formatPlaceType str
  /\ Str.contains "_" (formatPlaceType str) = false.
Proof.
  unfold formatPlaceType. split; [|apply underscores_to_spaces_none].
  destruct str as [|c s]; [reflexivity|]. cbn [Str.capitalize].
  rewrite underscores_to_spaces_app. rewrite capitalized_head.
  by rewrite underscores_to_spaces_again.
Qed.

Lemma collapse_from pre : forall cur rest fuel,
  (length rest <= fuel)%nat ->
  collapse fuel (S (length pre)) (pre ++ cur :: rest) = pre ++ merge_runs cur rest.
Proof.
  intros cur rest. revert pre cur.
  induction rest as [|next rest IH]; intros pre cur fuel Hf.
  - destruct fuel; simpl; [done|].
    rewrite length_app. simpl.
    destruct (Nat.ltb_spec (S (length pre)) (length pre + 1)); [lia|done].
  - destruct fuel as [|fuel]; [simpl in Hf; lia|].
    cbn [collapse]. rewrite length_app. cbn [length].
    destruct (Nat.ltb_spec (S (length pre)) (length pre + S (S (length rest)))); [|lia].
    replace (S (length pre) - 1)%nat with (length pre) by lia.
    rewrite (lookup_app_r pre) by lia. rewrite Nat.sub_diag. cbn [lookup list_lookup].
    rewrite (lookup_app_r pre) by lia.
    replace (S (length pre) - length pre)%nat with 1%nat by lia. cbn [lookup list_lookup].
    cbn [merge_runs]. unfold extend_label.
    destruct (hours_eqb (hours cur) (hours next)).
    + rewrite insert_app_r_alt by lia. rewrite Nat.sub_diag. cbn [insert list_insert].
      match goal with |- context [mkDayHours ?d ?h] => set (cur' := mkDayHours d h) end.
      replace (pre ++ cur' :: next :: rest) with ((pre ++ [cur']) ++ next :: rest)
        by (by rewrite <- app_assoc).
      replace (S (length pre)) with (length (pre ++ [cur']))
        by (rewrite length_app; simpl; lia).
      rewrite delete_middle. rewrite <- app_assoc. cbn [app].
      replace (length (pre ++ [cur'])) with (S (length pre))
        by (rewrite length_app; simpl; lia).
      apply IH. simpl in Hf; lia.
    + replace (pre ++ cur :: next :: rest) with ((pre ++ [cur]) ++ next :: rest)
        by (by rewrite <- app_assoc).
      replace (S (S (length pre))) with (S (length (pre ++ [cur])))
        by (rewrite length_app; simpl; lia).
      rewrite IH by (simpl in Hf; lia). by rewrite <- app_assoc.
Qed.

Lemma collapse_merge_runs first rest :
  collapse (length (first :: rest)) 1 (first :: rest) = merge_runs first rest.
Proof. apply (collapse_from [] first rest). simpl; lia. Qed.

Lemma hours_eqb_eq a b : hours_eqb a b = true <-> a = b.
Proof.
  destruct a as [x|], b as [y|]; simpl; try (split; congruence).
  rewrite String.eqb_eq. split; congruence.
Qed.

Lemma merge_runs_hours : forall rest cur,
  map hours (merge_runs cur rest) = drop_repeats (hours cur) (map hours rest).
Proof.
  induction rest as [|next rest IH]; intros cur; simpl; [done|].
  destruct (hours_eqb (hours cur) (hours next)); simpl; by rewrite IH.
Qed.

Lemma merge_runs_head : forall rest cur,
  exists d tl, merge_runs cur rest = mkDayHours d (hours cur) :: tl.
Proof.
  induction rest as [|next rest IH]; intros cur; simpl.
  - destruct cur; eauto.
  - destruct (hours_eqb (hours cur) (hours next)).
    + destruct (IH (mkDayHours (extend_label (days cur) (days next)) (hours cur)))
        as (d & tl & ->). eauto.
    + destruct cur; eauto.
Qed.

Lemma merge_runs_neighbours : forall rest cur i a b,
  merge_runs cur rest !! i = Some a -> merge_runs cur rest !! S i = Some b ->
  hours a <> hours b.
Proof.
  induction rest as [|next rest IH]; intros cur i a b; simpl.
  - destruct i; simpl; congruence.
  - destruct (hours_eqb (hours cur) (hours next)) eqn:E.
    + apply IH.
    + destruct i as [|i]; simpl.
      * destruct (merge_runs_head rest next) as (d & tl & ->). simpl.
        intros [= <-] [= <-]. simpl. intros Heq.
        apply hours_eqb_eq in Heq. congruence.
      * apply IH.
Qed.

Lemma merge_runs_length : forall rest cur,
  (1 <= length (merge_runs cur rest) <= S (length rest))%nat.
Proof.
  induction rest as [|next rest IH]; intros cur; simpl; [lia|].
  destruct (hours_eqb (hours cur) (hours next)); simpl.
  - specialize (IH (mkDayHours (extend_label (days cur) (days next)) (hours cur))). lia.
  - specialize (IH next). lia.
Qed.

(** X6. [parseDaysHours] returns a list, no longer than the weekday text
    and empty only when that is, in which no two neighbours have the same
    hours: its hours are those of the days, in order, without the ones that
    repeat the day before. *)
Theorem parseDaysHours_no_equal_neighbours openingHours texts :
  weekday_text openingHours = Some texts ->
  exists result,
    parseDaysHours openingHours = Some result /\
    (length result <= length texts)%nat /\
    (texts <> [] -> result <> []) /\
    (forall i a b, result !! i = Some a -> result !! S i = Some b ->
       hours a <> hours b) /\
    (forall first rest, map hours (map day_entry texts) = first :: rest ->
       map hours result = drop_repeats first rest).
Proof.
  intros Ht. unfold parseDaysHours. rewrite Ht. eexists; split; [reflexivity|].
  destruct texts as [|t texts].
  - simpl. repeat split; try done.
    all: try (intros i a b; destruct i; simpl; congruence).
  - cbn [map]. rewrite collapse_merge_runs.
    pose proof (merge_runs_length (map day_entry texts) (day_entry t)) as Hl.
    rewrite length_map in Hl.
    repeat split.
    + simpl; lia.
    + intros _ E. rewrite E in Hl. simpl in Hl. lia.
    + apply merge_runs_neighbours.
    + intros first rest [= <- <-]. apply merge_runs_hours.
Qed.

Lemma parseDaysHours_no_equal_neighbours_witness :
  exists result,
    parseDaysHours {| weekday_text := Some english_week |} = Some result
    /\ length result <= 7.
Proof.
  destruct (parseDaysHours_no_equal_neighbours
              {| weekday_text := Some english_week |} english_week eq_refl)
    as (result & H1 & H2 & _).
  exists result. split; [exact H1|exact H2].
Defined.

Lemma substitute_cons c t m b a :
  c <> "$"%char ->
  Str.substitute (String c t) m b a = String c (Str.substitute t m b a).
Proof.
  intros Hc.
  destruct c as [[] [] [] [] [] [] [] []]; try reflexivity. by destruct Hc.
Qed.

Lemma word_not_dollar c : Str.is_word c = true -> c <> "$"%char.
Proof. intros H ->. discriminate H. Qed.

Lemma word_not_hyphen c : Str.is_word c = true -> Ascii.eqb "-" c = false.
Proof.
  intros H. destruct (Ascii.eqb_spec "-" c) as [<-|]; [discriminate H|done].
Qed.

Lemma substitute_words t m b a :
  forallb Str.is_word (list_ascii_of_string t) = true -> Str.substitute t m b a = t.
Proof.
  induction t as [|c t IH]; [done|]. cbn [list_ascii_of_string forallb].
  intros [Hc Ht]%andb_true_iff.
  rewrite substitute_cons by by apply word_not_dollar. by rewrite IH.
Qed.

Lemma contains_words t :
  forallb Str.is_word (list_ascii_of_string t) = true -> Str.contains "-" t = false.
Proof.
  induction t as [|c t IH]; [done|]. cbn [list_ascii_of_string forallb Str.contains].
  intros [Hc Ht]%andb_true_iff. by rewrite word_not_hyphen, IH.
Qed.

Lemma contains_range a b : Str.contains "-" (a +:+ " - " +:+ b) = true.
Proof.
  induction a as [|c a IH]; [done|].
  change (Ascii.eqb "-" c || Str.contains "-" (a +:+ " - " +:+ b) = true).
  rewrite IH. apply orb_true_r.
Qed.

Lemma split_trailing_word_words w :
  forallb Str.is_word (list_ascii_of_string w) = true ->
  Str.split_trailing_word w = (EmptyString, w).
Proof.
  induction w as [|c w IH]; [done|]. cbn [list_ascii_of_string forallb].
  intros [Hc Hw]%andb_true_iff. cbn [Str.split_trailing_word].
  by rewrite IH, Hc.
Qed.

Lemma split_trailing_word_range a w :
  forallb Str.is_word (list_ascii_of_string w) = true ->
  Str.split_trailing_word (a +:+ " - " +:+ w) = (a +:+ " - ", w).
Proof.
  intros Hw. induction a as [|c a IH].
  - change (EmptyString +:+ " - " +:+ w) with (String " " (String "-" (String " " w))).
    cbn [Str.split_trailing_word].
    rewrite split_trailing_word_words by done. reflexivity.
  - change (String c a +:+ " - " +:+ w) with (String c (a +:+ " - " +:+ w)).
    cbn [Str.split_trailing_word]. rewrite IH.
    destruct a; reflexivity.
Qed.

Lemma string_app_assoc a b c : a +:+ b +:+ c = (a +:+ b) +:+ c.
Proof.
  induction a as [|x a IH]; [done|].
  change (String x (a +:+ b +:+ c) = String x ((a +:+ b) +:+ c)). by rewrite IH.
Qed.

Lemma plain_words s :
  plain s = true ->
  s <> EmptyString /\ forallb Str.is_word (list_ascii_of_string s) = true.
Proof.
  unfold plain. intros [Hn Hw]%andb_true_iff. split; [|done].
  intros ->. discriminate Hn.
Qed.

Lemma extend_label_range first last next :
  plain first = true -> plain_last last -> plain next = true ->
  extend_label (range first last) next = range first (Some next).
Proof.
  intros [_ Hf]%plain_words Hl [_ Hn]%plain_words. unfold extend_label.
  destruct last as [l|]; cbn [range].
  - apply plain_words in Hl as [Hne Hl].
    rewrite contains_range. unfold Str.replace_trailing_word.
    rewrite split_trailing_word_range by done.
    destruct l as [|c l]; [done|]. rewrite substitute_words by done.
    symmetry. apply string_app_assoc.
  - rewrite contains_words by done. reflexivity.
Qed.

Lemma merge_runs_group : forall rest first last h,
  plain first = true -> plain_last last ->
  Forall (fun d => plain (days d) = true) rest ->
  merge_runs (mkDayHours (range first last) h) rest = group_runs first last h rest.
Proof.
  induction rest as [|next rest IH]; intros first last h Hf Hl Hr; [done|].
  apply Forall_cons in Hr as [Hn Hr]. cbn [merge_runs group_runs hours days].
  destruct (hours_eqb h (hours next)).
  - rewrite extend_label_range by done. by apply IH.
  - f_equal. destruct next as [d hn]. apply (IH d None hn); done.
Qed.

(** X7. When the first three characters of every day name are word
    characters, each run of days with the same hours becomes one element
    labelled by its first and its last day, a single day keeping its own
    label. *)
Theorem parseDaysHours_plain_labels openingHours texts :
  weekday_text openingHours = Some texts ->
  Forall (fun text => plain (days (day_entry text)) = true) texts ->
  parseDaysHours openingHours = Some (grouped (map day_entry texts)).
Proof.
  intros Ht Hp. unfold parseDaysHours. rewrite Ht. f_equal.
  destruct texts as [|t texts]; [done|].
  cbn [map]. rewrite collapse_merge_runs. unfold grouped.
  apply Forall_cons in Hp as [Hd Hp].
  destruct (day_entry t) as [d h] eqn:E. cbn [days hours] in *.
  apply (merge_runs_group _ d None h); [done..|].
  by apply Forall_map.
Qed.

Lemma parseDaysHours_plain_labels_witness :
  parseDaysHours {| weekday_text := Some english_week |} =
  Some [ mkDayHours "Mon - Fri" (Some "9:00 AM - 5:00 PM");
         mkDayHours "Sat - Sun" (Some "Closed") ]%string.
Proof.
  apply (parseDaysHours_plain_labels {| weekday_text := Some english_week |} english_week).
  - reflexivity.
  - repeat constructor.
Defined.

End LabelFacts.


(** * More about the fetcher: what holds over every run *)

Section SetFacts.

Import Num Helpers Widget.

Local Set Warnings "-clear-no-such-hyp".

Lemma add_fields_elem fields : forall fetched f,
  f ∈ add_fields fields fetched <-> In f fields \/ f ∈ fetched.
Proof.
  unfold add_fields. induction fields as [|x fields IH]; intros fetched f; simpl.
  - tauto.
  - rewrite IH. set_solver.
Qed.

Lemma filter_one `{EqDecision A} (f g : A -> bool) (x : A) (l : list A) :
  NoDup l -> In x l -> f x = true -> g x = false ->
  (forall y, y <> x -> f y = g y) ->
  length (List.filter f l) = S (length (List.filter g l)).
Proof.
  intros Hnd Hin Hf Hg Hext. induction l as [|y l IH]; [done|].
  apply NoDup_cons in Hnd as [Hy Hnd]. cbn [List.filter].
  destruct (decide (y = x)) as [->|Hne].
  - rewrite Hf, Hg. cbn [length]. f_equal. f_equal.
    apply filter_ext_in. intros z Hz. apply Hext. intros ->.
    apply Hy. by apply list_elem_of_In.
  - rewrite (Hext y Hne). destruct Hin as [->|Hin]; [done|].
    destruct (g y); cbn [length]; rewrite IH; done.
Qed.

End SetFacts.

Section Counting.

Import Num Helpers Widget Calls.

Local Set Warnings "-clear-no-such-hyp".

Variable url_hostname : string -> option string.

Ltac state_fields :=
  cbn [placeIdsToDetails placeIdsToAutocompleteResults closures getDetails_calls
       awaiting setTimeout_calls armed callback_calls uncaught
       with_placeIdsToDetails with_closures with_getDetails_calls with_awaiting
       with_setTimeout_calls with_armed with_callback_calls with_uncaught].

Lemma size_fresh (X : gset nat) n :
  (forall i, i ∈ X -> i < n) -> size ({[n]} ∪ X) = S (size X).
Proof.
  intros H. rewrite size_union, size_singleton; [done|].
  intros i Hi%elem_of_singleton Hx. subst. apply H in Hx. lia.
Qed.

Lemma size_remove (X : gset nat) i : i ∈ X -> S (size (X ∖ {[i]})) = size X.
Proof.
  intros Hi. rewrite size_difference by set_solver. rewrite size_singleton.
  assert (size X ≠ 0); [|lia].
  intros H0. apply size_empty_inv in H0. set_solver.
Qed.

Lemma accounted_getDetails c st :
  wf st -> accounted (getDetails c st) <= S (accounted st).
Proof.
  intros [Ha _]. unfold getDetails, accounted.
  destruct (closures st !! c); [|lia]. state_fields.
  rewrite size_fresh by done. lia.
Qed.

Lemma accounted_processResult c result status random st :
  wf st -> accounted (processResult url_hostname c result status random st)
           <= S (accounted st).
Proof.
  intros [_ Ht]. unfold processResult, accounted.
  repeat case_match; state_fields; rewrite ?length_app; simpl; try lia.
  rewrite size_fresh by done. lia.
Qed.

Lemma accounted_step st ev :
  wf st ->
  accounted (step url_hostname st ev)
  <= accounted st + (if is_call ev then 1 else 0).
Proof.
  intros Hwf. pose proof Hwf as [Ha Ht].
  destruct ev as [placeId fields cb|i result status random|j]; cbn [step is_call].
  - unfold fetchPlaceDetails.
    destruct placeId as [|a s]; [lia|]. destruct fields as [fields|]; [|lia].
    set (pid := String a s).
    assert (forall st1 c r, wf st1 -> accounted st1 = accounted st ->
              accounted (processResult url_hostname c r OK zero st1)
              <= accounted st + 1) as Hnext1.
    { intros st1 c r Hwf1 Heq.
      pose proof (accounted_processResult c r OK zero st1 Hwf1). lia. }
    assert (forall st1 c, wf st1 -> accounted st1 = accounted st ->
              accounted (getDetails c st1) <= accounted st + 1) as Hnext2.
    { intros st1 c Hwf1 Heq. pose proof (accounted_getDetails c st1 Hwf1). lia. }
    destruct (placeIdsToDetails st !! pid); cbv zeta iota beta.
    all: case_match; [unfold accounted; state_fields; rewrite length_app; simpl; lia|].
    all: case_match; [apply Hnext1|apply Hnext2]; try done; by apply (wf_same st).
  - case_bool_decide as Hi; [|lia].
    destruct (getDetails_calls st !! i) as [[rq c]|]; [|lia].
    set (st1 := with_awaiting _ st).
    assert (wf st1) as Hwf1.
    { split; subst st1; state_fields; [|done]. intros i' Hi'. apply Ha. set_solver. }
    pose proof (accounted_processResult c result status random st1 Hwf1) as Hp.
    assert (S (accounted st1) = accounted st); [|lia].
    unfold accounted. subst st1. state_fields.
    pose proof (size_remove (awaiting st) i Hi). lia.
  - case_bool_decide as Hj; [|lia].
    destruct (setTimeout_calls st !! j) as [[c d]|]; [|lia].
    set (st1 := with_armed _ st).
    assert (wf st1) as Hwf1.
    { split; subst st1; state_fields; [done|]. intros j' Hj'. apply Ht. set_solver. }
    pose proof (accounted_getDetails c st1 Hwf1) as Hp.
    assert (S (accounted st1) = accounted st); [|lia].
    unfold accounted. subst st1. state_fields.
    pose proof (size_remove (armed st) j Hj). lia.
Qed.

Lemma wf_run evs : forall st, wf st -> wf (run url_hostname st evs).
Proof.
  induction evs as [|ev evs IH]; intros st Hwf; [done|].
  apply IH. by apply wf_step.
Qed.

Lemma accounted_run evs : forall st,
  wf st -> accounted (run url_hostname st evs) <= accounted st + calls_made evs.
Proof.
  induction evs as [|ev evs IH]; intros st Hwf; [simpl; lia|].
  change (run url_hostname st (ev :: evs))
    with (run url_hostname (step url_hostname st ev) evs).
  pose proof (IH _ (wf_step url_hostname st ev Hwf)).
  pose proof (accounted_step st ev Hwf).
  unfold calls_made in *. simpl. destruct (is_call ev); simpl; lia.
Qed.

(** X8. Over any run of the widget, the callbacks called, the requests
    awaiting an answer, the timers armed and the exceptions together are at
    most the calls of [fetchPlaceDetails] made: no call leads to more than
    one of them. *)
Theorem callbacks_bounded places evs :
  let st := run url_hostname (initializePlaceDetails places) evs in
  length (callback_calls st) + size (awaiting st) + size (armed st) + uncaught st
  <= calls_made evs.
Proof.
  intros st. pose proof (accounted_run evs _ (wf_initial places)) as H.
  unfold accounted in H at 1. fold st in H.
  replace (accounted (initializePlaceDetails places)) with 0 in H; [lia|].
  unfold accounted. cbn [initializePlaceDetails callback_calls awaiting armed uncaught length].
  rewrite size_empty. lia.
Qed.

End Counting.

Section Coherence.

Import Num Helpers Widget Calls.

Local Set Warnings "-clear-no-such-hyp".

Variable url_hostname : string -> option string.

Ltac state_fields :=
  cbn [placeIdsToDetails placeIdsToAutocompleteResults closures getDetails_calls
       awaiting setTimeout_calls armed callback_calls uncaught
       with_placeIdsToDetails with_closures with_getDetails_calls with_awaiting
       with_setTimeout_calls with_armed with_callback_calls with_uncaught].

Ltac state_fields_in H :=
  cbn [placeIdsToDetails placeIdsToAutocompleteResults closures getDetails_calls
       awaiting setTimeout_calls armed callback_calls uncaught
       with_placeIdsToDetails with_closures with_getDetails_calls with_awaiting
       with_setTimeout_calls with_armed with_callback_calls with_uncaught] in H.

Lemma keeps_placeId_and_then o f :
  keeps_placeId f ->
  placeId (outcome_place (and_then o f)) = placeId (outcome_place o).
Proof. intros Hf. destruct o; simpl; [apply Hf|done]. Qed.

Ltac keeps_id := unfold keeps_placeId; intros; repeat (simpl; case_match); reflexivity.

Lemma merge_placeId result p :
  placeId (outcome_place (merge url_hostname result p)) = placeId p.
Proof.
  unfold merge.
  rewrite keeps_placeId_and_then.
  2:{ intros q. unfold merge_reviews. rewrite keeps_placeId_and_then by keeps_id. keeps_id. }
  rewrite keeps_placeId_and_then by (unfold merge_rating; keeps_id).
  rewrite keeps_placeId_and_then.
  2:{ intros q. unfold merge_contact. rewrite keeps_placeId_and_then by keeps_id. keeps_id. }
  rewrite keeps_placeId_and_then by (unfold merge_url; keeps_id).
  rewrite keeps_placeId_and_then by (unfold merge_types; keeps_id).
  unfold merge_basic. keeps_id.
Qed.


Lemma coherent_initial places : coherent (initializePlaceDetails places).
Proof.
  split; [|split].
  - unfold initializePlaceDetails. cbn [placeIdsToDetails].
    assert (forall m : gmap string place,
              (forall id p, m !! id = Some p -> placeId p = id) ->
              forall id p,
                foldl (fun m p => <[placeId p := set_fetchedFields {["place_id"]} p]> m)
                  m places !! id = Some p -> placeId p = id) as H.
    { induction places as [|q places IH]; intros m Hm; simpl; [exact Hm|].
      apply IH. intros id p. destruct (decide (placeId q = id)) as [<-|Hne].
      - rewrite lookup_insert_eq. by intros [= <-].
      - rewrite lookup_insert_ne by done. apply Hm. }
    apply H. intros id p. by rewrite lookup_empty.
  - intros c cl. cbn. by rewrite lookup_nil.
  - intros i rq c. cbn. by rewrite lookup_nil.
Qed.

Lemma coherent_getDetails c st : coherent st -> coherent (getDetails c st).
Proof.
  intros (K1 & K2 & K3). unfold getDetails.
  destruct (closures st !! c) as [cl|] eqn:Hc; [|done].
  split; [|split]; state_fields; [done..|].
  intros i rq c'. rewrite lookup_app_Some. intros [Hi|[_ Hi]]; [eauto|].
  apply list_lookup_singleton_Some in Hi as [_ [= <- <-]]. eauto.
Qed.

(** What [processResult] does to the cache and to the callbacks. *)
Lemma processResult_callback c result status random st :
  coherent st ->
  let st' := processResult url_hostname c result status random st in
  coherent st'
  /\ (callback_calls st' = callback_calls st
      \/ exists cl q p,
           closures st !! c = Some cl /\ status = OK
           /\ placeIdsToDetails st !! cl_place cl = Some q
           /\ callback_calls st' = callback_calls st ++ [(callback cl, p)]
           /\ placeIdsToDetails st' !! cl_place cl = Some p
           /\ placeId p = cl_place cl
           /\ forall f, f ∈ fetchedFields p
                        <-> In f (missingFields cl) \/ f ∈ fetchedFields q).
Proof.
  intros (K1 & K2 & K3) st'. subst st'. unfold processResult.
  destruct (closures st !! c) as [cl|] eqn:Hc; [|by split; [|left]].
  destruct (K2 c cl Hc) as [Hrq [q Hq]].
  destruct (negb (status_eqb status OK)) eqn:Hst.
  { destruct (_ && _); [|by split; [|left]]. split; [|by left].
    split; [|split]; state_fields; [done| |].
    - intros c' cl'. destruct (decide (c = c')) as [<-|Hne].
      + rewrite list_lookup_insert_eq by (by eapply lookup_lt_Some).
        intros [= <-]. cbn. eauto.
      + rewrite list_lookup_insert_ne by done. apply K2.
    - intros i rq c' Hi. destruct (K3 i rq c' Hi) as (cl' & Hcl' & Hr).
      destruct (decide (c = c')) as [<-|Hne].
      + rewrite list_lookup_insert_eq by (by eapply lookup_lt_Some).
        eexists. split; [done|]. cbn. congruence.
      + rewrite list_lookup_insert_ne by done. eauto. }
  assert (status = OK) as -> by (by destruct status).
  rewrite Hq.
  pose proof (merge_placeId result q) as Hid.
  pose proof (merge_fetchedFields url_hostname result q) as Hff.
  pose proof (K1 _ _ Hq) as Hqid.
  assert (forall p', placeId p' = cl_place cl ->
            coherent (with_placeIdsToDetails (<[cl_place cl := p']> (placeIdsToDetails st)) st))
    as Hins.
  { intros p' Hp'. split; [|split]; state_fields; [| |done].
    - intros id p. destruct (decide (cl_place cl = id)) as [<-|Hne].
      + rewrite lookup_insert_eq. by intros [= <-].
      + rewrite lookup_insert_ne by done. apply K1.
    - intros c' cl' Hc'. destruct (K2 c' cl' Hc') as [? ?]. split; [done|].
      by apply lookup_insert_is_Some'; right. }
  destruct (merge url_hostname result q) as [p'|p']; cbn [outcome_place] in Hid, Hff.
  - split.
    + destruct (Hins (set_fetchedFields (add_fields (missingFields cl) (fetchedFields p')) p'))
        as (J1 & J2 & J3); [cbn; congruence|].
      split; [|split]; state_fields; done.
    + right. exists cl, q. eexists. split; [done|]. split; [done|]. split; [done|].
      state_fields. split; [reflexivity|]. rewrite lookup_insert_eq.
      split; [reflexivity|]. split; [cbn; congruence|].
      intros f. cbn [fetchedFields set_fetchedFields]. rewrite add_fields_elem.
      by rewrite Hff.
  - split; [|by left].
    destruct (Hins p') as (J1 & J2 & J3); [congruence|].
    split; [|split]; state_fields; done.
Qed.

Lemma coherent_processResult c result status random st :
  coherent st -> coherent (processResult url_hostname c result status random st).
Proof. intros H. by apply processResult_callback. Qed.

(** The state a call leaves to its closure. *)
Lemma coherent_closure st pid request cb :
  coherent st -> rq_placeId request = pid ->
  coherent
    (with_closures (closures st ++ [mkClosure pid request O cb])
       (match placeIdsToDetails st !! pid with
        | Some _ => st
        | None => with_placeIdsToDetails
                    (<[pid := new_place pid]> (placeIdsToDetails st)) st
        end)).
Proof.
  intros (K1 & K2 & K3) Hrq.
  set (st0 := match placeIdsToDetails st !! pid with Some _ => st | None => _ end).
  assert (closures st0 = closures st) as Hcl
    by (subst st0; by destruct (placeIdsToDetails st !! pid)).
  assert (getDetails_calls st0 = getDetails_calls st) as Hgd
    by (subst st0; by destruct (placeIdsToDetails st !! pid)).
  assert (is_Some (placeIdsToDetails st0 !! pid)) as Hpid.
  { subst st0. destruct (placeIdsToDetails st !! pid) eqn:E; [by rewrite E|].
    state_fields. by rewrite lookup_insert_eq. }
  assert (forall id, is_Some (placeIdsToDetails st !! id) ->
                     is_Some (placeIdsToDetails st0 !! id)) as Hkeep.
  { intros id Hid. subst st0. destruct (placeIdsToDetails st !! pid) eqn:E; [done|].
    state_fields. by apply lookup_insert_is_Some'; right. }
  assert (forall id p, placeIdsToDetails st0 !! id = Some p -> placeId p = id) as J1.
  { subst st0. destruct (placeIdsToDetails st !! pid) eqn:E; [done|]. state_fields.
    intros id p. destruct (decide (pid = id)) as [<-|Hne].
    - rewrite lookup_insert_eq. by intros [= <-].
    - rewrite lookup_insert_ne by done. apply K1. }
  split; [|split]; state_fields; rewrite ?Hcl, ?Hgd; [done| |].
  - intros c cl. rewrite lookup_app_Some. intros [Hc|[_ Hc]].
    + destruct (K2 c cl Hc). eauto.
    + apply list_lookup_singleton_Some in Hc as [_ <-]. cbn. done.
  - intros i rq c Hi. destruct (K3 i rq c Hi) as (cl & Hc & Hr).
    exists cl. split; [|done]. by apply lookup_app_l_Some.
Qed.

Lemma coherent_step st ev : coherent st -> coherent (step url_hostname st ev).
Proof.
  intros Hco. destruct ev as [placeId fields cb|i result status random|j]; cbn [step].
  - unfold fetchPlaceDetails.
    destruct placeId as [|a s]; [done|]. destruct fields as [fields|]; [|done].
    set (pid := String a s).
    destruct (placeIdsToDetails st !! pid) as [p|] eqn:Hp; cbv zeta iota beta.
    + case_match; [by destruct Hco as (? & ? & ?)|].
      match goal with |- context [mkClosure pid ?r O cb] =>
        pose proof (coherent_closure st pid r cb Hco eq_refl) as H1 end.
      rewrite Hp in H1.
      case_match; [by apply coherent_processResult|by apply coherent_getDetails].
    + match goal with |- context [mkClosure pid ?r O cb] =>
        pose proof (coherent_closure st pid r cb Hco eq_refl) as H1 end.
      rewrite Hp in H1.
      case_match.
      { destruct H1 as (J1 & J2 & J3). split; [|split]; state_fields.
        - state_fields_in J1. exact J1.
        - intros c cl Hc. apply (J2 c cl). state_fields. by apply lookup_app_l_Some.
        - intros i rq c Hi. destruct Hco as (_ & _ & K3). eauto. }
      case_match; [by apply coherent_processResult|by apply coherent_getDetails].
  - repeat case_match; try done. apply coherent_processResult.
    destruct Hco as (? & ? & ?). by split; [|split].
  - repeat case_match; try done. apply coherent_getDetails.
    destruct Hco as (? & ? & ?). by split; [|split].
Qed.

Lemma coherent_run evs : forall st, coherent st -> coherent (run url_hostname st evs).
Proof.
  induction evs as [|ev evs IH]; intros st H; [done|].
  apply IH. by apply coherent_step.
Qed.

Lemma getDetails_callbacks c st :
  callback_calls (getDetails c st) = callback_calls st.
Proof. unfold getDetails. by case_match. Qed.

Lemma step_callback st ev :
  coherent st ->
  let st' := step url_hostname st ev in
  callback_calls st' = callback_calls st
  \/ exists cb p,
       callback_calls st' = callback_calls st ++ [(cb, p)]
       /\ placeIdsToDetails st' !! placeId p = Some p
       /\ asked_for st ev cb p.
Proof.
  intros Hco st'. subst st'.
  destruct ev as [pid fields cb|i result status random|j]; cbn [step].
  - unfold fetchPlaceDetails.
    destruct pid as [|a s]; [by left|]. destruct fields as [fields|]; [|by left].
    set (pid := String a s).
    pose proof (coherent_closure st pid) as Hcc.
    assert (forall p0, placeId p0 = pid ->
              forall st1, placeIdsToDetails st1 !! pid = Some p0 ->
              let missing := List.filter
                (fun field => negb (bool_decide (field ∈ fetchedFields p0))) fields in
              forall stc,
                stc = with_closures
                        (closures st1 ++ [mkClosure pid (mkRequest pid missing) O cb]) st1 ->
                coherent stc -> callback_calls st1 = callback_calls st ->
                let st' :=
                  if (length missing =? 0)%nat
                  then with_callback_calls (callback_calls st1 ++ [(cb, p0)]) st1
                  else match
                         match placeIdsToAutocompleteResults stc with
                         | Some results => results !! pid
                         | None => None
                         end
                       with
                       | Some r => processResult url_hostname (length (closures st1)) r OK zero stc
                       | None => getDetails (length (closures st1)) stc
                       end in
                callback_calls st' = callback_calls st
                \/ exists cb' p,
                     callback_calls st' = callback_calls st ++ [(cb', p)]
                     /\ placeIdsToDetails st' !! placeId p = Some p
                     /\ asked_for st (Call pid (Some fields) cb) cb' p) as Hmain.
    { intros p0 Hp0 st1 Hst1 missing stc -> Hstc Hcb st'. subst st'.
      destruct (Nat.eqb_spec (length missing) 0) as [Hlen|Hlen].
      - right. exists cb, p0. state_fields. rewrite Hcb. split; [done|].
        rewrite Hp0. split; [done|]. cbn [asked_for]. split; [done|]. split; [done|].
        intros f Hf. destruct (decide (f ∈ fetchedFields p0)) as [|Hn]; [done|exfalso].
        assert (In f missing) as Hin.
        { apply filter_In. split; [done|]. by rewrite bool_decide_eq_false_2. }
        destruct missing; [done|simpl in Hlen; lia].
      - destruct (match placeIdsToAutocompleteResults _ with Some _ => _ | None => _ end)
          as [r|].
        + destruct (processResult_callback (length (closures st1)) r OK zero _ Hstc)
            as [_ [Hsame|(cl & q & p & Hcl & _ & Hq & Hcalls & Hp & Hpid & Hf)]].
          * left. rewrite Hsame. state_fields. done.
          * right. state_fields_in Hcl.
            rewrite lookup_app_r, Nat.sub_diag in Hcl by lia. injection Hcl as <-.
            cbn [cl_place callback missingFields cl_request rq_fields] in *.
            state_fields_in Hq. rewrite Hst1 in Hq. injection Hq as <-.
            exists cb, p. rewrite Hcalls. state_fields. rewrite Hcb.
            split; [done|]. rewrite Hpid. split; [done|].
            cbn [asked_for]. split; [done|]. split; [done|].
            intros f Hfin. apply Hf.
            destruct (decide (f ∈ fetchedFields p0)) as [|Hn]; [by right|left].
            apply filter_In. split; [done|]. by rewrite bool_decide_eq_false_2.
        + left. rewrite getDetails_callbacks. state_fields. done. }
    destruct Hco as (K1 & K2 & K3).
    destruct (placeIdsToDetails st !! pid) as [p|] eqn:Hp; cbv zeta iota beta.
    + eapply (Hmain p (K1 _ _ Hp) st Hp); [reflexivity| |done].
      specialize (Hcc (mkRequest pid
        (List.filter (fun field => negb (bool_decide (field ∈ fetchedFields p))) fields))
        cb (conj K1 (conj K2 K3)) eq_refl).
      try rewrite Hp in Hcc. exact Hcc.
    + eapply (Hmain (new_place pid) eq_refl
                (with_placeIdsToDetails (<[pid := new_place pid]> (placeIdsToDetails st)) st));
        [state_fields; by rewrite lookup_insert_eq|reflexivity| |done].
      specialize (Hcc (mkRequest pid
        (List.filter (fun field =>
           negb (bool_decide (field ∈ fetchedFields (new_place pid)))) fields))
        cb (conj K1 (conj K2 K3)) eq_refl).
      try rewrite Hp in Hcc. exact Hcc.
  - case_bool_decide as Hi; [|by left].
    destruct (getDetails_calls st !! i) as [[rq c]|] eqn:Hlog; [|by left].
    set (st1 := with_awaiting _ st).
    assert (coherent st1) as Hco1 by (destruct Hco as (? & ? & ?); by split; [|split]).
    destruct (processResult_callback c result status random st1 Hco1)
      as [_ [Hsame|(cl & q & p & Hcl & -> & Hq & Hcalls & Hp & Hpid & Hf)]];
      [by left|right].
    exists (callback cl), p. split; [exact Hcalls|].
    destruct Hco as (K1 & K2 & K3).
    destruct (K3 i rq c Hlog) as (cl' & Hcl' & Hrq).
    assert (cl' = cl) as -> by (subst st1; state_fields_in Hcl; congruence).
    destruct (K2 c cl Hcl') as [Hrp _].
    split; [by rewrite Hpid|]. cbn [asked_for]. split; [done|].
    exists rq, c, cl. repeat split; try done; [congruence|].
    intros f Hfin. apply Hf. left. unfold missingFields. by rewrite Hrq.
  - left. repeat case_match; try done. by rewrite getDetails_callbacks.
Qed.

(** X9. Over any run of the widget, an event adds at most one callback
    call, and only a call or an answer with status [OK] adds one; the place
    handed over is the cache entry kept under its own identifier, that of
    the call or of the request answered, with every field of the call, or
    of the request, fetched. *)
Theorem callback_gets_what_was_asked places evs ev new :
  let st := run url_hostname (initializePlaceDetails places) evs in
  let st' := step url_hostname st ev in
  callback_calls st' = callback_calls st ++ new ->
  length new <= 1
  /\ forall cb p, In (cb, p) new ->
       placeIdsToDetails st' !! placeId p = Some p /\ asked_for st ev cb p.
Proof.
  intros st st' Hnew.
  assert (coherent st) as Hco by (apply coherent_run, coherent_initial).
  destruct (step_callback st ev Hco) as [Hsame|(cb & p & Hcalls & Hp & Ha)];
    fold st' in Hsame || fold st' in Hcalls, Hp.
  - rewrite Hsame in Hnew.
    assert (new = []) as ->
      by (apply (app_inv_head (callback_calls st)); by rewrite app_nil_r).
    split; [simpl; lia|]. intros ? ? [].
  - rewrite Hcalls in Hnew. apply app_inv_head in Hnew as <-.
    split; [simpl; lia|]. intros cb' p' [[= <- <-]|[]]. done.
Qed.

End Coherence.

Section Retries.

Import Num Helpers Widget Calls.

Local Set Warnings "-clear-no-such-hyp".

Variable url_hostname : string -> option string.

Ltac state_fields :=
  cbn [placeIdsToDetails placeIdsToAutocompleteResults closures getDetails_calls
       awaiting setTimeout_calls armed callback_calls uncaught
       with_placeIdsToDetails with_closures with_getDetails_calls with_awaiting
       with_setTimeout_calls with_armed with_callback_calls with_uncaught].

(** The counts depend on the two logs and the armed timers only. *)
Lemma counts_same st st' c :
  getDetails_calls st' = getDetails_calls st ->
  setTimeout_calls st' = setTimeout_calls st ->
  armed st' = armed st ->
  requests_of c st' = requests_of c st /\ timers_of c st' = timers_of c st
  /\ armed_of c st' = armed_of c st.
Proof.
  intros H1 H2 H3. unfold requests_of, timers_of, armed_of, armed_for.
  by rewrite H1, H2, H3.
Qed.

Lemma retries_counted_same st st' :
  getDetails_calls st' = getDetails_calls st ->
  setTimeout_calls st' = setTimeout_calls st ->
  armed st' = armed st -> closures st' = closures st ->
  retries_counted st -> retries_counted st'.
Proof.
  intros H1 H2 H3 H4 H c.
  destruct (counts_same st st' c H1 H2 H3) as (-> & -> & ->). rewrite H4. apply H.
Qed.

(** A request more for closure [c0]. *)
Lemma requests_of_getDetails c0 st c :
  is_Some (closures st !! c0) ->
  requests_of c (getDetails c0 st) = requests_of c st + (if c0 =? c then 1 else 0)
  /\ timers_of c (getDetails c0 st) = timers_of c st
  /\ armed_of c (getDetails c0 st) = armed_of c st
  /\ closures (getDetails c0 st) = closures st.
Proof.
  intros [cl Hcl]. unfold getDetails. rewrite Hcl.
  unfold requests_of, timers_of, armed_of, armed_for. state_fields.
  rewrite List.filter_app, length_app. cbn [List.filter snd].
  destruct (c0 =? c); cbn [length]; repeat split; lia.
Qed.

(** A timer more, armed, for closure [c0]. *)
Lemma counts_timer c0 delay st st' c :
  wf st ->
  setTimeout_calls st' = setTimeout_calls st ++ [(c0, delay)] ->
  armed st' = {[length (setTimeout_calls st)]} ∪ armed st ->
  timers_of c st' = timers_of c st + (if c0 =? c then 1 else 0)
  /\ armed_of c st' = armed_of c st + (if c0 =? c then 1 else 0).
Proof.
  intros [_ Ht] H1 H2. unfold timers_of, armed_of. rewrite H1.
  rewrite List.filter_app, !length_app. cbn [List.filter fst length].
  split; [destruct (c0 =? c); cbn [length]; lia|].
  rewrite Nat.add_1_r, seq_S, List.filter_app, length_app. cbn [Nat.add List.filter].
  f_equal.
  - f_equal. apply filter_ext_in. intros j Hj%in_seq. unfold armed_for.
    rewrite H1, H2, lookup_app_l by lia. f_equal.
    apply bool_decide_ext. set_solver by lia.
  - unfold armed_for at 1. rewrite H1, H2.
    rewrite bool_decide_eq_true_2 by set_solver.
    rewrite lookup_app_r, Nat.sub_diag by lia. cbn [lookup list_lookup fst andb].
    by destruct (c0 =? c).
Qed.

(** The [j]-th timer, set for closure [c0], fires. *)
Lemma armed_of_fired j c0 delay st c :
  j ∈ armed st -> setTimeout_calls st !! j = Some (c0, delay) ->
  armed_of c st
  = armed_of c (with_armed (armed st ∖ {[j]}) st) + (if c0 =? c then 1 else 0).
Proof.
  intros Hj Hlog. unfold armed_of. state_fields.
  destruct (c0 =? c) eqn:Hc.
  - rewrite Nat.add_1_r. apply (filter_one _ _ j).
    + apply NoDup_seq.
    + apply in_seq. apply lookup_lt_Some in Hlog. lia.
    + unfold armed_for. rewrite bool_decide_eq_true_2 by done. rewrite Hlog. exact Hc.
    + unfold armed_for. state_fields. rewrite bool_decide_eq_false_2 by set_solver. done.
    + intros y Hy. unfold armed_for. state_fields. f_equal.
      apply bool_decide_ext. set_solver.
  - rewrite Nat.add_0_r. f_equal. apply filter_ext_in. intros y _.
    unfold armed_for. state_fields. destruct (decide (y = j)) as [->|Hy].
    + rewrite Hlog. cbn [fst]. rewrite Hc. by rewrite !andb_false_r.
    + f_equal. apply bool_decide_ext. set_solver.
Qed.

Lemma retries_counted_initial places : retries_counted (initializePlaceDetails places).
Proof. intros c. cbn. rewrite lookup_nil. repeat split; lia. Qed.

Lemma retries_counted_processResult c0 result status random st :
  wf st -> retries_counted st ->
  retries_counted (processResult url_hostname c0 result status random st).
Proof.
  intros Hwf H. unfold processResult.
  destruct (closures st !! c0) as [cl|] eqn:Hcl; [|done].
  destruct (negb (status_eqb status OK)).
  2:{ repeat case_match; try done; by apply (retries_counted_same st). }
  destruct (status_eqb status OVER_QUERY_LIMIT && (retryCount cl <? 5)) eqn:Hretry; [|done].
  apply andb_true_iff in Hretry as [_ Hlt%Nat.ltb_lt].
  intros c. destruct (H c) as (A & B & C).
  set (st' := with_closures _ _).
  destruct (counts_timer c0 (retry_delay (retryCount cl) random) st st' c Hwf eq_refl eq_refl)
    as [-> ->].
  assert (requests_of c st' = requests_of c st) as -> by reflexivity.
  subst st'. state_fields. rewrite length_insert.
  pose proof (lookup_lt_Some _ _ _ Hcl) as Hlen.
  destruct (Nat.eqb_spec c0 c) as [<-|Hne].
  - rewrite list_lookup_insert_eq by done. cbn [retryCount].
    rewrite Hcl in A, B. repeat split; lia.
  - rewrite list_lookup_insert_ne by done. repeat split; try done; lia.
Qed.

Lemma retries_counted_step st ev :
  wf st -> retries_counted st -> retries_counted (step url_hostname st ev).
Proof.
  intros Hwf H. pose proof Hwf as [Ha Ht].
  destruct ev as [placeId fields cb|i result status random|j]; cbn [step].
  - unfold fetchPlaceDetails.
    destruct placeId as [|a s]; [done|]. destruct fields as [fields|]; [|done].
    set (pid := String a s).
    assert (forall st0 cl,
              getDetails_calls st0 = getDetails_calls st ->
              setTimeout_calls st0 = setTimeout_calls st ->
              armed st0 = armed st -> closures st0 = closures st -> awaiting st0 = awaiting st ->
              retryCount cl = 0 ->
              let st1 := with_closures (closures st0 ++ [cl]) st0 in
              wf st1 /\ retries_counted st1
              /\ retries_counted (getDetails (length (closures st0)) st1)) as Hnew.
    { intros st0 cl E1 E2 E3 E4 E5 Hrc st1.
      assert (wf st1) as Hwf1 by (by apply (wf_same st)).
      assert (forall c,
                timers_of c st1
                = match closures st1 !! c with Some cl => retryCount cl | None => 0 end
                /\ match closures st1 !! c with Some cl => retryCount cl <= 5 | None => True end
                /\ requests_of c st1 + armed_of c st1
                   + (if length (closures st0) =? c then 1 else 0)
                   <= (if c <? length (closures st1) then 1 else 0) + timers_of c st1) as H1.
      { intros c. destruct (H c) as (A & B & C).
        destruct (counts_same st st1 c E1 E2 E3) as (-> & -> & ->).
        subst st1. state_fields. rewrite length_app, E4. cbn [length].
        destruct (lt_eq_lt_dec c (length (closures st))) as [[Hlt | ->] | Hgt].
        - rewrite lookup_app_l by done.
          destruct (Nat.ltb_spec c (length (closures st))); [|lia].
          destruct (Nat.ltb_spec c (length (closures st) + 1)); [|lia].
          destruct (Nat.eqb_spec (length (closures st)) c); [lia|].
          repeat split; try done. lia.
        - rewrite lookup_app_r, Nat.sub_diag by lia. cbn [lookup list_lookup].
          rewrite lookup_ge_None_2 in A, B by lia.
          destruct (Nat.ltb_spec (length (closures st)) (length (closures st))); [lia|].
          destruct (Nat.ltb_spec (length (closures st)) (length (closures st) + 1)); [|lia].
          rewrite Nat.eqb_refl. repeat split; lia.
        - rewrite lookup_ge_None_2 by (rewrite length_app; simpl; lia).
          rewrite lookup_ge_None_2 in A, B by lia.
          destruct (Nat.ltb_spec c (length (closures st))); [lia|].
          destruct (Nat.ltb_spec c (length (closures st) + 1)); [lia|].
          destruct (Nat.eqb_spec (length (closures st)) c); [lia|].
          repeat split; try done. lia. }
      split; [done|]. split.
      - intros c. destruct (H1 c) as (A & B & C). repeat split; try done. lia.
      - intros c. destruct (H1 c) as (A & B & C).
        destruct (requests_of_getDetails (length (closures st0)) st1 c) as (-> & -> & -> & ->).
        { subst st1. state_fields. rewrite lookup_app_r, Nat.sub_diag by lia. eauto. }
        repeat split; try done. lia. }
    destruct (placeIdsToDetails st !! pid) as [p|]; cbv zeta iota beta.
    + case_match; [by apply (retries_counted_same st)|].
      match goal with |- context [with_closures (closures st ++ [?cl]) st] =>
        destruct (Hnew st cl) as (W1 & R1 & R2); try done end.
      case_match; [by apply retries_counted_processResult|done].
    + case_match; [by apply (retries_counted_same st)|].
      match goal with |- context [with_closures (closures ?s ++ [?cl]) ?s] =>
        destruct (Hnew s cl) as (W1 & R1 & R2); try done end.
      case_match; [by apply retries_counted_processResult|done].
  - repeat case_match; try done. apply retries_counted_processResult.
    + split; state_fields; [|done]. intros i' Hi'. apply Ha. set_solver.
    + by apply (retries_counted_same st).
  - case_bool_decide as Hj; [|done].
    destruct (setTimeout_calls st !! j) as [[c0 delay]|] eqn:Hlog; [|done].
    set (st1 := with_armed _ st).
    destruct (closures st !! c0) as [cl|] eqn:Hcl.
    + intros c. destruct (H c) as (A & B & C).
      destruct (requests_of_getDetails c0 st1 c) as (-> & -> & -> & ->); [by eexists|].
      pose proof (armed_of_fired j c0 delay st c Hj Hlog) as Hf. fold st1 in Hf.
      assert (requests_of c st1 = requests_of c st) as -> by reflexivity.
      assert (timers_of c st1 = timers_of c st) as -> by reflexivity.
      subst st1. state_fields. repeat split; try done. lia.
    + unfold getDetails. subst st1. state_fields. rewrite Hcl.
      intros c. destruct (H c) as (A & B & C).
      pose proof (armed_of_fired j c0 delay st c Hj Hlog) as Hf.
      assert (requests_of c (with_armed (armed st ∖ {[j]}) st) = requests_of c st) as ->
        by reflexivity.
      assert (timers_of c (with_armed (armed st ∖ {[j]}) st) = timers_of c st) as ->
        by reflexivity.
      state_fields. repeat split; try done. lia.
Qed.

Lemma retries_counted_run evs : forall st,
  wf st -> retries_counted st -> retries_counted (run url_hostname st evs).
Proof.
  induction evs as [|ev evs IH]; intros st Hwf H; [done|].
  apply IH; [by apply wf_step|by apply retries_counted_step].
Qed.

(** X10. Over any run of the widget, whatever the answers and their order,
    the closure of a call sets at most five timers, as many as its
    [retryCount] tells, and at most one request more than its timers is
    sent for it: six at most. *)
Theorem requests_bounded places evs c :
  let st := run url_hostname (initializePlaceDetails places) evs in
  timers_of c st <= 5
  /\ requests_of c st <= S (timers_of c st)
  /\ match closures st !! c with
     | Some cl => retryCount cl = timers_of c st
     | None => requests_of c st = 0
     end.
Proof.
  intros st.
  destruct (retries_counted_run evs _ (wf_initial places) (retries_counted_initial places) c)
    as (A & B & C).
  fold st in A, B, C.
  destruct (closures st !! c) as [cl|] eqn:Hcl.
  - destruct (c <? length (closures st)); repeat split; lia.
  - apply lookup_ge_None in Hcl.
    destruct (Nat.ltb_spec c (length (closures st))); [lia|]. repeat split; lia.
Qed.

End Retries.

Section Exceptions.

Import Num Helpers Widget Calls.

Local Set Warnings "-clear-no-such-hyp".

Variable url_hostname : string -> option string.

Ltac state_fields :=
  cbn [placeIdsToDetails placeIdsToAutocompleteResults closures getDetails_calls
       awaiting setTimeout_calls armed callback_calls uncaught
       with_placeIdsToDetails with_closures with_getDetails_calls with_awaiting
       with_setTimeout_calls with_armed with_callback_calls with_uncaught].

Lemma keeps_name_and_then o f :
  keeps_name f -> name (outcome_place (and_then o f)) = name (outcome_place o).
Proof. intros Hf. destruct o; simpl; [apply Hf|done]. Qed.

Ltac keeps_nm := unfold keeps_name; intros; repeat (simpl; case_match); reflexivity.

Lemma merge_name result p :
  name (outcome_place (merge url_hostname result p))
  = if truthy_string (r_name result) then r_name result else name p.
Proof.
  unfold merge.
  rewrite keeps_name_and_then.
  2:{ intros q. unfold merge_reviews. rewrite keeps_name_and_then by keeps_nm. keeps_nm. }
  rewrite keeps_name_and_then by (unfold merge_rating; keeps_nm).
  rewrite keeps_name_and_then.
  2:{ intros q. unfold merge_contact. rewrite keeps_name_and_then by keeps_nm. keeps_nm. }
  rewrite keeps_name_and_then by (unfold merge_url; keeps_nm).
  rewrite keeps_name_and_then by (unfold merge_types; keeps_nm).
  unfold merge_basic. repeat (simpl; case_match); reflexivity.
Qed.

Lemma and_then_throws o f :
  (forall p, exists p', f p = Throw p') -> exists p', and_then o f = Throw p'.
Proof. intros Hf. destruct o as [p|p]; simpl; eauto. Qed.

Lemma throw_and_then o f p :
  o = Throw p -> and_then o f = Throw p.
Proof. by intros ->. Qed.

Lemma malformed_throws result p :
  malformed url_hostname result -> exists p', merge url_hostname result p = Throw p'.
Proof.
  intros [Ht|[(w & Hw & Hne & Hu)|(oh & Ho & Hwt)]]; unfold merge.
  - assert (exists p', merge_basic result p >>> merge_types result = Throw p') as [p' H].
    { apply and_then_throws. intros q. unfold merge_types. rewrite Ht. eauto. }
    rewrite H. simpl. eauto.
  - assert (exists p', merge_basic result p >>> merge_types result >>> merge_url result
                       >>> merge_contact url_hostname result = Throw p') as [p' H].
    { apply and_then_throws. intros q. unfold merge_contact. rewrite Hw.
      destruct w as [|a w]; [done|]. rewrite Hu. simpl. eauto. }
    rewrite H. simpl. eauto.
  - assert (exists p', merge_basic result p >>> merge_types result >>> merge_url result
                       >>> merge_contact url_hostname result = Throw p') as [p' H].
    { apply and_then_throws. intros q. unfold merge_contact.
      apply and_then_throws. intros q'. rewrite Ho. unfold parseDaysHours.
      rewrite Hwt. eauto. }
    rewrite H. simpl. eauto.
Qed.

(** X11. When the answer to an awaited request has status [OK] and a
    result that makes [processResult] throw, no callback is called and no
    field is marked fetched, so that the fields are requested again by the
    next call, while the name of the result is already written to the
    cached place. *)
Theorem exception_leaves_fields_unfetched places evs i result random :
  let st := run url_hostname (initializePlaceDetails places) evs in
  i ∈ awaiting st ->
  malformed url_hostname result ->
  let st' := step url_hostname st (Reply i result OK random) in
  callback_calls st' = callback_calls st
  /\ uncaught st' = S (uncaught st)
  /\ getDetails_calls st' = getDetails_calls st
  /\ setTimeout_calls st' = setTimeout_calls st
  /\ (forall id, fetched_of st' id = fetched_of st id)
  /\ exists rq c,
       getDetails_calls st !! i = Some (rq, c)
       /\ (truthy_string (r_name result) = true ->
           exists p, placeIdsToDetails st' !! rq_placeId rq = Some p
                     /\ name p = r_name result).
Proof.
  intros st Hi Hbad st'.
  assert (wf st) as [Hwa _] by (apply wf_run, wf_initial).
  assert (coherent st) as (K1 & K2 & K3) by (apply coherent_run, coherent_initial).
  destruct (lookup_lt_is_Some_2 (getDetails_calls st) i (Hwa i Hi)) as [[rq c] Hlog].
  destruct (K3 i rq c Hlog) as (cl & Hcl & Hrq).
  destruct (K2 c cl Hcl) as [Hpl [q Hq]].
  destruct (malformed_throws result q Hbad) as [p' Hthrow].
  pose proof (merge_fetchedFields url_hostname result q) as Hff.
  pose proof (merge_name result q) as Hnm.
  rewrite Hthrow in Hff, Hnm. cbn [outcome_place] in Hff, Hnm.
  subst st'. cbn [step]. rewrite bool_decide_eq_true_2 by done. rewrite Hlog.
  unfold processResult. state_fields. rewrite Hcl. cbn [status_eqb negb].
  rewrite Hq, Hthrow. state_fields.
  repeat split; try done.
  - intros id. unfold fetched_of. state_fields.
    destruct (decide (cl_place cl = id)) as [<-|Hne].
    + by rewrite lookup_insert_eq, Hq.
    + by rewrite lookup_insert_ne.
  - exists rq, c. split; [done|]. intros Ht. exists p'.
    rewrite <- Hrq, Hpl, lookup_insert_eq. split; [done|]. by rewrite Hnm, Ht.
Qed.

Lemma fetchPlaceDetails_cached st placeId fields cb p :
  placeId ≠ EmptyString ->
  placeIdsToDetails st !! placeId = Some p ->
  Forall (fun field => field ∈ fetchedFields p) fields ->
  fetchPlaceDetails url_hostname placeId (Some fields) cb st
  = with_callback_calls (callback_calls st ++ [(cb, p)]) st.
Proof.
  intros Hid Hp Hall. unfold fetchPlaceDetails.
  destruct placeId as [|a s]; [done|]. rewrite Hp.
  rewrite filter_none; [done|].
  eapply Forall_impl; [exact Hall|]. intros f Hf. simpl.
  by rewrite bool_decide_eq_true_2.
Qed.

(** X12. When a call that misses fields is answered with status [OK] and
    no exception, its callback gets the place with every field of the call
    fetched, and a second call for the same fields gets the same place at
    once, without a request to the service. *)
Theorem fetched_then_cached st placeId fields cb result random cb2 :
  placeId ≠ EmptyString ->
  Exists (fun field => field ∉ fetched_of st placeId) fields ->
  autocomplete_result st placeId = None ->
  let st1 := step url_hostname st (Call placeId (Some fields) cb) in
  let st2 := step url_hostname st1
               (Reply (length (getDetails_calls st)) result OK random) in
  let st3 := step url_hostname st2 (Call placeId (Some fields) cb2) in
  uncaught st2 = uncaught st ->
  exists p,
    placeIdsToDetails st2 !! placeId = Some p
    /\ Forall (fun field => field ∈ fetchedFields p) fields
    /\ callback_calls st2 = callback_calls st ++ [(cb, p)]
    /\ callback_calls st3 = callback_calls st ++ [(cb, p); (cb2, p)]
    /\ getDetails_calls st3 = getDetails_calls st1
    /\ length (getDetails_calls st1) = S (length (getDetails_calls st)).
Proof.
  intros Hid Hex Hac st1 st2 st3.
  assert (st3 = fetchPlaceDetails url_hostname placeId (Some fields) cb2 st2) as Hst3
    by reflexivity.
  clearbody st3.
  assert (missing_of st placeId fields ≠ []) as Hm.
  { apply filter_some. eapply Exists_impl; [exact Hex|]. intros f Hf. simpl.
    by rewrite bool_decide_eq_false_2. }
  assert (exists q st0,
            placeIdsToDetails st0 !! placeId = Some q
            /\ fetchedFields q = fetched_of st placeId
            /\ closures st0 = closures st /\ getDetails_calls st0 = getDetails_calls st
            /\ callback_calls st0 = callback_calls st /\ uncaught st0 = uncaught st
            /\ awaiting st0 = awaiting st
            /\ st1 = getDetails (length (closures st))
                       (with_closures
                          (closures st0 ++
                           [mkClosure placeId
                              (mkRequest placeId (missing_of st placeId fields)) O cb])
                          st0))
    as (q & st0 & Hq & Hfq & E1 & E2 & E3 & E4 & E5 & Hst1).
  { subst st1. cbn [step]. rewrite fetchPlaceDetails_missing by done. rewrite Hac.
    cbv zeta. unfold fetched_of.
    destruct (placeIdsToDetails st !! placeId) as [q|] eqn:Hq.
    - exists q, st. by repeat split.
    - exists (new_place placeId),
        (with_placeIdsToDetails (<[placeId := new_place placeId]> (placeIdsToDetails st)) st).
      split; [|by repeat split].
      state_fields. by rewrite lookup_insert_eq. }
  set (cl := mkClosure _ _ _ _) in Hst1.
  set (n := length (getDetails_calls st)) in *.
  set (c := length (closures st)) in *.
  assert (st1 = with_awaiting ({[n]} ∪ awaiting st)
                  (with_getDetails_calls (getDetails_calls st ++ [(cl_request cl, c)])
                     (with_closures (closures st ++ [cl]) st0))) as Hst1'.
  { rewrite Hst1. unfold getDetails. state_fields. rewrite E1.
    rewrite lookup_app_r, Nat.sub_diag by (subst c; lia). cbn [lookup list_lookup].
    by rewrite E2, E5. }
  clear Hst1. clearbody st1. subst st1.
  set (stA := with_awaiting (({[n]} ∪ awaiting st) ∖ {[n]})
                (with_getDetails_calls (getDetails_calls st ++ [(cl_request cl, c)])
                   (with_closures (closures st ++ [cl]) st0))).
  assert (st2 = processResult url_hostname c result OK random stA) as Hst2.
  { subst st2. cbn [step]. state_fields.
    rewrite bool_decide_eq_true_2 by set_solver.
    rewrite lookup_app_r, Nat.sub_diag by (subst n; lia). cbn [lookup list_lookup].
    reflexivity. }
  clearbody st2. subst st2.
  unfold processResult in Hst3 |- *. subst stA. state_fields. revert Hst3. state_fields.
  rewrite lookup_app_r, Nat.sub_diag by (subst c; lia). cbn [lookup list_lookup].
  cbn [status_eqb negb cl cl_place]. rewrite Hq.
  pose proof (merge_fetchedFields url_hostname result q) as Hff.
  destruct (merge url_hostname result q) as [p'|p']; cbn [outcome_place] in Hff.
  2:{ state_fields. rewrite E4. intros; lia. }
  cbv zeta. set (p := set_fetchedFields _ p'). intros Hst3 _.
  assert (Forall (fun field => field ∈ fetchedFields p) fields) as Hall.
  { apply Forall_forall. intros f Hf%list_elem_of_In. subst p.
    cbn [fetchedFields set_fetchedFields]. apply add_fields_elem.
    cbn [missingFields cl cl_request rq_fields]. rewrite Hff, Hfq.
    destruct (decide (f ∈ fetched_of st placeId)); [by right|left].
    by apply missing_of_spec. }
  exists p. state_fields. rewrite lookup_insert_eq. split; [done|]. split; [done|].
  rewrite E3. split; [done|].
  rewrite (fetchPlaceDetails_cached _ _ _ _ p) in Hst3;
    [|done|state_fields; by rewrite lookup_insert_eq|done].
  subst st3. state_fields. rewrite E3, <- app_assoc. split; [done|].
  split; [done|]. rewrite length_app. simpl. lia.
Qed.

End Exceptions.

Section MarkedFacts.

Import Num Helpers Widget Calls.

Local Set Warnings "-clear-no-such-hyp".

Context {A : Type}.

Lemma marked_push (X : gset nat) (log : list A) about a :
  (forall i, i ∈ X -> i < length log) ->
  marked ({[length log]} ∪ X) (log ++ [a]) about
  = marked X log about + (if about a then 1 else 0).
Proof.
  intros HX. unfold marked. rewrite length_app. cbn [length].
  rewrite Nat.add_1_r, seq_S, List.filter_app, length_app. cbn [Nat.add List.filter].
  f_equal.
  - f_equal. apply filter_ext_in. intros j Hj%in_seq.
    rewrite lookup_app_l by lia. f_equal. apply bool_decide_ext. set_solver by lia.
  - rewrite bool_decide_eq_true_2 by set_solver.
    rewrite lookup_app_r, Nat.sub_diag by lia. cbn [lookup list_lookup andb].
    by destruct (about a).
Qed.

Lemma marked_pop (X : gset nat) (log : list A) about j a :
  j ∈ X -> log !! j = Some a ->
  marked X log about = marked (X ∖ {[j]}) log about + (if about a then 1 else 0).
Proof.
  intros Hj Hlog. unfold marked. destruct (about a) eqn:Ha.
  - rewrite Nat.add_1_r. apply (filter_one _ _ j).
    + apply NoDup_seq.
    + apply in_seq. apply lookup_lt_Some in Hlog. lia.
    + rewrite bool_decide_eq_true_2 by done. by rewrite Hlog.
    + rewrite bool_decide_eq_false_2 by set_solver. done.
    + intros y Hy. f_equal. apply bool_decide_ext. set_solver.
  - rewrite Nat.add_0_r. f_equal. apply filter_ext_in. intros y _.
    destruct (decide (y = j)) as [->|Hy].
    + rewrite Hlog, Ha. by rewrite !andb_false_r.
    + f_equal. apply bool_decide_ext. set_solver.
Qed.

End MarkedFacts.

Section InFlight.

Import Num Helpers Widget Calls.

Local Set Warnings "-clear-no-such-hyp".

Variable url_hostname : string -> option string.

Ltac state_fields :=
  cbn [placeIdsToDetails placeIdsToAutocompleteResults closures getDetails_calls
       awaiting setTimeout_calls armed callback_calls uncaught
       with_placeIdsToDetails with_closures with_getDetails_calls with_awaiting
       with_setTimeout_calls with_armed with_callback_calls with_uncaught].

Lemma armed_of_marked c st :
  armed_of c st = marked (armed st) (setTimeout_calls st) (fun timer => fst timer =? c).
Proof. reflexivity. Qed.

(** What a closure has in flight, and what was sent and set for it, depend
    on the two logs, the requests awaited and the timers armed only. *)
Lemma flight_same st st' c :
  getDetails_calls st' = getDetails_calls st -> awaiting st' = awaiting st ->
  setTimeout_calls st' = setTimeout_calls st -> armed st' = armed st ->
  in_flight c st' = in_flight c st /\ requests_of c st' = requests_of c st
  /\ timers_of c st' = timers_of c st.
Proof.
  intros H1 H2 H3 H4.
  unfold in_flight, awaited_of, requests_of, timers_of. rewrite !armed_of_marked.
  by rewrite H1, H2, H3, H4.
Qed.

(** [getDetails] for closure [c0]. *)
Lemma flight_getDetails c0 st c :
  wf st -> is_Some (closures st !! c0) ->
  in_flight c (getDetails c0 st) = in_flight c st + (if c0 =? c then 1 else 0)
  /\ closures (getDetails c0 st) = closures st.
Proof.
  intros [Ha _] [cl Hcl]. unfold getDetails. rewrite Hcl.
  unfold in_flight, awaited_of. rewrite !armed_of_marked. state_fields.
  rewrite marked_push by done. cbn [snd]. split; [lia|done].
Qed.

(** [processResult] for closure [c0]: a retry arms a timer. *)
Lemma flight_processResult c0 result status random st c :
  wf st ->
  let st' := processResult url_hostname c0 result status random st in
  in_flight c st' <= in_flight c st + (if c0 =? c then 1 else 0)
  /\ (c0 <> c -> in_flight c st' = in_flight c st /\ timers_of c st' = timers_of c st)
  /\ requests_of c st' = requests_of c st
  /\ length (closures st') = length (closures st).
Proof.
  intros [_ Ht] st'. subst st'. unfold processResult.
  assert (forall st', getDetails_calls st' = getDetails_calls st ->
            awaiting st' = awaiting st -> setTimeout_calls st' = setTimeout_calls st ->
            armed st' = armed st -> closures st' = closures st ->
            in_flight c st' <= in_flight c st + (if c0 =? c then 1 else 0)
            /\ (c0 <> c -> in_flight c st' = in_flight c st
                           /\ timers_of c st' = timers_of c st)
            /\ requests_of c st' = requests_of c st
            /\ length (closures st') = length (closures st)) as Hsame.
  { intros st' H1 H2 H3 H4 H5.
    destruct (flight_same st st' c H1 H2 H3 H4) as (-> & -> & ->). rewrite H5.
    repeat split; lia. }
  destruct (closures st !! c0) as [cl|] eqn:Hcl; [|by apply Hsame].
  destruct (negb (status_eqb status OK)).
  2:{ repeat case_match; by apply Hsame. }
  destruct (status_eqb status OVER_QUERY_LIMIT && (retryCount cl <? 5)); [|by apply Hsame].
  unfold in_flight, awaited_of, timers_of, requests_of. rewrite !armed_of_marked.
  state_fields. rewrite marked_push by done. rewrite length_insert.
  rewrite List.filter_app, length_app. cbn [fst List.filter].
  destruct (Nat.eqb_spec c0 c) as [->|Hne]; cbn [length]; repeat split; lia.
Qed.

Lemma one_in_flight_initial places : one_in_flight (initializePlaceDetails places).
Proof. intros c. cbn. lia. Qed.

(** A step changes what closure [c] has in flight by one at most, and
    upwards only when it makes the call of [c]. *)
Lemma flight_step st ev c :
  wf st -> one_in_flight st ->
  let st' := step url_hostname st ev in
  one_in_flight st'
  /\ (c < length (closures st) -> in_flight c st' <= in_flight c st)
  /\ (c < length (closures st) -> in_flight c st = 0 ->
      requests_of c st' = requests_of c st /\ timers_of c st' = timers_of c st).
Proof.
  intros Hwf H st'. subst st'. pose proof Hwf as [Ha Ht].
  destruct ev as [placeId fields cb|i result status random|j]; cbn [step].
  - (* a call *)
    unfold fetchPlaceDetails.
    assert (forall st', getDetails_calls st' = getDetails_calls st ->
              awaiting st' = awaiting st -> setTimeout_calls st' = setTimeout_calls st ->
              armed st' = armed st -> closures st' = closures st ->
              one_in_flight st'
              /\ (c < length (closures st) -> in_flight c st' <= in_flight c st)
              /\ (c < length (closures st) -> in_flight c st = 0 ->
                  requests_of c st' = requests_of c st
                  /\ timers_of c st' = timers_of c st)) as Hsame.
    { intros st' H1 H2 H3 H4 H5. split; [|split].
      - intros c'. destruct (flight_same st st' c' H1 H2 H3 H4) as (-> & _).
        rewrite H5. apply H.
      - intros _. destruct (flight_same st st' c H1 H2 H3 H4) as (-> & _). lia.
      - intros _ _. by destruct (flight_same st st' c H1 H2 H3 H4) as (_ & -> & ->). }
    destruct placeId as [|a s]; [by apply Hsame|].
    destruct fields as [fields|]; [|by apply Hsame].
    set (pid := String a s).
    assert (forall st0 cl,
              getDetails_calls st0 = getDetails_calls st -> awaiting st0 = awaiting st ->
              setTimeout_calls st0 = setTimeout_calls st -> armed st0 = armed st ->
              closures st0 = closures st ->
              let st1 := with_closures (closures st0 ++ [cl]) st0 in
              forall st',
                (exists r, st' = processResult url_hostname (length (closures st0)) r OK zero st1)
                \/ st' = getDetails (length (closures st0)) st1 ->
                one_in_flight st'
                /\ (c < length (closures st) -> in_flight c st' <= in_flight c st)
                /\ (c < length (closures st) -> in_flight c st = 0 ->
                    requests_of c st' = requests_of c st
                    /\ timers_of c st' = timers_of c st)) as Hnew.
    { intros st0 cl E1 E2 E3 E4 E5 st1 st' Hst'.
      assert (wf st1) as Hwf1 by (by apply (wf_same st)).
      assert (forall c', in_flight c' st1 = in_flight c' st
                         /\ requests_of c' st1 = requests_of c' st
                         /\ timers_of c' st1 = timers_of c' st) as Hfl
        by (intros c'; by apply flight_same).
      assert (length (closures st1) = S (length (closures st))) as Hlen
        by (subst st1; state_fields; rewrite length_app, E5; simpl; lia).
      destruct Hst' as [[r ->]| ->].
      - assert (forall c', in_flight c' (processResult url_hostname (length (closures st0)) r OK zero st1)
                            = in_flight c' st
                          /\ requests_of c' (processResult url_hostname (length (closures st0)) r OK zero st1)
                             = requests_of c' st
                          /\ timers_of c' (processResult url_hostname (length (closures st0)) r OK zero st1)
                             = timers_of c' st) as Hp.
        { intros c'. destruct (Hfl c') as (F1 & F2 & F3). rewrite <- F1, <- F2, <- F3.
          apply flight_same; unfold processResult; cbn [status_eqb negb];
            repeat case_match; reflexivity. }
        split; [|split].
        + intros c'. destruct (Hp c') as (-> & _).
          pose proof (flight_processResult (length (closures st0)) r OK zero st1 c' Hwf1)
            as (_ & _ & _ & ->).
          rewrite Hlen. specialize (H c').
          destruct (Nat.ltb_spec c' (length (closures st)));
            destruct (Nat.ltb_spec c' (S (length (closures st)))); lia.
        + intros _. destruct (Hp c) as (-> & _). lia.
        + intros _ _. by destruct (Hp c) as (_ & -> & ->).
      - assert (is_Some (closures st1 !! length (closures st0))) as Hsome.
        { subst st1. state_fields. rewrite lookup_app_r, Nat.sub_diag by lia. eauto. }
        assert (forall c', requests_of c' (getDetails (length (closures st0)) st1)
                           = requests_of c' st + (if length (closures st0) =? c' then 1 else 0)
                           /\ timers_of c' (getDetails (length (closures st0)) st1)
                              = timers_of c' st) as Hrq.
        { intros c'. destruct (Hfl c') as (_ & F2 & F3).
          destruct (requests_of_getDetails (length (closures st0)) st1 c' Hsome)
            as (-> & -> & _). by rewrite F2, F3. }
        split; [|split].
        + intros c'. destruct (flight_getDetails (length (closures st0)) st1 c' Hwf1 Hsome)
            as [-> ->].
          destruct (Hfl c') as (-> & _). rewrite Hlen, E5. specialize (H c').
          destruct (Nat.eqb_spec (length (closures st)) c');
            destruct (Nat.ltb_spec c' (length (closures st)));
            destruct (Nat.ltb_spec c' (S (length (closures st)))); lia.
        + intros Hc. destruct (flight_getDetails (length (closures st0)) st1 c Hwf1 Hsome)
            as [-> _].
          destruct (Hfl c) as (-> & _). rewrite E5.
          destruct (Nat.eqb_spec (length (closures st)) c); lia.
        + intros Hc _. destruct (Hrq c) as [-> ->]. rewrite E5.
          destruct (Nat.eqb_spec (length (closures st)) c); [lia|]. split; lia. }
    destruct (placeIdsToDetails st !! pid) as [p|]; cbv zeta iota beta.
    + case_match; [by apply Hsame|].
      match goal with |- context [with_closures (closures st ++ [?cl]) st] =>
        pose proof (Hnew st cl eq_refl eq_refl eq_refl eq_refl eq_refl) as Hn end.
      cbv zeta in Hn. case_match; apply Hn; eauto.
    + case_match; [by apply Hsame|].
      match goal with |- context [with_closures (closures ?s ++ [?cl]) ?s] =>
        pose proof (Hnew s cl eq_refl eq_refl eq_refl eq_refl eq_refl) as Hn end.
      cbv zeta in Hn. case_match; apply Hn; eauto.
  - (* an answer *)
    case_bool_decide as Hi.
    2:{ split; [done|]. split; [lia|done]. }
    destruct (getDetails_calls st !! i) as [[rq c0]|] eqn:Hlog.
    2:{ split; [done|]. split; [lia|done]. }
    set (st1 := with_awaiting _ st).
    assert (wf st1) as Hwf1.
    { split; subst st1; state_fields; [|done]. intros i' Hi'. apply Ha. set_solver. }
    assert (forall c', in_flight c' st = in_flight c' st1 + (if c0 =? c' then 1 else 0)
                       /\ requests_of c' st1 = requests_of c' st
                       /\ timers_of c' st1 = timers_of c' st) as Hfl.
    { intros c'. split; [|by split]. unfold in_flight, awaited_of.
      rewrite !armed_of_marked. subst st1. state_fields.
      rewrite (marked_pop (awaiting st) _ _ i (rq, c0)) by done. cbn [snd]. lia. }
    split; [|split].
    + intros c'.
      destruct (flight_processResult c0 result status random st1 c' Hwf1)
        as (Hle & _ & _ & ->).
      destruct (Hfl c') as (Hf & _). specialize (H c').
      change (closures st1) with (closures st). lia.
    + intros _.
      destruct (flight_processResult c0 result status random st1 c Hwf1) as (Hle & _).
      destruct (Hfl c) as (Hf & _). lia.
    + intros _ H0.
      destruct (flight_processResult c0 result status random st1 c Hwf1)
        as (_ & Hne & -> & _).
      destruct (Hfl c) as (Hf & -> & Htm).
      destruct (Nat.eqb_spec c0 c) as [->|Hc]; [lia|].
      destruct (Hne Hc) as [_ ->]. by rewrite Htm.
  - (* a timer *)
    case_bool_decide as Hj.
    2:{ split; [done|]. split; [lia|done]. }
    destruct (setTimeout_calls st !! j) as [[c0 delay]|] eqn:Hlog.
    2:{ split; [done|]. split; [lia|done]. }
    set (st1 := with_armed _ st).
    assert (wf st1) as Hwf1.
    { split; subst st1; state_fields; [done|]. intros j' Hj'. apply Ht. set_solver. }
    assert (forall c', in_flight c' st = in_flight c' st1 + (if c0 =? c' then 1 else 0)
                       /\ requests_of c' st1 = requests_of c' st
                       /\ timers_of c' st1 = timers_of c' st) as Hfl.
    { intros c'. split; [|by split]. unfold in_flight, awaited_of.
      rewrite !armed_of_marked. subst st1. state_fields.
      rewrite (marked_pop (armed st) _ _ j (c0, delay)) by done. cbn [fst]. lia. }
    destruct (closures st !! c0) as [cl|] eqn:Hcl.
    + assert (is_Some (closures st1 !! c0)) as Hsome by (by exists cl).
      split; [|split].
      * intros c'. destruct (flight_getDetails c0 st1 c' Hwf1 Hsome) as [-> ->].
        destruct (Hfl c') as (Hf & _). specialize (H c').
        change (closures st1) with (closures st). lia.
      * intros _. destruct (flight_getDetails c0 st1 c Hwf1 Hsome) as [-> _].
        destruct (Hfl c) as (Hf & _). lia.
      * intros _ H0. destruct (Hfl c) as (Hf & Hr & Htm).
        destruct (requests_of_getDetails c0 st1 c Hsome) as (-> & -> & _).
        destruct (Nat.eqb_spec c0 c); [lia|]. rewrite Hr, Htm. split; lia.
    + unfold getDetails. change (closures st1) with (closures st). rewrite Hcl.
      split; [|split].
      * intros c'. destruct (Hfl c') as (Hf & _). specialize (H c').
        change (closures st1) with (closures st). lia.
      * intros _. destruct (Hfl c) as (Hf & _). lia.
      * intros _ _. by destruct (Hfl c) as (_ & -> & ->).
Qed.


Lemma one_in_flight_run evs : forall st,
  wf st -> one_in_flight st -> one_in_flight (run url_hostname st evs).
Proof.
  induction evs as [|ev evs IH]; intros st Hwf H; [done|].
  apply IH; [by apply wf_step|]. by apply (flight_step st ev 0).
Qed.

(** X21. Over any run of the widget, a call has at most one request
    awaiting its answer or one timer armed, never both nor two of a kind. *)
Theorem one_request_in_flight places evs c :
  in_flight c (run url_hostname (initializePlaceDetails places) evs) <= 1.
Proof.
  pose proof (one_in_flight_run evs _ (wf_initial places) (one_in_flight_initial places) c)
    as H.
  destruct (_ <? _) in H; lia.
Qed.



End InFlight.

(** * What a callback is owed *)

Section MarkedMore.

Import Num Helpers Widget Calls.

Local Set Warnings "-clear-no-such-hyp".

Context {A : Type}.

Lemma marked_ext (X : gset nat) (log : list A) about about' :
  (forall j a, log !! j = Some a -> about a = about' a) ->
  marked X log about = marked X log about'.
Proof.
  intros H. unfold marked. f_equal. apply filter_ext_in. intros j _.
  destruct (log !! j) as [a|] eqn:Hj; [|done]. by rewrite (H j a Hj).
Qed.

End MarkedMore.

Section Callbacks.

Import Num Helpers Widget Calls.

Local Set Warnings "-clear-no-such-hyp".

Variable url_hostname : string -> option string.

Ltac state_fields :=
  cbn [placeIdsToDetails placeIdsToAutocompleteResults closures getDetails_calls
       awaiting setTimeout_calls armed callback_calls uncaught
       with_placeIdsToDetails with_closures with_getDetails_calls with_awaiting
       with_setTimeout_calls with_armed with_callback_calls with_uncaught].

(** What is owed to a callback depends on the logs, the requests awaited,
    the timers armed, and the callbacks of the closures. *)
Lemma owed_same h st st' :
  getDetails_calls st' = getDetails_calls st -> awaiting st' = awaiting st ->
  setTimeout_calls st' = setTimeout_calls st -> armed st' = armed st ->
  (forall i call, getDetails_calls st !! i = Some call ->
     calls_back h (snd call) st' = calls_back h (snd call) st) ->
  (forall j timer, setTimeout_calls st !! j = Some timer ->
     calls_back h (fst timer) st' = calls_back h (fst timer) st) ->
  awaited_by h st' = awaited_by h st /\ armed_by h st' = armed_by h st.
Proof.
  intros H1 H2 H3 H4 H5 H6. unfold awaited_by, armed_by.
  rewrite H1, H2, H3, H4. split; by apply marked_ext.
Qed.

Lemma closures_known_initial places : closures_known (initializePlaceDetails places).
Proof. split; intros i x; cbn; by rewrite lookup_nil. Qed.

Lemma closures_known_same st st' :
  getDetails_calls st' = getDetails_calls st ->
  setTimeout_calls st' = setTimeout_calls st ->
  length (closures st) <= length (closures st') ->
  closures_known st -> closures_known st'.
Proof.
  intros H1 H2 H3 [K1 K2]. split.
  - intros i call. rewrite H1. intros Hi%K1. lia.
  - intros j timer. rewrite H2. intros Hj%K2. lia.
Qed.

(** [getDetails] for closure [c0]. *)
Lemma owed_getDetails h c0 st :
  wf st -> closures_known st ->
  owed h (getDetails c0 st) <= owed h st + (if calls_back h c0 st then 1 else 0)
  /\ closures_known (getDetails c0 st)
  /\ closures (getDetails c0 st) = closures st.
Proof.
  intros [Ha _] [K1 K2]. unfold getDetails.
  destruct (closures st !! c0) as [cl|] eqn:Hcl.
  2:{ split; [lia|]. by split. }
  split; [|split; [|done]].
  - unfold owed, called, awaited_by, armed_by, calls_back. state_fields.
    rewrite marked_push by done. cbn [snd]. lia.
  - split; state_fields; [|done].
    intros i call [Hi|[_ Hi]]%lookup_app_Some; [by eapply K1|].
    apply list_lookup_singleton_Some in Hi as [_ <-]. cbn [snd].
    by eapply lookup_lt_Some.
Qed.

(** [processResult] for closure [c0]: a callback called, or a timer armed. *)
Lemma owed_processResult h c0 result status random st :
  wf st -> closures_known st ->
  let st' := processResult url_hostname c0 result status random st in
  owed h st' <= owed h st + (if calls_back h c0 st then 1 else 0)
  /\ closures_known st'
  /\ (forall c, calls_back h c st' = calls_back h c st)
  /\ length (closures st') = length (closures st).
Proof.
  intros [_ Ht] Hk st'. subst st'. unfold processResult.
  assert (forall st', callback_calls st' = callback_calls st ->
            getDetails_calls st' = getDetails_calls st -> awaiting st' = awaiting st ->
            setTimeout_calls st' = setTimeout_calls st -> armed st' = armed st ->
            closures st' = closures st ->
            owed h st' <= owed h st + (if calls_back h c0 st then 1 else 0)
            /\ closures_known st'
            /\ (forall c, calls_back h c st' = calls_back h c st)
            /\ length (closures st') = length (closures st)) as Hsame.
  { intros st' H0 H1 H2 H3 H4 H5.
    assert (forall c, calls_back h c st' = calls_back h c st) as Hcb
      by (intros c; unfold calls_back; by rewrite H5).
    destruct (owed_same h st st' H1 H2 H3 H4) as (E2 & E3); [done..|].
    unfold owed, called. rewrite E2, E3, H0, H5. split; [lia|]. split; [|done].
    apply (closures_known_same st); [done..|by rewrite H5|done]. }
  destruct (closures st !! c0) as [cl|] eqn:Hcl; [|by apply Hsame].
  assert (calls_back h c0 st = (callback cl =? h)) as Hc0
    by (unfold calls_back; by rewrite Hcl).
  destruct (negb (status_eqb status OK)).
  - destruct (status_eqb status OVER_QUERY_LIMIT && (retryCount cl <? 5)); [|by apply Hsame].
    set (st' := with_closures _ _).
    assert (forall c, calls_back h c st' = calls_back h c st) as Hcb.
    { intros c. unfold calls_back. subst st'. state_fields.
      destruct (decide (c0 = c)) as [<-|Hne].
      - rewrite list_lookup_insert_eq by (by eapply lookup_lt_Some). by rewrite Hcl.
      - by rewrite list_lookup_insert_ne. }
    split; [|split; [|split; [done|]]].
    + unfold owed, called, awaited_by, armed_by. subst st'. state_fields.
      rewrite marked_push by done. cbn [fst].
      rewrite (marked_ext (awaiting st) _ _ (fun call => calls_back h (snd call) st))
        by (intros; apply Hcb).
      rewrite (marked_ext (armed st) _ _ (fun timer => calls_back h (fst timer) st))
        by (intros; apply Hcb).
      rewrite Hcb. lia.
    + destruct Hk as [K1 K2]. split; subst st'; state_fields; rewrite length_insert.
      * done.
      * intros j timer [Hj|[_ Hj]]%lookup_app_Some; [by eapply K2|].
        apply list_lookup_singleton_Some in Hj as [_ <-]. cbn [fst].
        by eapply lookup_lt_Some.
    + subst st'. state_fields. by rewrite length_insert.
  - destruct (placeIdsToDetails st !! cl_place cl) as [p|]; [|by apply Hsame].
    destruct (merge url_hostname result p) as [p'|p']; [|by apply Hsame].
    set (st' := with_callback_calls _ _).
    assert (forall c, calls_back h c st' = calls_back h c st) as Hcb by done.
    split; [|split; [|done]].
    + unfold owed, called, awaited_by, armed_by. subst st'. state_fields.
      rewrite List.filter_app, length_app. cbn [List.filter fst].
      rewrite (marked_ext (awaiting st) _ _ (fun call => calls_back h (snd call) st))
        by (intros; apply Hcb).
      rewrite (marked_ext (armed st) _ _ (fun timer => calls_back h (fst timer) st))
        by (intros; apply Hcb).
      rewrite Hc0. destruct (callback cl =? h); cbn [length]; lia.
    + by apply (closures_known_same st).
Qed.

(** A step adds to what is owed to callback [h] only when it passes it. *)
Lemma owed_step h st ev :
  wf st -> closures_known st ->
  owed h (step url_hostname st ev) <= owed h st + (if passes h ev then 1 else 0)
  /\ closures_known (step url_hostname st ev).
Proof.
  intros Hwf Hk. pose proof Hwf as [Ha Ht]. pose proof Hk as [K1 K2].
  destruct ev as [placeId fields cb|i result status random|j]; cbn [step passes].
  - (* a call *)
    unfold fetchPlaceDetails.
    destruct placeId as [|a s]; [split; [lia|done]|].
    destruct fields as [fields|]; [|split; [lia|done]].
    set (pid := String a s).
    assert (forall st0 p request,
              callback_calls st0 = callback_calls st ->
              getDetails_calls st0 = getDetails_calls st -> awaiting st0 = awaiting st ->
              setTimeout_calls st0 = setTimeout_calls st -> armed st0 = armed st ->
              closures st0 = closures st ->
              (owed h (with_callback_calls (callback_calls st0 ++ [(cb, p)]) st0)
               <= owed h st + (if cb =? h then 1 else 0)
               /\ closures_known (with_callback_calls (callback_calls st0 ++ [(cb, p)]) st0))
              /\ let st1 := with_closures (closures st0 ++ [mkClosure pid request 0 cb]) st0 in
                 forall r,
                   (owed h (processResult url_hostname (length (closures st0)) r OK zero st1)
                    <= owed h st + (if cb =? h then 1 else 0)
                    /\ closures_known
                         (processResult url_hostname (length (closures st0)) r OK zero st1))
                   /\ (owed h (getDetails (length (closures st0)) st1)
                       <= owed h st + (if cb =? h then 1 else 0)
                       /\ closures_known (getDetails (length (closures st0)) st1))) as Hnew.
    { intros st0 p request E0 E1 E2 E3 E4 E5. split.
      - split.
        + destruct (owed_same h st
                      (with_callback_calls (callback_calls st0 ++ [(cb, p)]) st0))
            as (F2 & F3); try done.
          1,2: intros; unfold calls_back; state_fields; by rewrite E5.
          unfold owed. rewrite F2, F3. unfold called. state_fields.
          rewrite E0, List.filter_app, length_app. cbn [List.filter fst].
          destruct (cb =? h); cbn [length]; lia.
        + apply (closures_known_same st); try done. state_fields. by rewrite E5.
      - intros st1 r.
        assert (wf st1) as Hwf1 by (by apply (wf_same st)).
        assert (closures_known st1) as Hk1.
        { apply (closures_known_same st); try done.
          subst st1. state_fields. rewrite length_app, E5. lia. }
        assert (owed h st1 = owed h st) as Ho.
        { destruct (owed_same h st st1) as (F2 & F3); try done.
          - intros i call Hi%K1. unfold calls_back. subst st1. state_fields.
            by rewrite E5, lookup_app_l.
          - intros j' timer Hj%K2. unfold calls_back. subst st1. state_fields.
            by rewrite E5, lookup_app_l.
          - unfold owed, called. subst st1. state_fields. by rewrite F2, F3, E0. }
        assert (calls_back h (length (closures st0)) st1 = (cb =? h)) as Hc.
        { unfold calls_back. subst st1. state_fields.
          by rewrite lookup_app_r, Nat.sub_diag. }
        split.
        + destruct (owed_processResult h (length (closures st0)) r OK zero st1 Hwf1 Hk1)
            as (Hle & Hk' & _). rewrite Hc, Ho in Hle. done.
        + destruct (owed_getDetails h (length (closures st0)) st1 Hwf1 Hk1)
            as (Hle & Hk' & _). rewrite Hc, Ho in Hle. done. }
    set (extra := if cb =? h then 1 else 0) in *. clearbody extra.
    destruct (placeIdsToDetails st !! pid) as [p|]; cbv zeta iota beta.
    + case_match.
      * by apply (Hnew st p (mkRequest pid [])).
      * match goal with |- context [mkClosure pid ?r 0 cb] =>
          destruct (Hnew st p r) as [_ Hn]; try done end.
        cbv zeta in Hn. case_match.
        -- match goal with |- context [processResult _ _ ?r _ _ _] =>
             by destruct (Hn r) end.
        -- by destruct (Hn (named ""%string)).
    + set (st0 := with_placeIdsToDetails _ st). case_match.
      * by apply (Hnew st0 (new_place pid) (mkRequest pid [])).
      * match goal with |- context [mkClosure pid ?r 0 cb] =>
          destruct (Hnew st0 (new_place pid) r) as [_ Hn]; try done end.
        cbv zeta in Hn. case_match.
        -- match goal with |- context [processResult _ _ ?r _ _ _] =>
             by destruct (Hn r) end.
        -- by destruct (Hn (named ""%string)).
  - (* an answer *)
    case_bool_decide as Hi; [|split; [lia|done]].
    destruct (getDetails_calls st !! i) as [[rq c0]|] eqn:Hlog; [|split; [lia|done]].
    set (st1 := with_awaiting _ st).
    assert (wf st1) as Hwf1.
    { split; subst st1; state_fields; [|done]. intros i' Hi'. apply Ha. set_solver. }
    assert (closures_known st1) as Hk1 by (by apply (closures_known_same st)).
    assert (owed h st = owed h st1 + (if calls_back h c0 st1 then 1 else 0)) as Ho.
    { unfold owed, called, awaited_by, armed_by. subst st1. state_fields.
      rewrite (marked_pop (awaiting st) _ _ i (rq, c0)) by done. cbn [snd].
      unfold calls_back. state_fields. lia. }
    destruct (owed_processResult h c0 result status random st1 Hwf1 Hk1) as (Hle & Hk' & _).
    split; [lia|done].
  - (* a timer *)
    case_bool_decide as Hj; [|split; [lia|done]].
    destruct (setTimeout_calls st !! j) as [[c0 delay]|] eqn:Hlog; [|split; [lia|done]].
    set (st1 := with_armed _ st).
    assert (wf st1) as Hwf1.
    { split; subst st1; state_fields; [done|]. intros j' Hj'. apply Ht. set_solver. }
    assert (closures_known st1) as Hk1 by (by apply (closures_known_same st)).
    assert (owed h st = owed h st1 + (if calls_back h c0 st1 then 1 else 0)) as Ho.
    { unfold owed, called, awaited_by, armed_by. subst st1. state_fields.
      rewrite (marked_pop (armed st) _ _ j (c0, delay)) by done. cbn [fst].
      unfold calls_back. state_fields. lia. }
    destruct (owed_getDetails h c0 st1 Hwf1 Hk1) as (Hle & Hk' & _).
    split; [lia|done].
Qed.

Lemma owed_run h evs : forall st,
  wf st -> closures_known st ->
  owed h (run url_hostname st evs) <= owed h st + passed h evs.
Proof.
  induction evs as [|ev evs IH]; intros st Hwf Hk; [simpl; lia|].
  change (run url_hostname st (ev :: evs))
    with (run url_hostname (step url_hostname st ev) evs).
  destruct (owed_step h st ev Hwf Hk) as [Hle Hk'].
  pose proof (IH _ (wf_step url_hostname st ev Hwf) Hk').
  unfold passed in *. cbn [List.filter]. destruct (passes h ev); cbn [length]; lia.
Qed.



(** X23. A callback is called no more often than it was passed to
    [fetchPlaceDetails]: the calls of it made so far, the requests that
    await an answer for it and the timers armed for it never add up to
    more than that.  A callback passed once is called once at most. *)
Theorem callback_called_once places evs h :
  let st := run url_hostname (initializePlaceDetails places) evs in
  called h st + awaited_by h st + armed_by h st <= passed h evs.
Proof.
  intros st.
  pose proof (owed_run h evs _ (wf_initial places) (closures_known_initial places)) as H.
  fold st in H. unfold owed in H at 1.
  replace (owed h (initializePlaceDetails places)) with 0 in H; [lia|].
  reflexivity.
Qed.


End Callbacks.

(** * The selection of a place *)

Section PanelFacts.

Import Num Helpers Widget Calls Panel.

Local Set Warnings "-clear-no-such-hyp".

Variable url_hostname : string -> option string.

Ltac state_fields :=
  cbn [placeIdsToDetails placeIdsToAutocompleteResults closures getDetails_calls
       awaiting setTimeout_calls armed callback_calls uncaught
       with_placeIdsToDetails with_closures with_getDetails_calls with_awaiting
       with_setTimeout_calls with_armed with_callback_calls with_uncaught
       with_placeIdsToAutocompleteResults fetcher selectedPlaceId processResults
       searchInput with_fetcher].





(** X14. For a place of which the fields of the list, and no other but
    [place_id], are fetched, [selectPlaceById] sends one request, for the
    six fields of the details panel that the list does not show, and calls
    no callback yet. *)
Theorem listed_place_details pn id panToMarker :
  id ≠ EmptyString ->
  selectedPlaceId pn ≠ Some id ->
  autocomplete_result (fetcher pn) id = None ->
  fetched_of (fetcher pn) id = list_to_set ("place_id"%string :: list_fields) ->
  let pn' := selectPlaceById url_hostname (Some id) panToMarker pn in
  getDetails_calls (fetcher pn')
  = getDetails_calls (fetcher pn)
    ++ [(mkRequest id
           [ "formatted_address"; "url"; "website"; "formatted_phone_number";
             "opening_hours"; "review" ]%string,
         length (closures (fetcher pn)))]
  /\ callback_calls (fetcher pn') = callback_calls (fetcher pn).
Proof.
  intros Hid Hsel Hac Hfetched pn'. subst pn'. unfold selectPlaceById.
  rewrite bool_decide_eq_false_2 by done. state_fields.
  assert (missing_of (fetcher pn) id details_fields
          = [ "formatted_address"; "url"; "website"; "formatted_phone_number";
              "opening_hours"; "review" ]%string) as Hm.
  { unfold missing_of. rewrite Hfetched. vm_compute. reflexivity. }
  rewrite fetchPlaceDetails_missing by (done || by rewrite Hm).
  rewrite Hac, Hm. cbv zeta. unfold getDetails. state_fields.
  assert (forall stx : state, closures stx = closures (fetcher pn) ->
            (closures stx ++ [mkClosure id (mkRequest id
               [ "formatted_address"; "url"; "website"; "formatted_phone_number";
                 "opening_hours"; "review" ]%string) 0 (length (processResults pn))])
            !! length (closures (fetcher pn))
            = Some (mkClosure id (mkRequest id
               [ "formatted_address"; "url"; "website"; "formatted_phone_number";
                 "opening_hours"; "review" ]%string) 0 (length (processResults pn)))) as Hl.
  { intros stx E. rewrite lookup_app_r by (rewrite E; lia). by rewrite E, Nat.sub_diag. }
  destruct (placeIdsToDetails (fetcher pn) !! id); state_fields;
    rewrite Hl by done; state_fields; done.
Qed.

(** X15. For a place picked in the search box that is not the selected one,
    no request is sent to the service and no timer set: the result of the
    search is merged instead. Unless that throws, the callback is called at
    once with the cached place, all thirteen fields of the details panel
    count as fetched, whatever the result holds, and the search input is
    cleared. *)
Theorem searched_place_from_result pn id place :
  placeIdsToAutocompleteResults (fetcher pn) ≠ None ->
  id ≠ EmptyString ->
  selectedPlaceId pn ≠ Some id ->
  let pn' := place_changed url_hostname (Some id) place pn in
  getDetails_calls (fetcher pn') = getDetails_calls (fetcher pn)
  /\ setTimeout_calls (fetcher pn') = setTimeout_calls (fetcher pn)
  /\ selectedPlaceId pn' = Some id
  /\ ((uncaught (fetcher pn') = S (uncaught (fetcher pn))
       /\ callback_calls (fetcher pn') = callback_calls (fetcher pn)
       /\ searchInput pn' = searchInput pn)
      \/ (uncaught (fetcher pn') = uncaught (fetcher pn)
          /\ searchInput pn' = EmptyString
          /\ exists p,
               callback_calls (fetcher pn')
               = callback_calls (fetcher pn) ++ [(length (processResults pn), p)]
               /\ placeIdsToDetails (fetcher pn') !! id = Some p
               /\ Forall (fun field => field ∈ fetchedFields p) details_fields)).
Proof.
  intros Hsearch Hid Hsel pn'. subst pn'. unfold place_changed.
  destruct (placeIdsToAutocompleteResults (fetcher pn)) as [results|] eqn:Hres; [|done].
  cbv zeta. unfold selectPlaceById. state_fields.
  rewrite bool_decide_eq_false_2 by done. state_fields.
  set (st := with_placeIdsToAutocompleteResults _ (fetcher pn)).
  set (cb := length (processResults pn)).
  assert (autocomplete_result st id = Some place) as Hac
    by (unfold autocomplete_result; subst st; state_fields; by rewrite lookup_insert_eq).
  destruct (missing_of st id details_fields) as [|f0 l] eqn:Hm.
  - (* every field is fetched already *)
    assert (Forall (fun field => field ∈ fetched_of st id) details_fields) as Hall.
    { apply Forall_forall. intros f Hf%list_elem_of_In.
      destruct (decide (f ∈ fetched_of st id)) as [|Hn]; [done|exfalso].
      assert (In f (missing_of st id details_fields)) as Hin by (by apply missing_of_spec).
      by rewrite Hm in Hin. }
    unfold fetched_of in Hall. unfold fetchPlaceDetails.
    destruct id as [|a s]; [done|]. set (id := String a s) in *.
    destruct (placeIdsToDetails st !! id) as [p|] eqn:Hp.
    + rewrite filter_none.
      2:{ eapply Forall_impl; [exact Hall|]. intros f Hf. simpl.
          by rewrite bool_decide_eq_true_2. }
      cbn [length Nat.eqb]. subst st. state_fields. rewrite Nat.eqb_refl. state_fields.
      repeat split; try done. right. repeat split; try done. exists p. by repeat split.
    + rewrite filter_none.
      2:{ eapply Forall_impl; [exact Hall|]. intros f Hf. simpl.
          by rewrite bool_decide_eq_true_2. }
      cbn [length Nat.eqb]. subst st. state_fields. rewrite Nat.eqb_refl. state_fields.
      repeat split; try done. right. repeat split; try done.
      exists (new_place id). rewrite lookup_insert_eq. by repeat split.
  - rewrite fetchPlaceDetails_missing by (done || by rewrite Hm).
    rewrite Hac. cbv zeta.
    set (missing := missing_of st id details_fields) in *.
    set (cl := mkClosure id (mkRequest id missing) 0 cb).
    assert (exists q st0,
              placeIdsToDetails st0 !! id = Some q
              /\ fetchedFields q = fetched_of st id
              /\ closures st0 = closures st /\ getDetails_calls st0 = getDetails_calls st
              /\ callback_calls st0 = callback_calls st /\ uncaught st0 = uncaught st
              /\ setTimeout_calls st0 = setTimeout_calls st
              /\ match placeIdsToDetails st !! id with
                 | Some _ => st
                 | None => with_placeIdsToDetails
                             (<[id := new_place id]> (placeIdsToDetails st)) st
                 end = st0)
      as (q & st0 & Hq & Hfq & E1 & E2 & E3 & E4 & E5 & ->).
    { unfold fetched_of. destruct (placeIdsToDetails st !! id) as [q|] eqn:Hq.
      - exists q, st. by repeat split.
      - exists (new_place id),
          (with_placeIdsToDetails (<[id := new_place id]> (placeIdsToDetails st)) st).
        split; [|by repeat split]. state_fields. by rewrite lookup_insert_eq. }
    unfold processResult. state_fields.
    rewrite lookup_app_r, Nat.sub_diag by lia. cbn [lookup list_lookup].
    cbn [status_eqb negb cl cl_place]. rewrite Hq.
    pose proof (merge_fetchedFields url_hostname place q) as Hff.
    destruct (merge url_hostname place q) as [p'|p']; cbn [outcome_place] in Hff;
      state_fields; rewrite ?E2, ?E3, ?E4, ?E5; subst st; state_fields.
    + rewrite Nat.eqb_refl. state_fields. repeat split; try done. right.
      repeat split; try done. eexists. split; [reflexivity|].
      rewrite lookup_insert_eq. split; [reflexivity|].
      apply Forall_forall. intros f Hf%list_elem_of_In.
      cbn [fetchedFields set_fetchedFields]. apply add_fields_elem.
      cbn [missingFields cl_request rq_fields]. rewrite Hff, Hfq.
      match goal with |- _ \/ f ∈ fetched_of ?s id =>
        destruct (decide (f ∈ fetched_of s id)); [by right|left] end.
      subst missing. by apply missing_of_spec.
    + replace (S (uncaught (fetcher pn)) =? uncaught (fetcher pn))%nat with false
        by (symmetry; apply Nat.eqb_neq; lia).
      state_fields. repeat split; try done. by left.
Qed.

End PanelFacts.


(** * More about the calculator, the geolocation page and the sign-up link *)

Section BmiMore.

Import Num Bmi.

(** X16. For valid input and a gender that is neither "male" nor "female",
    the BMI is shown as for the others and the category element reads
    "BMI Category: undefined". *)
Theorem other_gender_undefined pg :
  isNaN (parseFloat (height pg)) = false ->
  isNaN (parseFloat (weight pg)) = false ->
  leb (parseFloat (height pg)) (S754_zero false) = false ->
  leb (parseFloat (weight pg)) (S754_zero false) = false ->
  gender pg <> "male"%string -> gender pg <> "female"%string ->
  calculateBMI pg
  = mkPage (age pg) (gender pg) (height pg) (weight pg)
      ("Your BMI is: "
       +:+ toFixed (bmi_of (parseFloat (height pg)) (parseFloat (weight pg))) 2)
      "BMI Category: undefined" (alerts pg).
Proof.
  intros H1 H2 H3 H4 Hm Hf. unfold calculateBMI.
  rewrite H1, H2, H3, H4. cbn [orb]. unfold category_of.
  apply String.eqb_neq in Hm, Hf. rewrite Hm, Hf. reflexivity.
Qed.

Lemma other_gender_undefined_witness :
  calculateBMI (mkPage "30" "other" "180" "72.9" "" "" [])
  = mkPage "30" "other" "180" "72.9" "Your BMI is: 22.50" "BMI Category: undefined" [].
Proof.
  apply (other_gender_undefined (mkPage "30" "other" "180" "72.9" "" "" []));
    try (vm_compute; reflexivity); discriminate.
Defined.

(** X17. For valid input whose BMI is not a number (an infinite weight over
    an infinite squared height), the result element reads
    "Your BMI is: NaN" and the category is "Obese", the last branch of the
    chain; no alert is shown. *)
Theorem bmi_not_a_number pg :
  isNaN (parseFloat (height pg)) = false ->
  isNaN (parseFloat (weight pg)) = false ->
  leb (parseFloat (height pg)) (S754_zero false) = false ->
  leb (parseFloat (weight pg)) (S754_zero false) = false ->
  gender pg = "male"%string \/ gender pg = "female"%string ->
  isNaN (bmi_of (parseFloat (height pg)) (parseFloat (weight pg))) = true ->
  result (calculateBMI pg) = "Your BMI is: NaN"%string
  /\ result_category (calculateBMI pg) = "BMI Category: Obese"%string
  /\ alerts (calculateBMI pg) = alerts pg.
Proof.
  intros H1 H2 H3 H4 Hg Hn. unfold calculateBMI.
  rewrite H1, H2, H3, H4. cbn [orb result result_category alerts].
  destruct (bmi_of _ _); try discriminate Hn.
  split; [reflexivity|]. split; [|reflexivity].
  unfold category_of. destruct Hg as [-> | ->]; reflexivity.
Qed.

Lemma bmi_not_a_number_witness :
  result (calculateBMI (mkPage "30" "female" "Infinity" "Infinity" "" "" []))
  = "Your BMI is: NaN"%string
  /\ result_category (calculateBMI (mkPage "30" "female" "Infinity" "Infinity" "" "" []))
     = "BMI Category: Obese"%string
  /\ alerts (calculateBMI (mkPage "30" "female" "Infinity" "Infinity" "" "" [])) = [].
Proof.
  apply (bmi_not_a_number (mkPage "30" "female" "Infinity" "Infinity" "" "" []));
    try (vm_compute; reflexivity).
  right. reflexivity.
Defined.

End BmiMore.

Section GeoFacts.

Import Num Geo.

(** X18. For an error object of the Geolocation interface (constants 1, 2
    and 3, and none named [UNKNOWN_ERROR]) with a number as its code,
    [showErr] shows the alert of the constant the code equals, and none for
    another code: the alert "An unknown error occurred." is never the one
    shown. *)
Theorem showErr_standard error c shown :
  standard error -> code error = Some c ->
  showErr error shown
  = shown ++ (if eqb c (of_Z 1) then ["User denied the request for Geolocation API."%string]
              else if eqb c (of_Z 2) then ["USer location information is unavailable."%string]
              else if eqb c (of_Z 3) then ["The request to get user location timed out."%string]
              else [])
  /\ forall shown', showErr error shown' <> shown' ++ ["An unknown error occurred."%string].
Proof.
  intros (H1 & H2 & H3 & H4) Hc.
  assert (forall l, showErr error l
    = l ++ (if eqb c (of_Z 1) then ["User denied the request for Geolocation API."%string]
            else if eqb c (of_Z 2) then ["USer location information is unavailable."%string]
            else if eqb c (of_Z 3) then ["The request to get user location timed out."%string]
            else [])) as Heq.
  { intros l. unfold showErr. rewrite Hc, H1, H2, H3, H4. cbn [strict_eq].
    repeat case_match; try reflexivity. by rewrite app_nil_r. }
  split; [apply Heq|].
  intros l. rewrite Heq. intros E%app_inv_head.
  repeat case_match; discriminate E.
Qed.

Lemma showErr_standard_witness :
  showErr timed_out [] = ["The request to get user location timed out."%string].
Proof.
  apply (showErr_standard timed_out (of_Z 3) []).
  - by repeat split.
  - reflexivity.
Defined.

End GeoFacts.

Section SignUpFacts.

Import SignUp.

Local Set Warnings "-clear-no-such-hyp".






End SignUpFacts.

(** * The runs and pages of the samples *)

Section MoreSamples.

Import Num Helpers Widget Calls Panel.

Lemma callback_gets_what_was_asked_witness :
  length (callback_calls name_fetched) <= 1.
Proof.
  apply (callback_gets_what_was_asked no_hostname []
           [Call "clinic" (Some ["name"%string]) 0]
           (Reply 0 (named "Clinic") OK zero) (callback_calls name_fetched)).
  vm_compute. reflexivity.
Defined.

Lemma exception_leaves_fields_unfetched_witness :
  uncaught
    (run no_hostname (initializePlaceDetails [])
       [ Call "clinic" (Some ["types"%string]) 0; Reply 0 (untyped "Clinic") OK zero ])
  = 1.
Proof.
  apply (exception_leaves_fields_unfetched no_hostname []
           [Call "clinic" (Some ["types"%string]) 0] 0 (untyped "Clinic") zero).
  - vm_compute. reflexivity.
  - left. reflexivity.
Defined.

Lemma fetched_then_cached_witness :
  exists p,
    callback_calls
      (run no_hostname (initializePlaceDetails [])
         [ Call "clinic" (Some ["name"%string]) 0; Reply 0 (named "Clinic") OK zero;
           Call "clinic" (Some ["name"%string]) 1 ])
    = [(0, p); (1, p)].
Proof.
  destruct (fetched_then_cached no_hostname (initializePlaceDetails []) "clinic"
              ["name"%string] 0 (named "Clinic") zero 1)
    as (p & _ & _ & _ & H & _).
  - discriminate.
  - apply Exists_cons_hd. vm_compute. discriminate.
  - reflexivity.
  - vm_compute. reflexivity.
  - exists p. exact H.
Defined.



Lemma listed_place_details_witness :
  callback_calls
    (fetcher (selectPlaceById no_hostname (Some "clinic"%string) true
                (mkPanel listed None [] "")))
  = callback_calls listed.
Proof.
  apply (listed_place_details no_hostname (mkPanel listed None [] "") "clinic" true).
  - discriminate.
  - discriminate.
  - reflexivity.
  - reflexivity.
Defined.

Lemma searched_place_from_result_witness :
  getDetails_calls
    (fetcher (place_changed no_hostname (Some "clinic"%string) (named "Clinic") searching))
  = [].
Proof.
  apply (searched_place_from_result no_hostname searching "clinic" (named "Clinic")).
  - discriminate.
  - discriminate.
  - discriminate.
Defined.


End MoreSamples.

Section SignUpSamples.

Import SignUp.



End SignUpSamples.
